(** * brainsmash: CIFTI index mappings, medial-wall mask and smoothing kernels

    A shallow embedding of [brainsmash/utils/kernels.py] and
    [brainsmash/neuro/io.py].  Python values are Rocq data, a raised
    exception is the [Raise] branch of [result], and the scratch part of the
    file system that [export_cifti_mapping] touches is an explicit state
    threaded through a small state-and-exception monad. *)

From Stdlib Require Import ZArith String Ascii List Floats Uint63.
From stdpp Require Import base option list gmap strings.

Local Open Scope Z_scope.
Local Open Scope string_scope.

(** ** Python exceptions and results *)

(** The exception classes the two modules raise or let through.  The
    payload is the message (for [KeyError], the key). *)
Inductive exn : Type :=
| TypeError (msg : string)
| ValueError (msg : string)
| RuntimeError (msg : string)
| IndexError (msg : string)
| KeyError (key : string)
| AttributeError (msg : string)
| ZeroDivisionError (msg : string)
| OverflowError (msg : string)
| FileNotFoundError (msg : string)
| ParseError (msg : string).

Inductive result (A : Type) : Type :=
| Ok (a : A)
| Raise (e : exn).
Arguments Ok {A} a.
Arguments Raise {A} e.

#[global] Instance result_ret : MRet result := λ A a, Ok a.
#[global] Instance result_bind : MBind result := λ A B k r,
  match r with
  | Ok a => k a
  | Raise e => Raise e
  end.

(** [try_except r h]: a [try] block whose [except] clauses are [h]; a clause
    that does not match answers [None] and the exception goes on. *)
Definition try_except {A} (r : result A) (h : exn → option (result A)) : result A :=
  match r with
  | Ok a => Ok a
  | Raise e => match h e with Some r' => r' | None => Raise e end
  end.

(** ** utils/kernels.py *)

Module kernels.

(** The values a caller can hand to a kernel: plain Python objects, and
    numpy float64 arrays of rank 0 (a numpy scalar), 1 and 2.  A rank-2
    array carries its number of columns, which the rows alone do not
    determine when there are none. *)
#[warnings="-register-all"]
Inductive pyval : Type :=
| PyNone
| PyInt (z : Z)
| PyFloat (f : float)
| PyStr (s : string)
| PyList (l : list pyval)
| NdArray0 (x : float)
| NdArray1 (a : list float)
| NdArray2 (ncols : nat) (rows : list (list float)).

(** The name of [type(d)], and [type(d)] as [str.format] prints it. *)
Definition class_name (d : pyval) : string :=
  match d with
  | PyNone => "NoneType"
  | PyInt _ => "int"
  | PyFloat _ => "float"
  | PyStr _ => "str"
  | PyList _ => "list"
  | NdArray0 _ => "numpy.float64"
  | NdArray1 _ | NdArray2 _ _ => "numpy.ndarray"
  end.

Definition type_name (d : pyval) : string :=
  "<class '" +:+ class_name d +:+ "'>".

(** Only numpy values have [max], [shape] and [size]. *)
Definition is_ndarray (d : pyval) : bool :=
  match d with
  | NdArray0 _ | NdArray1 _ | NdArray2 _ _ => true
  | _ => false
  end.

Definition no_attribute (d : pyval) (attr : string) : exn :=
  AttributeError
    ("'" +:+ class_name d +:+ "' object has no attribute '" +:+ attr +:+ "'").

Definition expected_array_like (d : pyval) : exn :=
  TypeError ("expected array_like, got " +:+ type_name d).

(** Conversion of a Python [int] to a float: round to nearest, and
    [OverflowError] beyond the float range. *)
Definition float_of_int (z : Z) : result float :=
  let f := SF2Prim (binary_normalize prec emax z 0 false) in
  if PrimFloat.is_infinity f
  then Raise (OverflowError "int too large to convert to float")
  else Ok f.

Definition float_of_nat (n : nat) : float :=
  SF2Prim (binary_normalize prec emax (Z.of_nat n) 0 false).

(** [numpy.maximum.reduce] over a non-empty sequence: a NaN wins.  Of two
    equal maxima the earlier is kept: they differ only as the zeros [-0.0]
    and [+0.0], between which the choice of numpy is not fixed. *)
Definition np_max2 (x y : float) : float :=
  if PrimFloat.is_nan x then x
  else if PrimFloat.is_nan y then y
  else if PrimFloat.ltb x y then y else x.

Definition np_max (a : list float) : result float :=
  match a with
  | [] => Raise (ValueError
      "zero-size array to reduction operation maximum which has no identity")
  | x :: a' => Ok (foldl np_max2 x a')
  end.

(** [d.max(axis=-1)] *)
Definition max_last_axis (d : pyval) : result pyval :=
  match d with
  | NdArray0 x => Ok (NdArray0 x)
  | NdArray1 a => m ← np_max a ; Ok (NdArray0 m)
  | NdArray2 ncols rows =>
      match ncols with
      | O => Raise (ValueError
          "zero-size array to reduction operation maximum which has no identity")
      | S _ => Ok (NdArray1 (map (λ row, foldl np_max2 (hd 0%float row) (tl row)) rows))
      end
  | _ => Raise (no_attribute d "max")
  end.

(** [d.max()] *)
Definition max_all (d : pyval) : result float :=
  match d with
  | NdArray0 x => Ok x
  | NdArray1 a => np_max a
  | NdArray2 _ rows => np_max (concat rows)
  | _ => Raise (no_attribute d "max")
  end.

(** [m[:, np.newaxis]]: a numpy scalar cannot be indexed. *)
Definition colon_newaxis (m : pyval) : result pyval :=
  match m with
  | NdArray1 a => Ok (NdArray2 1 (map (λ x, [x]) a))
  | NdArray0 _ => Raise (IndexError "invalid index to scalar variable.")
  | _ => Raise (IndexError "too many indices for array")
  end.

(** Elementwise map over a numpy value. *)
Definition nd_map (f : float → float) (d : pyval) : pyval :=
  match d with
  | NdArray0 x => NdArray0 (f x)
  | NdArray1 a => NdArray1 (map f a)
  | NdArray2 n rows => NdArray2 n (map (map f) rows)
  | _ => d
  end.

(** [d / m] for the two shapes of [m] the kernels build: a column of row
    maxima, broadcast along each row of a rank-2 [d], and a scalar. *)
Definition div_rows (d m : pyval) : result pyval :=
  match d, m with
  | NdArray2 n rows, NdArray2 _ col =>
      Ok (NdArray2 n (zip_with (λ row mx, map (λ x, x / hd 0 mx)%float row) rows col))
  | _, _ => Raise (TypeError "unsupported operand type(s) for /")
  end.

Definition div_scalar (d : pyval) (m : float) : pyval :=
  nd_map (λ x, x / m)%float d.

Section Kernels.

(** [numpy.exp] and [numpy.square] on one float64; the exponential is the
    platform's. *)
Variable np_exp : float → float.

Definition np_square (x : float) : float := (x * x)%float.

Definition gaussian (d : pyval) : result pyval :=
  try_except
    (m ← max_last_axis d ;
     c ← colon_newaxis m ;
     q ← div_rows d c ;
     Ok (nd_map (λ x, np_exp (-0.5 * np_square x)%float) q))
    (λ e, match e with
          | IndexError _ =>
              Some (m ← max_all d ;
                    Ok (nd_map (λ x, np_exp (-0.5 * np_square x)%float)
                          (div_scalar d m)))
          | AttributeError _ => Some (Raise (expected_array_like d))
          | _ => None
          end).

(** [-d]: Python's own objects other than numbers have no negation. *)
Definition neg (d : pyval) : result pyval :=
  match d with
  | PyInt z => Ok (PyInt (- z))
  | PyFloat f => Ok (PyFloat (- f))
  | NdArray0 _ | NdArray1 _ | NdArray2 _ _ => Ok (nd_map PrimFloat.opp d)
  | PyNone | PyStr _ | PyList _ =>
      Raise (TypeError ("bad operand type for unary -: '" +:+ class_name d +:+ "'"))
  end.

Definition exp (d : pyval) : result pyval :=
  try_except
    (n ← neg d ;
     m ← max_last_axis d ;
     c ← colon_newaxis m ;
     q ← div_rows n c ;
     Ok (nd_map np_exp q))
    (λ e, match e with
          | IndexError _ =>
              Some (n ← neg d ;
                    m ← max_all d ;
                    Ok (nd_map np_exp (div_scalar n m)))
          | AttributeError _ => Some (Raise (expected_array_like d))
          | _ => None
          end).

(** [1. / d].  Python's own division raises on a zero divisor; numpy's does
    the IEEE division elementwise. *)
Definition float_truediv (d : pyval) : result pyval :=
  match d with
  | PyFloat f =>
      if PrimFloat.eqb f 0 then Raise (ZeroDivisionError "float division by zero")
      else Ok (PyFloat (1 / f))
  | PyInt z =>
      f ← float_of_int z ;
      if PrimFloat.eqb f 0 then Raise (ZeroDivisionError "float division by zero")
      else Ok (PyFloat (1 / f))
  | NdArray0 _ | NdArray1 _ | NdArray2 _ _ => Ok (nd_map (λ x, 1 / x)%float d)
  | PyNone | PyStr _ | PyList _ =>
      Raise (TypeError
        ("unsupported operand type(s) for /: 'float' and '" +:+ class_name d +:+ "'"))
  end%float.

Definition invdist (d : pyval) : result pyval :=
  try_except (float_truediv d)
    (λ e, match e with
          | ZeroDivisionError msg => Some (Raise (ZeroDivisionError msg))
          | AttributeError _ => Some (Raise (expected_array_like d))
          | _ => None
          end).

(** [d.shape], [d.size] and [np.ones(shape) / n] *)
Definition shape (d : pyval) : result (list nat) :=
  match d with
  | NdArray0 _ => Ok []
  | NdArray1 a => Ok [length a]
  | NdArray2 n rows => Ok [length rows; n]
  | _ => Raise (no_attribute d "shape")
  end.

Definition size (d : pyval) : result nat :=
  match d with
  | NdArray0 _ => Ok 1%nat
  | NdArray1 a => Ok (length a)
  | NdArray2 n rows => Ok (length rows * n)%nat
  | _ => Raise (no_attribute d "size")
  end.

Definition ones_over (sh : list nat) (n : nat) : pyval :=
  let w := (1 / float_of_nat n)%float in
  match sh with
  | [] => NdArray0 w
  | [k] => NdArray1 (replicate k w)
  | k :: c :: _ => NdArray2 c (replicate k (replicate c w))
  end.

Definition uniform (d : pyval) : result pyval :=
  try_except
    (sh ← shape d ;
     match last sh with
     | Some n => Ok (ones_over sh n)
     | None => Raise (IndexError "tuple index out of range")
     end)
    (λ e, match e with
          | IndexError _ => Some (n ← size d ; Ok (ones_over [n] n))
          | AttributeError _ => Some (Raise (expected_array_like d))
          | _ => None
          end).

End Kernels.

End kernels.

(** ** Python strings and [os.path] *)

Module pystr.

(** [s.rfind(c)] for a one-character [c]: the highest index, if any
    (Python answers [-1] where this answers [None]). *)
Fixpoint rfind (c : ascii) (s : string) : option nat :=
  match s with
  | EmptyString => None
  | String a s' =>
      match rfind c s' with
      | Some i => Some (S i)
      | None => if Ascii.eqb a c then Some O else None
      end
  end.

Definition rfind_Z (c : ascii) (s : string) : Z :=
  match rfind c s with
  | Some i => Z.of_nat i
  | None => -1
  end.

(** [s[:n]] and [s[n:]] *)
Fixpoint str_take (n : nat) (s : string) : string :=
  match n, s with
  | S n', String a s' => String a (str_take n' s')
  | _, _ => EmptyString
  end.

Fixpoint str_drop (n : nat) (s : string) : string :=
  match n, s with
  | S n', String _ s' => str_drop n' s'
  | _, _ => s
  end.

(** [s[i]] *)
Definition str_index (s : string) (i : nat) : result ascii :=
  match String.get i s with
  | Some a => Ok a
  | None => Raise (IndexError "string index out of range")
  end.

(** [sub in s] *)
Definition str_contains (sub s : string) : bool :=
  match String.index 0 sub s with
  | Some _ => true
  | None => false
  end.

Fixpoint all_dots (s : string) : bool :=
  match s with
  | EmptyString => true
  | String a s' => Ascii.eqb a "." && all_dots s'
  end.

(** [os.path.splitext] on a POSIX path: split at the last dot of the last
    component, unless that component has only dots in front of it. *)
Definition splitext (p : string) : string * string :=
  let sepIndex := rfind_Z "/" p in
  let dotIndex := rfind_Z "." p in
  if (sepIndex <? dotIndex)%Z then
    let filenameIndex := Z.to_nat (sepIndex + 1) in
    let dot := Z.to_nat dotIndex in
    if all_dots (str_take (dot - filenameIndex)%nat (str_drop filenameIndex p))
    then (p, "")
    else (str_take dot p, str_drop dot p)
  else (p, "").

(** A path has a stem when its last component has a character that is not
    a dot; [splitext] then takes off an extension added to it. *)
Definition has_stem (p : string) : Prop :=
  all_dots (str_drop (Z.to_nat (rfind_Z "/" p + 1)) p) = false.

(** [os.path.join(a, b)] on POSIX paths *)
Definition ends_with_slash (a : string) : bool :=
  match String.get (String.length a - 1)%nat a with
  | Some c => Ascii.eqb c "/"
  | None => false
  end.

Definition path_join (a b : string) : string :=
  match b with
  | String "/" _ => b
  | _ => if bool_decide (a = "") || ends_with_slash a then a +:+ b else a +:+ "/" +:+ b
  end.

(** Whitespace as [str.split()] and [int()] see it, within ASCII. *)
Definition is_space (a : ascii) : bool :=
  let n := nat_of_ascii a in
  ((9 <=? n) && (n <=? 13) || (28 <=? n) && (n <=? 32))%nat.

(** [s.split(sep)] for a one-character [sep]: every occurrence splits, so
    empty pieces are kept. *)
Fixpoint split_on (sep : ascii) (s : string) : list string :=
  match s with
  | EmptyString => [EmptyString]
  | String a s' =>
      if Ascii.eqb a sep then EmptyString :: split_on sep s'
      else match split_on sep s' with
           | w :: ws => String a w :: ws
           | [] => [String a EmptyString]
           end
  end.

(** [s.split()]: runs of whitespace split, and no piece is empty. *)
Fixpoint split_ws (s : string) : list string :=
  match s with
  | EmptyString => []
  | String a s' =>
      if is_space a then split_ws s'
      else match s' with
           | EmptyString => [String a EmptyString]
           | String b _ =>
               if is_space b then String a EmptyString :: split_ws s'
               else match split_ws s' with
                    | w :: ws => String a w :: ws
                    | [] => [String a EmptyString]
                    end
           end
  end.

Fixpoint lstrip (s : string) : string :=
  match s with
  | EmptyString => EmptyString
  | String a s' => if is_space a then lstrip s' else s
  end.

Fixpoint rstrip (s : string) : string :=
  match s with
  | EmptyString => EmptyString
  | String a s' =>
      match rstrip s' with
      | EmptyString => if is_space a then EmptyString else String a EmptyString
      | r => String a r
      end
  end.

Definition strip (s : string) : string := lstrip (rstrip s).

Definition digit_value (a : ascii) : option Z :=
  let n := nat_of_ascii a in
  if ((48 <=? n) && (n <=? 57))%nat then Some (Z.of_nat n - 48) else None.

(** Decimal digits, single underscores allowed between two digits. *)
Fixpoint digits_value (acc : Z) (after_digit : bool) (s : string) : option Z :=
  match s with
  | EmptyString => if after_digit then Some acc else None
  | String a s' =>
      match digit_value a with
      | Some d => digits_value (10 * acc + d) true s'
      | None =>
          if Ascii.eqb a "_" && after_digit then digits_value acc false s' else None
      end
  end.

(** An optional sign in front of the digits. *)
Definition split_sign (t : string) : bool * string :=
  match t with
  | String a t' =>
      if Ascii.eqb a "-" then (true, t')
      else if Ascii.eqb a "+" then (false, t')
      else (false, t)
  | EmptyString => (false, t)
  end.

(** [int(s)] in base 10 *)
Definition int (s : string) : result Z :=
  let '(negative, digits) := split_sign (strip s) in
  match digits_value 0 false digits with
  | Some z => Ok (if negative then - z else z)
  | None => Raise (ValueError ("invalid literal for int() with base 10: '" +:+ s +:+ "'"))
  end.

Fixpoint no_space (s : string) : bool :=
  match s with
  | EmptyString => true
  | String a s' => negb (is_space a) && no_space s'
  end.

Fixpoint all_space (s : string) : bool :=
  match s with
  | EmptyString => true
  | String a s' => is_space a && all_space s'
  end.

(** A token: not empty, and no whitespace in it.  What follows a token and
    ends it: nothing, or a whitespace. *)
Definition token (s : string) : Prop := s ≠ "" ∧ no_space s = true.

Definition ends_token (s : string) : Prop :=
  match s with
  | EmptyString => True
  | String b _ => is_space b = true
  end.

(** [sep.join(pieces)] for a one-character [sep] *)
Fixpoint join (sep : ascii) (pieces : list string) : string :=
  match pieces with
  | [] => EmptyString
  | [p] => p
  | p :: ps => p +:+ String sep (join sep ps)
  end.

End pystr.

(** ** neuro/io.py *)

Module io.
Import pystr.

Definition nl : string := String (ascii_of_nat 10) EmptyString.

(** *** Data *)

(** A node of an [xml.etree] tree: tag, attributes, text, children.  A tree
    parsed from a document shares no node, so a node is its occurrence. *)
#[warnings="-register-all"]
Inductive element : Type :=
| Element (tag : string) (attrib : gmap string string) (text : option string)
    (children : list element).

Definition tag (e : element) : string := let 'Element t _ _ _ := e in t.
Definition attrib (e : element) : gmap string string := let 'Element _ a _ _ := e in a.
Definition text (e : element) : option string := let 'Element _ _ t _ := e in t.
Definition children (e : element) : list element := let 'Element _ _ _ c := e in c.

(** What [nibabel.load] hands back, as far as this module looks at it: a
    GIFTI image with its data arrays (shape of the data, and the tree that
    [eT.fromstring(meta.to_xml())] gives, or the parser's error); a CIFTI-2
    image with the shape of its data, whose [header] is a [Cifti2Header]
    and has no [extensions]; or a NIfTI image of class [cls] ("Nifti1Image",
    "Nifti2Image") with the shape of its data and the extensions of its
    header (each the tree that [eT.fromstring(get_content())] gives, or the
    parser's error). *)
Record darray : Type := { da_shape : list Z; da_meta : result element }.

Inductive nib_image : Type :=
| GiftiImage (darrays : list darray)
| Cifti2Image (data_shape : list Z)
| NiftiImage (cls : string) (data_shape : list Z) (extensions : list (result element)).

(** A [pandas.DataFrame] read from a text table: row labels, column names
    and the cells, row by row. *)
Inductive cell : Type :=
| CInt (z : Z)
| CStr (s : string).

Record DataFrame : Type :=
  { df_index : list Z; df_columns : list string; df_values : list (list cell) }.

(** The geometry of a parcel in one structure: the vertices of a cortical
    surface, or an (n, 3) array of voxel indices, which numpy holds as
    integers or, for some lists, as [float64] numbers. *)
Inductive geometry : Type :=
| VertexList (v : list Z)
| VoxelArray (voxels : list (Z * Z * Z))
| VoxelFloats (voxels : list (float * float * float)).

(** The scratch part of the file system: the temporary directories that
    exist, by path, each with its files, by name, and their content.  A
    path below a scratch directory is the pair of the directory and the
    name ([path.join(tmpdir, name)]). *)
Abbreviation fs := (gmap string (gmap string string)).

(** Computations that raise and that change the file system. *)
Definition io (A : Type) : Type := fs → result A * fs.

#[global] Instance io_ret : MRet io := λ A a s, (Ok a, s).
#[global] Instance io_bind : MBind io := λ A B k m s,
  match m s with
  | (Ok a, s') => k a s'
  | (Raise e, s') => (Raise e, s')
  end.

Definition lift {A} (r : result A) : io A := λ s, (r, s).
Definition raise {A} (e : exn) : io A := λ s, (Raise e, s).

(** *** Containers *)

(** [d[k]] on a dict *)
Definition getitem {V} (d : gmap string V) (k : string) : result V :=
  match d !! k with
  | Some v => Ok v
  | None => Raise (KeyError k)
  end.

(** [l[i]] on a list or tuple *)
Definition list_index {A} (what : string) (l : list A) (i : nat) : result A :=
  match l !! i with
  | Some x => Ok x
  | None => Raise (IndexError (what +:+ " index out of range"))
  end.

(** A [for] loop over [l] that threads [acc] and stops at the first raise. *)
Fixpoint for_each {A S} (body : S → A → result S) (l : list A) (acc : S) : result S :=
  match l with
  | [] => Ok acc
  | x :: l' => acc' ← body acc x; for_each body l' acc'
  end.

Fixpoint for_each_io {A S} (body : S → A → io S) (l : list A) (acc : S) : io S :=
  match l with
  | [] => mret acc
  | x :: l' => acc' ← body acc x; for_each_io body l' acc'
  end.

(** [[f(i) for i in l]] *)
Fixpoint comprehension {A B} (f : A → result B) (l : list A) : result (list B) :=
  match l with
  | [] => Ok []
  | x :: l' => y ← f x; ys ← comprehension f l'; Ok (y :: ys)
  end.

(** *** Element trees *)

(** Every node below [e] in document order, [e] first, each with its
    parent: the order of [root.iter()], and the content of
    [{c: p for p in root.iter() for c in p}]. *)
Fixpoint walk (parent : option element) (e : element) : list (option element * element) :=
  match e with
  | Element _ _ _ cs =>
      (parent, e) ::
      (fix over (cs : list element) : list (option element * element) :=
         match cs with
         | [] => []
         | c :: cs' => (walk (Some e) c ++ over cs')%list
         end) cs
  end.

(** [root.iter(tag)], each node with its parent *)
Definition iter (t : string) (root : element) : list (option element * element) :=
  filter (λ pn, tag pn.2 = t) (walk None root).

(** [parent_map[node]] for a node met with parent [p]: the root has none. *)
Definition parent_of (pn : option element * element) : result element :=
  match pn.1 with
  | Some p => Ok p
  | None => Raise (KeyError (tag pn.2))
  end.

(** [node.text.split(...)] *)
Definition text_split (split : string → list string) (node : element) : result (list string) :=
  match text node with
  | Some t => Ok (split t)
  | None => Raise (AttributeError "'NoneType' object has no attribute 'split'")
  end.

(** [a.reshape(-1, 3)] on the entries of a rank-1 array *)
Fixpoint reshape3 {A} (l : list A) : result (list (A * A * A)) :=
  match l with
  | [] => Ok []
  | x :: y :: z :: l' => r ← reshape3 l'; Ok ((x, y, z) :: r)
  | _ => Raise (ValueError "cannot reshape array into shape (3)")
  end.

(** [np.array(l)] on a list of Python ints, where a C long has 64 bits.
    numpy settles on one dtype for the list: [int64] when every integer
    fits it, [uint64] when every integer fits that but not [int64], and
    [object] (the Python ints themselves) when one fits neither; in these
    the integers are kept.  A list that mixes integers of the first two
    kinds becomes [float64], each integer rounded to the nearest float,
    and so does the empty list, with no entry. *)
Inductive int_array : Type :=
| IntArray (values : list Z)
| FloatArray (values : list float).

Definition fits_int64 (z : Z) : bool := ((- 2 ^ 63 <=? z) && (z <? 2 ^ 63))%Z.
Definition fits_uint64 (z : Z) : bool := ((0 <=? z) && (z <? 2 ^ 64))%Z.

Definition float_of_Z (z : Z) : float := SF2Prim (binary_normalize prec emax z 0 false).

Definition np_array (l : list Z) : int_array :=
  match l with
  | [] => FloatArray []
  | _ =>
      if forallb fits_int64 l then IntArray l
      else if forallb (λ z, negb (fits_int64 z) && fits_uint64 z) l then IntArray l
      else if forallb (λ z, fits_int64 z || fits_uint64 z) l
      then FloatArray (map float_of_Z l)
      else IntArray l
  end.

(** [np.array(l).reshape(-1, 3)] *)
Definition reshape_voxels (l : list Z) : result geometry :=
  match np_array l with
  | IntArray values => voxels ← reshape3 values; Ok (VoxelArray voxels)
  | FloatArray values => voxels ← reshape3 values; Ok (VoxelFloats voxels)
  end.

Section World.

(** The collaborators: [nibabel.load]; the Connectome Workbench command
    [wb_command -cifti-export-dense-mapping image COLUMN ...] run for one
    structure of one image, with its exit status and the text it writes to
    the output file when it writes one; [pandas.read_table] on the content
    of a file, given the column names; and the directory the package is
    installed in. *)
Variable nib_load : string → result nib_image.
Variable wb_command : string → string → Z * option string.
Variable read_table : list string → string → result DataFrame.
Variable package_root : string.

Definition dlabel : string :=
  path_join (path_join package_root "data")
    ("Q1-Q6_RelatedValidation210.CorticalAreas_dil_Final_Final_" +:+
     "Areas_Group_Colors.32k_fs_LR.dlabel.nii").

Definition darrays_of (img : nib_image) : result (list darray) :=
  match img with
  | GiftiImage ds => Ok ds
  | Cifti2Image _ =>
      Raise (AttributeError "'Cifti2Image' object has no attribute 'darrays'")
  | NiftiImage cls _ _ =>
      Raise (AttributeError ("'" +:+ cls +:+ "' object has no attribute 'darrays'"))
  end.

(** The shape of what [load_gifti] returns. *)
Definition load_gifti (f : string) : result (list Z) :=
  img ← nib_load f;
  ds ← darrays_of img;
  d ← list_index "list" ds 0;
  Ok (da_shape d).

(** The shape of what [load_nifti] returns: [squeeze] drops the axes of
    length one. *)
Definition load_nifti (f : string) : result (list Z) :=
  img ← nib_load f;
  match img with
  | Cifti2Image sh | NiftiImage _ sh _ => Ok (filter (λ n, n ≠ 1) sh)
  | GiftiImage _ =>
      Raise (AttributeError "'GiftiImage' object has no attribute 'get_data'")
  end.

Definition load_data (f : string) : result (list Z) :=
  let ext := (splitext f).2 in
  if String.eqb ext ".gii" then load_gifti f
  else if String.eqb ext ".nii" then load_nifti f
  else Raise (TypeError ("Unrecognized file type: " +:+ f)).

(** *** parcel_to_vertex *)

Definition pscalar_error : exn :=
  TypeError ("Image file must be a parcellated scalar file " +:+
             "with extension .pscalar.nii").

(** The loop over [root.iter("Parcel")]: the dict and the next ordinal. *)
Definition plabel2idx_body (acc : gmap string Z * Z) (pn : option element * element)
  : result (gmap string Z * Z) :=
  plabel ← getitem (attrib pn.2) "Name";
  Ok (<[plabel := acc.2]> acc.1, acc.2 + 1).

Definition plabel2idx_of (root : element) : result (gmap string Z) :=
  acc ← for_each plabel2idx_body (iter "Parcel" root) (∅, 0);
  Ok acc.1.

(** [mapping[k][i] = g] *)
Definition setitem2 (k : string) (i : Z) (g : geometry)
    (mapping : gmap string (gmap Z geometry)) : result (gmap string (gmap Z geometry)) :=
  inner ← getitem mapping k;
  Ok (<[k := <[i := g]> inner]> mapping).

(** The loop over [root.iter('Vertices')] *)
Definition vertices_body (plabel2idx : gmap string Z)
    (mapping : gmap string (gmap Z geometry)) (pn : option element * element)
  : result (gmap string (gmap Z geometry)) :=
  parent ← parent_of pn;
  parcel ← getitem (attrib parent) "Name";
  parcel_index ← getitem plabel2idx parcel;
  structure ← getitem (attrib pn.2) "BrainStructure";
  pieces ← text_split (split_on " ") pn.2;
  v ← comprehension int pieces;
  if String.eqb structure "CIFTI_STRUCTURE_CORTEX_LEFT"
  then setitem2 "CortexLeft" parcel_index (VertexList v) mapping
  else if String.eqb structure "CIFTI_STRUCTURE_CORTEX_RIGHT"
  then setitem2 "CortexRight" parcel_index (VertexList v) mapping
  else Raise (ValueError ("Unrecognized structure in image metadata: " +:+ structure)).

(** The loop over [root.iter('VoxelIndicesIJK')] *)
Definition voxels_body (plabel2idx : gmap string Z)
    (mapping : gmap string (gmap Z geometry)) (pn : option element * element)
  : result (gmap string (gmap Z geometry)) :=
  parent ← parent_of pn;
  parcel ← getitem (attrib parent) "Name";
  parcel_index ← getitem plabel2idx parcel;
  pieces ← text_split split_ws pn.2;
  flat ← comprehension int pieces;
  voxels ← reshape_voxels flat;
  setitem2 "Subcortex" parcel_index voxels mapping.

Definition structures : list string := ["Subcortex"; "CortexLeft"; "CortexRight"].

(** The part of [parcel_to_vertex] that works on the parsed metadata. *)
Definition parcel_to_vertex_of (root : element) : result (gmap string (gmap Z geometry)) :=
  plabel2idx ← plabel2idx_of root;
  let mapping : gmap string (gmap Z geometry) :=
    foldl (λ m k, <[k := ∅]> m) ∅ structures in
  mapping ← for_each (vertices_body plabel2idx) (iter "Vertices" root) mapping;
  for_each (voxels_body plabel2idx) (iter "VoxelIndicesIJK" root) mapping.

Definition header_extensions (img : nib_image) : result (list (result element)) :=
  match img with
  | NiftiImage _ _ exts => Ok exts
  | Cifti2Image _ =>
      Raise (AttributeError "'Cifti2Header' object has no attribute 'extensions'")
  | GiftiImage _ =>
      Raise (AttributeError "'FileBasedHeader' object has no attribute 'extensions'")
  end.

(** The check of the file extension. *)
Definition check_pscalar (image : string) : result () :=
  let '(f, ext1) := splitext image in
  let '(_, ext2) := splitext f in
  if negb (String.eqb ext1 ".nii") || negb (String.eqb ext2 ".pscalar")
  then Raise pscalar_error
  else Ok ().

Definition parcel_to_vertex (image : string) : result (gmap string (gmap Z geometry)) :=
  _ ← check_pscalar image;
  img ← nib_load image;
  ext ← header_extensions img;
  parsed ← list_index "list" ext 0;
  root ← parsed;
  parcel_to_vertex_of root.

(** *** get_hemisphere *)

Definition hemisphere_error (surface : string) : exn :=
  ValueError (nl +:+ "Unidentified structure in surface file metadata." +:+ nl +:+
              "Surface file: " +:+ surface).

Definition get_hemisphere (surface : string) : result string :=
  img ← nib_load surface;
  ds ← darrays_of img;
  d ← list_index "list" ds 0;
  root ← da_meta d;
  md ← list_index "child" (children root) 0;
  value ← list_index "child" (children md) 1;
  let structure := text value in
  try_except
    (match structure with
     | Some st =>
         if String.eqb st "CortexRight" || String.eqb st "CortexLeft"
         then Ok st
         else Raise (hemisphere_error surface)
     | None => Raise (hemisphere_error surface)
     end)
    (λ e, match e with
          | IndexError _ =>
              Some (Raise (TypeError "Surface file metadata has unexpected structure."))
          | _ => None
          end).

(** *** export_cifti_mapping *)

(** [tempfile.mkdtemp()]: a new, empty directory under a path not in use. *)
Definition mkdtemp : io string := λ s,
  let d := fresh (dom s) in (Ok d, <[d := ∅]> s).

Definition write_file (d name content : string) (s : fs) : fs :=
  match s !! d with
  | Some files => <[d := <[name := content]> files]> s
  | None => s
  end.

(** [subprocess.run] of the command for structure [st]: the tool writes its
    output file, when it writes one, and the exit status comes back. *)
Definition run_wb (image st d name : string) : io Z := λ s,
  let '(returncode, out) := wb_command image st in
  (Ok returncode,
   match out with
   | Some content => write_file d name content s
   | None => s
   end).

Definition read_file (d name : string) : io string := λ s,
  match s !! d ≫= (.!! name) with
  | Some content => (Ok content, s)
  | None => (Raise (FileNotFoundError (path_join d name)), s)
  end.

(** [path.getsize] *)
Definition getsize (d name : string) : io nat :=
  content ← read_file d name; mret (String.length content).

Definition dense_error : exn := TypeError "Image file must be a dense NIFTI file ".

Definition empty_file_error (image cmd : string) : exn :=
  RuntimeError (nl +:+ "File created by Connectome Workbench is empty." +:+ nl +:+
                "Input file: " +:+ image +:+ nl +:+
                "Output file: " +:+ image +:+ nl +:+
                "Attempted command: " +:+ cmd).

Definition no_files_error (image : string) : exn :=
  RuntimeError (nl +:+ "No files were created by Connectome Workbench." +:+ nl +:+
                "Image file: " +:+ image +:+ nl).

(** The dict [structures], in insertion order. *)
Definition structure_cmds : list (string * string) :=
  [("Subcortex", " -volume-all '{}' -structure ");
   ("CortexLeft", "-surface CORTEX_LEFT '{}' ");
   ("CortexRight", "-surface CORTEX_RIGHT '{}' ")].

(** The column names of the table of a structure. *)
Definition columns (st : string) : list string :=
  if str_contains "Cortex" st then ["vertex"] else ["structure"; "x"; "y"; "z"].

(** The body of the loop over [structures.items()]; [acc] is [data] and
    [structs_present]. *)
Definition export_body (image tmpdir : string)
    (acc : gmap string DataFrame * list string) (sc : string * string)
  : io (gmap string DataFrame * list string) :=
  let '(st, cmd) := sc in
  let name := st +:+ ".txt" in
  returncode ← run_wb image st tmpdir name;
  if decide (returncode ≠ 0) then mret acc
  else
    sz ← getsize tmpdir name;
    if decide (sz = 0%nat) then raise (empty_file_error image cmd)
    else
      let cols := columns st in
      content ← read_file tmpdir name;
      df ← lift (read_table cols content);
      mret (<[st := df]> acc.1, (acc.2 ++ [st])%list).

(** The check of the file extension: [ext2[1]] is looked at only when
    [ext1] is [".nii"]. *)
Definition check_dense (image : string) : result () :=
  let '(f, ext1) := splitext image in
  let '(_, ext2) := splitext f in
  if negb (String.eqb ext1 ".nii") then Raise dense_error
  else
    c ← str_index ext2 1;
    if negb (Ascii.eqb c "d") then Raise dense_error else Ok ().

Definition export_cifti_mapping (image : string) : io (gmap string DataFrame) :=
  _ ← lift (check_dense image);
  tmpdir ← mkdtemp;
  acc ← for_each_io (export_body image tmpdir) structure_cmds (∅, []);
  if decide (length acc.2 = 0%nat) then raise (no_files_error image)
  else mret acc.1.

(** *** mask_medial_wall *)

Definition dscalar_error : exn :=
  TypeError ("Image file must be a dense scalar file " +:+
             "with extension .dscalar.nii").

(** [mapping.values.squeeze()] used as an index array: it has an integer
    dtype when the table has cells and all are integers. *)
Definition index_array (df : DataFrame) : result (list Z) :=
  let bad := IndexError "arrays used as indices must be of integer (or boolean) type" in
  match concat (df_values df) with
  | [] => Raise bad
  | cells =>
      comprehension (λ c, match c with CInt z => Ok z | CStr _ => Raise bad end) cells
  end.

(** The position an index denotes in an array of length [n]: negative
    indices count from the end. *)
Definition position (n : Z) (i : Z) : result nat :=
  if ((0 <=? i) && (i <? n))%Z then Ok (Z.to_nat i)
  else if ((- n <=? i) && (i <? 0))%Z then Ok (Z.to_nat (i + n))
  else Raise (IndexError "index is out of bounds for axis 0").

(** [mask[idx] = False] *)
Definition assign_false (mask : list bool) (idx : list Z) : result (list bool) :=
  ps ← comprehension (position (Z.of_nat (length mask))) idx;
  Ok (foldl (λ m p, <[p := false]> m) mask ps).

Definition standard_mesh : Z := 32492.

(** The check of the file extension. *)
Definition check_dscalar (image : string) : result () :=
  let '(f, ext1) := splitext image in
  let '(_, ext2) := splitext f in
  if negb (String.eqb ext1 ".nii") || negb (String.eqb ext2 ".dscalar")
  then Raise dscalar_error
  else Ok ().

Definition mask_medial_wall (surface image : string) : io (list bool) :=
  _ ← lift (check_dscalar image);
  sh ← lift (load_data surface);
  nv ← lift (list_index "tuple" sh 0);
  if decide (nv ≠ standard_mesh)
  then raise (ValueError "Surface must be a standard 32k mesh.")
  else
    surface_structure ← lift (get_hemisphere surface);
    image_mapping ← export_cifti_mapping image;
    let image_structure := elements (dom image_mapping) in
    mappings ← export_cifti_mapping dlabel;
    mapping ← lift (getitem mappings surface_structure);
    idx ← lift (index_array mapping);
    lift (assign_false (replicate (Z.to_nat nv) true) idx).

End World.

(** *** Notions the properties are stated with *)

(** The names of the [Parcel] nodes, in document order. *)
Definition parcel_names (root : element) : result (list string) :=
  comprehension (λ pn, getitem (attrib pn.2) "Name") (iter "Parcel" root).

(** One turn of the loop over the parcels, on the name read from the node. *)
Definition assign (acc : gmap string Z * Z) (n : string) : gmap string Z * Z :=
  (<[n := acc.2]> acc.1, acc.2 + 1).

(** The reading of a text as integers separated by whitespace. *)
Definition whitespace_integers (t : string) : result (list Z) :=
  comprehension int (split_ws t).

(** The key of the structure that a [BrainStructure] attribute names. *)
Definition structure_key (structure : string) : option string :=
  if String.eqb structure "CIFTI_STRUCTURE_CORTEX_LEFT" then Some "CortexLeft"
  else if String.eqb structure "CIFTI_STRUCTURE_CORTEX_RIGHT" then Some "CortexRight"
  else None.

(** What a [Vertices] node enters: under the key of its structure and the
    ordinal that the name of its parent has, the integers of its text. *)
Definition entered (plabel2idx : gmap string Z) (pn : option element * element)
    (e : string * Z * list Z) : Prop :=
  ∃ parent name structure t,
    pn.1 = Some parent ∧
    attrib parent !! "Name" = Some name ∧
    plabel2idx !! name = Some e.1.2 ∧
    attrib pn.2 !! "BrainStructure" = Some structure ∧
    structure_key structure = Some e.1.1 ∧
    text pn.2 = Some t ∧
    whitespace_integers t = Ok e.2.

(** The association of one structure after one more entry. *)
Definition enter (key : string) (inner : gmap Z geometry) (e : string * Z * list Z)
  : gmap Z geometry :=
  if decide (e.1.1 = key) then <[e.1.2 := VertexList e.2]> inner else inner.

(** The mask that [mask_medial_wall] builds from the number of vertices
    and the hemisphere of the surface and the tables of the reference
    atlas: the end of its body. *)
Definition mask_from (nv : Z) (hemisphere : string) (mappings : gmap string DataFrame)
  : result (list bool) :=
  mapping ← getitem mappings hemisphere;
  idx ← index_array mapping;
  assign_false (replicate (Z.to_nat nv) true) idx.

(** The number of entries of a mask that are [b]. *)
Fixpoint count (b : bool) (mask : list bool) : nat :=
  match mask with
  | [] => 0
  | x :: mask' => (if Bool.eqb x b then 1 else 0) + count b mask'
  end.

(** The mask after [mask[p] = False] for each position of [ps]. *)
Definition marks (mask : list bool) (ps : list nat) : list bool :=
  foldl (λ m p, <[p := false]> m) mask ps.

(** A structure on which the turn of the exporter's loop raises nothing:
    the tool exits with a nonzero status, or it exits with status zero and
    writes a table that is not empty and that [read_table] reads. *)
Definition goes_through (wb_command : string → string → Z * option string)
    (read_table : list string → string → result DataFrame)
    (image : string) (sc : string * string) : Prop :=
  (wb_command image sc.1).1 ≠ 0 ∨
  ∃ content df,
    wb_command image sc.1 = (0, Some content) ∧ content ≠ "" ∧
    read_table (columns sc.1) content = Ok df.

(** What the tool leaves in a directory when it runs for a structure. *)
Definition tool_writes (wb_command : string → string → Z * option string)
    (image : string) (files : gmap string string) (sc : string * string)
  : gmap string string :=
  match (wb_command image sc.1).2 with
  | Some content => <[sc.1 +:+ ".txt" := content]> files
  | None => files
  end.

End io.

(** ** Worked inputs *)

Module examples.
Import pystr io.

(** The metadata of a parcellated image with one parcel "A" and its three
    vertices on the left cortex. *)
Definition vertices_A : element :=
  Element "Vertices" {["BrainStructure" := "CIFTI_STRUCTURE_CORTEX_LEFT"]}
    (Some "3 7 9") [].

Definition one_parcel : element :=
  Element "CIFTI" ∅ None
    [Element "Matrix" ∅ None
       [Element "MatrixIndicesMap" ∅ None
          [Element "Parcel" {["Name" := "A"]} None [vertices_A]]]].

(** Two parcels under one name; the first has the vertices. *)
Definition same_name_twice : element :=
  Element "CIFTI" ∅ None
    [Element "Matrix" ∅ None
       [Element "MatrixIndicesMap" ∅ None
          [Element "Parcel" {["Name" := "A"]} None [vertices_A];
           Element "Parcel" {["Name" := "A"]} None []]]].

(** The metadata of the first data array of a left surface, and metadata
    without any entry. *)
Definition left_meta : element :=
  Element "MetaData" ∅ None
    [Element "MD" ∅ None
       [Element "Name" ∅ (Some "AnatomicalStructurePrimary") [];
        Element "Value" ∅ (Some "CortexLeft") []]].

Definition bare_meta : element := Element "MetaData" ∅ None [].

Definition surface_with (meta : element) : nib_image :=
  GiftiImage [ {| da_shape := [32492; 3]; da_meta := Ok meta |} ].

Definition parcellated_with (root : element) : nib_image :=
  NiftiImage "Nifti2Image" [1; 1] [Ok root].

(** The files there are. *)
Definition nib_load (f : string) : result nib_image :=
  if String.eqb f "L.surf.gii" then Ok (surface_with left_meta)
  else if String.eqb f "bare.surf.gii" then Ok (surface_with bare_meta)
  else if String.eqb f "foo.pscalar.nii" then Ok (parcellated_with one_parcel)
  else if String.eqb f "foo.ptseries.nii" then Ok (parcellated_with one_parcel)
  else if String.eqb f "twice.pscalar.nii" then Ok (parcellated_with same_name_twice)
  else Raise (FileNotFoundError f).

(** The tool finds the left cortex in every image, with vertices 0, 1 and
    2 at the first three indices, and no other structure. *)
Definition left_table : string := "0 0" +:+ nl +:+ "1 1" +:+ nl +:+ "2 2" +:+ nl.

Definition wb_command (image st : string) : Z * option string :=
  if String.eqb st "CortexLeft" then (0, Some left_table) else (1, None).

(** A tool that finds nothing, and one that claims the left cortex and
    writes an empty file. *)
Definition wb_nothing (image st : string) : Z * option string := (1, None).

Definition wb_empty_left (image st : string) : Z * option string :=
  if String.eqb st "CortexLeft" then (0, Some "") else (1, None).

(** A reader of tables of integers, one row a line, the first column the
    row label: what [pandas.read_table] makes of the files above. *)
Definition read_row (line : string) : result (Z * list cell) :=
  match split_on " " line with
  | label :: cells =>
      i ← int label;
      Ok (i, map (λ c, match int c with Ok z => CInt z | Raise _ => CStr c end) cells)
  | [] => Raise (ValueError "empty row")
  end.

Definition read_table (cols : list string) (content : string) : result DataFrame :=
  rows ← comprehension read_row
            (filter (λ l, l ≠ "") (split_on (ascii_of_nat 10) content));
  Ok {| df_index := rows.*1; df_columns := cols; df_values := rows.*2 |}.

Definition package_root : string := "/site-packages/brainsmash".

(** A tool that finds the right cortex in the image "b.dscalar.nii" and
    the left cortex in every other image. *)
Definition right_table : string := "0 5" +:+ nl +:+ "1 6" +:+ nl.

Definition wb_by_image (image st : string) : Z * option string :=
  if String.eqb image "b.dscalar.nii"
  then (if String.eqb st "CortexRight" then (0, Some right_table) else (1, None))
  else wb_command image st.

(** The mask of a left surface under an atlas with the table above: all
    [true] but at the vertices 0, 1 and 2. *)
Definition left_mask : list bool :=
  marks (replicate (Z.to_nat standard_mesh) true) [0; 1; 2]%nat.

End examples.

(** ** Notions for the further properties *)

Module more.
Import pystr io.

(** The maximum of one row, as [d.max(axis=-1)] takes it. *)
Definition row_max (row : list float) : float :=
  foldl kernels.np_max2 (hd 0%float row) (tl row).

(** What numpy raises for the maximum along an empty axis. *)
Definition no_identity : exn :=
  ValueError "zero-size array to reduction operation maximum which has no identity".

(** The table the exporter enters for a structure: the one [read_table]
    reads from what the tool wrote, when the tool exits with status zero. *)
Definition table_of (wb_command : string → string → Z * option string)
    (read_table : list string → string → result DataFrame)
    (image st : string) : option DataFrame :=
  match wb_command image st with
  | (0, Some content) =>
      match read_table (columns st) content with
      | Ok df => Some df
      | Raise _ => None
      end
  | _ => None
  end.

(** A tool that claims the left cortex and writes no file. *)
Definition wb_no_file (image st : string) : Z * option string :=
  if String.eqb st "CortexLeft" then (0, None) else (1, None).

(** A tool that finds the right cortex in every image, and no other
    structure. *)
Definition wb_right_only (image st : string) : Z * option string :=
  if String.eqb st "CortexRight" then (0, Some examples.right_table) else (1, None).

(** The table of the left cortex with its rows in another order, one
    vertex named twice. *)
Definition shuffled_table : string :=
  "0 2" +:+ nl +:+ "1 0" +:+ nl +:+ "2 1" +:+ nl +:+ "3 2" +:+ nl.

Definition wb_shuffled (image st : string) : Z * option string :=
  if String.eqb st "CortexLeft" then (0, Some shuffled_table) else (1, None).

(** The entries of an (n, 3) array, row after row. *)
Definition flatten3 {A} (v : list (A * A * A)) : list A :=
  concat (map (λ '(x, y, z), [x; y; z]) v).

(** What a [VoxelIndicesIJK] node enters under "Subcortex": under the
    ordinal that the name of its parent has, the array that numpy makes of
    the integers of its text, by threes. *)
Definition entered_voxels (plabel2idx : gmap string Z) (pn : option element * element)
    (e : Z * geometry) : Prop :=
  ∃ parent name t flat,
    pn.1 = Some parent ∧
    attrib parent !! "Name" = Some name ∧
    plabel2idx !! name = Some e.1 ∧
    text pn.2 = Some t ∧
    whitespace_integers t = Ok flat ∧
    reshape_voxels flat = Ok e.2.

Definition enter_voxels (inner : gmap Z geometry) (e : Z * geometry)
  : gmap Z geometry :=
  <[e.1 := e.2]> inner.

(** An array of voxels that holds the integers [flat], as they are or
    each rounded to a float. *)
Definition holds (g : geometry) (flat : list Z) : Prop :=
  match g with
  | VoxelArray v => flatten3 v = flat
  | VoxelFloats v => flatten3 v = map float_of_Z flat
  | VertexList _ => False
  end.





(** The metadata of a parcellated image with one parcel "T" of two voxels,
    its text broken over two lines. *)
Definition voxels_T : element :=
  Element "VoxelIndicesIJK" ∅ (Some ("1 2 3" +:+ nl +:+ "4 5 6" +:+ nl)) [].

Definition one_voxel_parcel : element :=
  Element "CIFTI" ∅ None
    [Element "Matrix" ∅ None
       [Element "MatrixIndicesMap" ∅ None
          [Element "Parcel" {["Name" := "T"]} None [voxels_T]]]].

Definition nib_load_voxels (f : string) : result nib_image :=
  if String.eqb f "sub.pscalar.nii" then Ok (examples.parcellated_with one_voxel_parcel)
  else examples.nib_load f.

(** The kinds of error of the walker on parsed metadata. *)
Definition walker_error (e : exn) : Prop :=
  (∃ k, e = KeyError k) ∨ (∃ msg, e = ValueError msg) ∨
  e = AttributeError "'NoneType' object has no attribute 'split'".

(** Metadata with a parcel that has no name. *)
Definition nameless_parcel : element :=
  Element "CIFTI" ∅ None
    [Element "Matrix" ∅ None
       [Element "MatrixIndicesMap" ∅ None [Element "Parcel" ∅ None []]]].

End more.

Import pystr io.

(** * Smoothing kernels *)

Section KernelFacts.
Import kernels.
Variable np_exp : float → float.

Lemma max_last_axis_non_array d :
  is_ndarray d = false → max_last_axis d = Raise (no_attribute d "max").
Proof. by destruct d. Qed.

Lemma shape_non_array d :
  is_ndarray d = false → shape d = Raise (no_attribute d "shape").
Proof. by destruct d. Qed.

Lemma gaussian_non_array d :
  is_ndarray d = false → gaussian np_exp d = Raise (expected_array_like d).
Proof.
  intros Hd. unfold gaussian. by rewrite (max_last_axis_non_array d Hd).
Qed.

(** In [exp] the negation [-d] comes first: what has no negation raises
    the [TypeError] of the operator, a number that of the function. *)
Lemma exp_non_array d :
  is_ndarray d = false → ∃ msg, exp np_exp d = Raise (TypeError msg).
Proof.
  intros Hd. unfold exp. destruct d; try done; simpl; eauto.
Qed.

Lemma uniform_non_array d :
  is_ndarray d = false → uniform d = Raise (expected_array_like d).
Proof.
  intros Hd. unfold uniform. by rewrite (shape_non_array d Hd).
Qed.

(** On a numpy value the division is elementwise and nothing is raised. *)
Lemma invdist_array d :
  is_ndarray d = true → invdist d = Ok (nd_map (λ x, 1 / x)%float d).
Proof. by destruct d. Qed.

(** The only way [invdist] raises [TypeError] goes through the operator
    [/] itself; its own [except AttributeError] clause never runs. *)
Lemma invdist_no_attribute_error d e :
  float_truediv d = Raise e → ∀ msg, e ≠ AttributeError msg.
Proof.
  destruct d as [|z|f|s|l|x|a|n rows]; simpl; intros He msg; try congruence.
  - unfold float_of_int in He.
    destruct (PrimFloat.is_infinity _); simpl in He; [congruence|].
    destruct (PrimFloat.eqb _ _); congruence.
  - destruct (PrimFloat.eqb _ _); congruence.
Qed.

End KernelFacts.

(** C8. Applied to an input without array semantics, [gaussian], [exp] and
    [uniform] raise [TypeError] ([gaussian] and [uniform] always the one that
    says "expected array_like"); [invdist] does not: on the Python scalar
    [2.0] it returns [0.5]. *)
Theorem kernels_non_array_input (np_exp : float → float) (d : kernels.pyval) :
  kernels.is_ndarray d = false →
  kernels.gaussian np_exp d = Raise (kernels.expected_array_like d) ∧
  (∃ msg, kernels.exp np_exp d = Raise (TypeError msg)) ∧
  kernels.uniform d = Raise (kernels.expected_array_like d) ∧
  kernels.exp np_exp (kernels.PyFloat 2)
  = Raise (TypeError "expected array_like, got <class 'float'>") ∧
  kernels.invdist (kernels.PyFloat 2) = Ok (kernels.PyFloat 0.5).
Proof.
  intros Hd. split; [|split; [|split; [|split]]].
  - by apply gaussian_non_array.
  - by apply exp_non_array.
  - by apply uniform_non_array.
  - reflexivity.
  - reflexivity.
Qed.

Lemma kernels_non_array_input_witness :
  kernels.is_ndarray (kernels.PyFloat 2) = false ∧
  kernels.gaussian (λ x, x) (kernels.PyFloat 2)
    = Raise (TypeError "expected array_like, got <class 'float'>") ∧
  kernels.invdist (kernels.PyFloat 2) = Ok (kernels.PyFloat 0.5).
Proof.
  split; [reflexivity|].
  pose proof (kernels_non_array_input (λ x, x) (kernels.PyFloat 2) eq_refl)
    as (Hg & _ & _ & _ & Hi).
  split; [exact Hg | exact Hi].
Defined.

(** C4. On an array with a zero entry [invdist] raises nothing: the entry
    becomes an infinity.  [invdist(np.array([0., 2., 4.]))] is
    [[inf, 0.5, 0.25]], and [invdist(np.array([2., 4.]))] is [[0.5, 0.25]].
    Only Python's own division, on a scalar zero, raises
    [ZeroDivisionError]; on the Python list [[0, 2, 4]] the operator raises
    [TypeError]. *)
Theorem invdist_zero_entry_is_infinity :
  (∀ a : list float,
     kernels.invdist (kernels.NdArray1 a)
     = Ok (kernels.NdArray1 (map (λ x, 1 / x)%float a))) ∧
  kernels.invdist (kernels.NdArray1 [0; 2; 4]%float)
  = Ok (kernels.NdArray1 [infinity; 0.5; 0.25]%float) ∧
  kernels.invdist (kernels.NdArray1 [2; 4]%float)
  = Ok (kernels.NdArray1 [0.5; 0.25]%float) ∧
  kernels.invdist (kernels.PyFloat 0)
  = Raise (ZeroDivisionError "float division by zero") ∧
  kernels.invdist (kernels.PyList [kernels.PyInt 0; kernels.PyInt 2; kernels.PyInt 4])
  = Raise (TypeError "unsupported operand type(s) for /: 'float' and 'list'").
Proof. repeat split; reflexivity. Qed.

(** * Surface metadata *)

Section HemisphereFacts.
Variable nib_load : string → result nib_image.

Lemma get_hemisphere_values surface st :
  get_hemisphere nib_load surface = Ok st → st = "CortexLeft" ∨ st = "CortexRight".
Proof.
  unfold get_hemisphere.
  destruct (nib_load surface) as [img|]; simpl; [|done].
  destruct (darrays_of img) as [ds|]; simpl; [|done].
  destruct (list_index "list" ds 0) as [d|]; simpl; [|done].
  destruct (da_meta d) as [root|]; simpl; [|done].
  destruct (list_index "child" (children root) 0) as [md|]; simpl; [|done].
  destruct (list_index "child" (children md) 1) as [value|]; simpl; [|done].
  destruct (text value) as [s|]; simpl; [|done].
  destruct (String.eqb_spec s "CortexRight") as [->|]; simpl.
  { intros [= <-]. by right. }
  destruct (String.eqb_spec s "CortexLeft") as [->|]; simpl.
  { intros [= <-]. by left. }
  done.
Qed.

Lemma get_hemisphere_other_value surface d ds root md mds name value rest :
  nib_load surface = Ok (GiftiImage (d :: ds)) →
  da_meta d = Ok root →
  children root = md :: mds →
  children md = name :: value :: rest →
  text value ≠ Some "CortexLeft" →
  text value ≠ Some "CortexRight" →
  get_hemisphere nib_load surface = Raise (hemisphere_error surface).
Proof.
  intros Hl Hm Hr Hc Hl' Hr'. unfold get_hemisphere.
  rewrite Hl; simpl. rewrite Hm; simpl. rewrite Hr; simpl. rewrite Hc; simpl.
  destruct (text value) as [s|]; simpl; [|done].
  destruct (String.eqb_spec s "CortexRight") as [->|]; [done|].
  destruct (String.eqb_spec s "CortexLeft") as [->|]; done.
Qed.

Lemma get_hemisphere_field_absent surface d ds root :
  nib_load surface = Ok (GiftiImage (d :: ds)) →
  da_meta d = Ok root →
  (children root = [] ∨
   ∃ md mds, children root = md :: mds ∧ (length (children md) < 2)%nat) →
  get_hemisphere nib_load surface = Raise (IndexError "child index out of range").
Proof.
  intros Hl Hm Habs. unfold get_hemisphere.
  rewrite Hl; simpl. rewrite Hm; simpl.
  destruct Habs as [-> | (md & mds & -> & Hlen)]; simpl; [done|].
  destruct (children md) as [|x [|y l]]; simpl in *; [done|done|lia].
Qed.

End HemisphereFacts.

(** C9. What [get_hemisphere] returns is "CortexLeft" or "CortexRight", and
    any other value of the field raises the [ValueError] of the function;
    but when the field is absent (no entry in the metadata, or an entry
    with fewer than two children) the [IndexError] of the lookup
    [root[0][1]] goes through as it is: the lookup stands before the [try]
    whose handler would turn it into a [TypeError]. *)
Theorem get_hemisphere_outcomes (nib_load : string → result nib_image)
    (surface : string) (d : darray) (ds : list darray) (root : element) :
  nib_load surface = Ok (GiftiImage (d :: ds)) →
  da_meta d = Ok root →
  (∀ st, get_hemisphere nib_load surface = Ok st →
         st = "CortexLeft" ∨ st = "CortexRight") ∧
  (∀ md mds name value rest,
     children root = md :: mds →
     children md = name :: value :: rest →
     text value ≠ Some "CortexLeft" →
     text value ≠ Some "CortexRight" →
     get_hemisphere nib_load surface = Raise (hemisphere_error surface)) ∧
  (children root = [] ∨
   (∃ md mds, children root = md :: mds ∧ (length (children md) < 2)%nat) →
   get_hemisphere nib_load surface = Raise (IndexError "child index out of range")).
Proof.
  intros Hl Hm. split; [|split].
  - apply get_hemisphere_values.
  - intros. by eapply get_hemisphere_other_value.
  - intros. by eapply get_hemisphere_field_absent.
Qed.

Lemma get_hemisphere_outcomes_witness :
  get_hemisphere examples.nib_load "bare.surf.gii"
  = Raise (IndexError "child index out of range").
Proof.
  refine (proj2 (proj2 (get_hemisphere_outcomes examples.nib_load "bare.surf.gii"
    _ _ _ eq_refl eq_refl)) _).
  left. reflexivity.
Defined.

(** * File extensions *)

Section StringFacts.

Lemma append_empty_l s : "" +:+ s = s.
Proof. reflexivity. Qed.

Lemma append_String a s t : String a s +:+ t = String a (s +:+ t).
Proof. reflexivity. Qed.

Lemma rfind_lt c s i : rfind c s = Some i → (i < String.length s)%nat.
Proof.
  revert i. induction s as [|a s IH]; simpl; intros i; [done|].
  destruct (rfind c s) as [j|].
  - intros [= <-]. specialize (IH j eq_refl). lia.
  - destruct (Ascii.eqb a c); intros [= <-]. lia.
Qed.

Lemma rfind_app c s1 s2 :
  rfind c (s1 +:+ s2) =
  match rfind c s2 with
  | Some i => Some (String.length s1 + i)%nat
  | None => rfind c s1
  end.
Proof.
  induction s1 as [|a s1 IH].
  - rewrite append_empty_l. by destruct (rfind c s2).
  - rewrite append_String. simpl. rewrite IH. by destruct (rfind c s2).
Qed.

Lemma str_take_app s1 s2 : str_take (String.length s1) (s1 +:+ s2) = s1.
Proof.
  induction s1 as [|a s1 IH]; [by destruct s2|].
  rewrite append_String. simpl. by rewrite IH.
Qed.

Lemma str_drop_app s1 s2 : str_drop (String.length s1) (s1 +:+ s2) = s2.
Proof. induction s1 as [|a s1 IH]; [by destruct s2|done]. Qed.

Lemma str_drop_app_le n s1 s2 :
  (n ≤ String.length s1)%nat → str_drop n (s1 +:+ s2) = str_drop n s1 +:+ s2.
Proof.
  revert s1. induction n as [|n IH]; intros s1 Hn.
  - by destruct s1; destruct s2.
  - destruct s1 as [|a s1]; [simpl in Hn; lia|].
    rewrite append_String. simpl in *. apply IH. lia.
Qed.

Lemma length_str_drop n s : String.length (str_drop n s) = (String.length s - n)%nat.
Proof.
  revert s. induction n as [|n IH]; intros [|a s]; simpl; auto with lia.
Qed.

Lemma all_dots_app s1 s2 : all_dots (s1 +:+ s2) = all_dots s1 && all_dots s2.
Proof.
  induction s1 as [|a s1 IH]; [done|].
  rewrite append_String. simpl. rewrite IH. by destruct (Ascii.eqb a ".").
Qed.

Lemma append_empty_r s : s +:+ "" = s.
Proof. induction s as [|a s IH]; [done|]. rewrite append_String. by rewrite IH. Qed.

Lemma append_assoc_str s1 s2 s3 : (s1 +:+ s2) +:+ s3 = s1 +:+ s2 +:+ s3.
Proof.
  induction s1 as [|a s1 IH]; [done|].
  rewrite !append_String. by rewrite IH.
Qed.

End StringFacts.

Section SplitextFacts.

Lemma rfind_Z_bounds c s : -1 ≤ rfind_Z c s < Z.of_nat (String.length s).
Proof.
  unfold rfind_Z. destruct (rfind c s) as [i|] eqn:Hi; [|lia].
  apply rfind_lt in Hi. lia.
Qed.

Lemma rfind_dot_ext p e :
  rfind "." e = None → rfind_Z "." (p +:+ String "." e) = Z.of_nat (String.length p).
Proof.
  intros He. unfold rfind_Z. rewrite rfind_app. simpl. rewrite He. simpl.
  f_equal. lia.
Qed.

Lemma rfind_sep_ext p e :
  rfind "/" e = None → rfind_Z "/" (p +:+ String "." e) = rfind_Z "/" p.
Proof.
  intros He. unfold rfind_Z. rewrite rfind_app. simpl. by rewrite He.
Qed.

Lemma splitext_ext p e :
  has_stem p → rfind "." e = None → rfind "/" e = None →
  splitext (p +:+ String "." e) = (p, String "." e).
Proof.
  intros Hp Hdot Hsep. unfold splitext.
  rewrite (rfind_dot_ext _ _ Hdot), (rfind_sep_ext _ _ Hsep).
  pose proof (rfind_Z_bounds "/" p) as Hb.
  destruct (Z.ltb_spec (rfind_Z "/" p) (Z.of_nat (String.length p))) as [_|]; [|lia].
  rewrite Nat2Z.id.
  set (k := Z.to_nat (rfind_Z "/" p + 1)) in *.
  assert (k ≤ String.length p)%nat as Hk by lia.
  rewrite (str_drop_app_le _ _ _ Hk).
  replace (String.length p - k)%nat with (String.length (str_drop k p))
    by (rewrite length_str_drop; lia).
  rewrite str_take_app. unfold has_stem in Hp. fold k in Hp. rewrite Hp.
  by rewrite str_take_app, str_drop_app.
Qed.

Lemma has_stem_ext p e :
  has_stem p → rfind "/" e = None → has_stem (p +:+ String "." e).
Proof.
  unfold has_stem. intros Hp Hsep. rewrite (rfind_sep_ext _ _ Hsep).
  pose proof (rfind_Z_bounds "/" p) as Hb.
  rewrite str_drop_app_le by lia. rewrite all_dots_app, Hp. done.
Qed.


End SplitextFacts.

Section SuffixChecks.

(** The two extensions of [stem.e2.e1], as the checks take them off. *)
Lemma splitext_twice stem e2 e1 :
  has_stem stem →
  rfind "." e1 = None → rfind "/" e1 = None →
  rfind "." e2 = None → rfind "/" e2 = None →
  splitext (stem +:+ String "." e2 +:+ String "." e1)
    = (stem +:+ String "." e2, String "." e1) ∧
  splitext (stem +:+ String "." e2) = (stem, String "." e2).
Proof.
  intros Hs Hd1 Hs1 Hd2 Hs2. split.
  - rewrite <- append_assoc_str. apply splitext_ext; [|done|done].
    by apply has_stem_ext.
  - by apply splitext_ext.
Qed.

Lemma check_dense_dlabel stem :
  has_stem stem → check_dense (stem +:+ ".dlabel.nii") = Ok ().
Proof.
  intros Hs. unfold check_dense.
  destruct (splitext_twice stem "dlabel" "nii" Hs) as [H1 H2]; try reflexivity.
  change (stem +:+ ".dlabel.nii") with (stem +:+ String "." "dlabel" +:+ String "." "nii").
  rewrite H1, H2. reflexivity.
Qed.

Lemma check_pscalar_pscalar stem :
  has_stem stem → check_pscalar (stem +:+ ".pscalar.nii") = Ok ().
Proof.
  intros Hs. unfold check_pscalar.
  destruct (splitext_twice stem "pscalar" "nii" Hs) as [H1 H2]; try reflexivity.
  change (stem +:+ ".pscalar.nii") with (stem +:+ String "." "pscalar" +:+ String "." "nii").
  rewrite H1, H2. reflexivity.
Qed.

Lemma check_pscalar_ptseries stem :
  has_stem stem → check_pscalar (stem +:+ ".ptseries.nii") = Raise pscalar_error.
Proof.
  intros Hs. unfold check_pscalar.
  destruct (splitext_twice stem "ptseries" "nii" Hs) as [H1 H2]; try reflexivity.
  change (stem +:+ ".ptseries.nii") with (stem +:+ String "." "ptseries" +:+ String "." "nii").
  rewrite H1, H2. reflexivity.
Qed.

Lemma load_data_surf_gii nib_load stem :
  has_stem stem →
  load_data nib_load (stem +:+ ".surf.gii") = load_gifti nib_load (stem +:+ ".surf.gii").
Proof.
  intros Hs. unfold load_data.
  destruct (splitext_twice stem "surf" "gii" Hs) as [H1 H2]; try reflexivity.
  change (stem +:+ ".surf.gii") with (stem +:+ String "." "surf" +:+ String "." "gii") at 1.
  rewrite H1. reflexivity.
Qed.

End SuffixChecks.

(** C5 (as amended). The checks look at the suffix only.  On a path with a
    stem, [.dlabel.nii] passes the check of the dense path, [.pscalar.nii]
    passes the check of the parcellated path while [.ptseries.nii] fails it
    with [TypeError], and [.surf.gii] is loaded as a surface; ["foo.txt"]
    fails every check with [TypeError], before anything is loaded or run.
    (Without a stem the second extension is not one: on [".dlabel.nii"] the
    dense check finds no character to look at.) *)
Theorem suffix_checks (nib_load : string → result nib_image)
    (wb_command : string → string → Z * option string)
    (read_table : list string → string → result DataFrame)
    (stem : string) (s : fs) :
  has_stem stem →
  check_dense (stem +:+ ".dlabel.nii") = Ok () ∧
  check_pscalar (stem +:+ ".pscalar.nii") = Ok () ∧
  parcel_to_vertex nib_load (stem +:+ ".ptseries.nii") = Raise pscalar_error ∧
  load_data nib_load (stem +:+ ".surf.gii") = load_gifti nib_load (stem +:+ ".surf.gii") ∧
  export_cifti_mapping wb_command read_table "foo.txt" s = (Raise dense_error, s) ∧
  parcel_to_vertex nib_load "foo.txt" = Raise pscalar_error ∧
  check_dscalar "foo.txt" = Raise dscalar_error ∧
  load_data nib_load "foo.txt" = Raise (TypeError "Unrecognized file type: foo.txt") ∧
  check_dense ".dlabel.nii" = Raise (IndexError "string index out of range").
Proof.
  intros Hs. repeat split; try reflexivity.
  - by apply check_dense_dlabel.
  - by apply check_pscalar_pscalar.
  - unfold parcel_to_vertex. by rewrite check_pscalar_ptseries.
  - by apply load_data_surf_gii.
Qed.

Lemma suffix_checks_witness :
  has_stem "foo" ∧
  check_dense "foo.dlabel.nii" = Ok () ∧
  parcel_to_vertex examples.nib_load "foo.ptseries.nii" = Raise pscalar_error.
Proof.
  split; [reflexivity|].
  pose proof (suffix_checks examples.nib_load examples.wb_command examples.read_table
                "foo" ∅ eq_refl) as (Hd & _ & Hp & _).
  split; [exact Hd | exact Hp].
Defined.

(** The parcellated path turns down a [.ptseries.nii] file that holds a
    well-formed parcellated image. *)
Lemma ptseries_is_rejected :
  examples.nib_load "foo.ptseries.nii" = Ok (examples.parcellated_with examples.one_parcel) ∧
  parcel_to_vertex examples.nib_load "foo.ptseries.nii" = Raise pscalar_error.
Proof. split; reflexivity. Qed.

(** * Parcel ordinals *)

Section ParcelOrdinals.

Lemma plabel2idx_loop l acc :
  for_each plabel2idx_body l acc =
  (names ← comprehension (λ pn, getitem (attrib pn.2) "Name") l;
   Ok (foldl assign acc names)).
Proof.
  revert acc. induction l as [|pn l IH]; intros acc; simpl; [done|].
  unfold plabel2idx_body.
  destruct (getitem (attrib pn.2) "Name") as [n|e]; simpl; [|done].
  fold plabel2idx_body. rewrite IH. by destruct (comprehension _ l).
Qed.

Lemma foldl_assign_next names acc :
  (foldl assign acc names).2 = acc.2 + Z.of_nat (length names).
Proof.
  revert acc. induction names as [|n names IH]; intros acc; simpl; [lia|].
  rewrite IH. simpl. lia.
Qed.

(** After the loop a name holds the ordinal of its last occurrence. *)
Lemma foldl_assign_lookup names m k n i :
  (foldl assign (m, k) names).1 !! n = Some i ↔
  ((∃ j : nat, names !! j = Some n ∧ i = k + Z.of_nat j ∧
               ∀ j' : nat, (j < j')%nat → names !! j' ≠ Some n) ∨
   ((n ∉ names) ∧ m !! n = Some i)).
Proof.
  induction names as [|x names IH] using rev_ind.
  - simpl. split.
    + intros H. right. split; [apply not_elem_of_nil|done].
    + intros [(j & Hj & _)|[_ H]]; [by rewrite lookup_nil in Hj|done].
  - rewrite foldl_snoc. unfold assign at 1. simpl.
    rewrite foldl_assign_next. simpl.
    destruct (decide (x = n)) as [->|Hne].
    + rewrite lookup_insert_eq. split.
      * intros [= <-]. left. exists (length names). split; [|split; [done|]].
        { by rewrite lookup_app_r, Nat.sub_diag by lia. }
        intros j' Hj'. rewrite lookup_ge_None_2; [done|].
        rewrite length_app. simpl. lia.
      * intros [(j & Hj & -> & Hlast)|[Hnot _]].
        -- destruct (decide (j = length names)) as [->|Hjn]; [done|].
           exfalso. apply (Hlast (length names)).
           ++ apply lookup_lt_Some in Hj. rewrite length_app in Hj. simpl in Hj. lia.
           ++ by rewrite lookup_app_r, Nat.sub_diag by lia.
        -- exfalso. apply Hnot. apply elem_of_app. right. by apply list_elem_of_singleton.
    + rewrite lookup_insert_ne by done. rewrite IH. split.
      * intros [(j & Hj & -> & Hlast)|[Hnot Hm]].
        -- left. exists j. split; [by apply lookup_app_l_Some|split; [done|]].
           intros j' Hj' Hc. apply lookup_app_Some in Hc as [Hc|[_ Hc]].
           ++ by apply (Hlast j').
           ++ apply list_lookup_singleton_Some in Hc as [_ ?]. done.
        -- right. split; [|done]. rewrite elem_of_app, list_elem_of_singleton.
           intros [?|?]; [done|congruence].
      * intros [(j & Hj & -> & Hlast)|[Hnot Hm]].
        -- left. exists j. apply lookup_app_Some in Hj as [Hj|[_ Hj]].
           ++ split; [done|split; [done|]]. intros j' Hj' Hc.
              apply (Hlast j' Hj'). by apply lookup_app_l_Some.
           ++ apply list_lookup_singleton_Some in Hj as [_ ?]. done.
        -- right. split; [|done]. intros Hin. apply Hnot, elem_of_app. by left.
Qed.

End ParcelOrdinals.

(** C2 (as amended). When every [Parcel] node has a name, the walk over
    them raises nothing, whether or not a name repeats: a name ends at the
    ordinal of its last occurrence in document order.  When the names are
    pairwise distinct this is a bijection between the names and
    [0, ..., n_parcels - 1]: the parcel at position [j] has ordinal [j]. *)
Theorem parcel_ordinals (root : element) (names : list string) :
  parcel_names root = Ok names →
  ∃ plabel2idx : gmap string Z,
    plabel2idx_of root = Ok plabel2idx ∧
    (∀ n i, plabel2idx !! n = Some i ↔
       ∃ j : nat, i = Z.of_nat j ∧ names !! j = Some n ∧
                  ∀ j' : nat, (j < j')%nat → names !! j' ≠ Some n) ∧
    (NoDup names →
       ∀ n i, plabel2idx !! n = Some i ↔ ∃ j : nat, i = Z.of_nat j ∧ names !! j = Some n).
Proof.
  intros Hnames. unfold parcel_names in Hnames.
  exists (foldl assign (∅, 0) names).1.
  assert (∀ n i, (foldl assign (∅, 0) names).1 !! n = Some i ↔
       ∃ j : nat, i = Z.of_nat j ∧ names !! j = Some n ∧
                  ∀ j' : nat, (j < j')%nat → names !! j' ≠ Some n) as Hchar.
  { intros n i. rewrite foldl_assign_lookup. split.
    - intros [(j & Hj & -> & Hl)|[_ H]]; [|by rewrite lookup_empty in H].
      exists j. by rewrite Z.add_0_l.
    - intros (j & -> & Hj & Hl). left. exists j. by rewrite Z.add_0_l. }
  split; [|split; [exact Hchar|]].
  - unfold plabel2idx_of. rewrite plabel2idx_loop, Hnames. reflexivity.
  - intros Hnd n i. rewrite Hchar. split.
    + intros (j & -> & Hj & _). by exists j.
    + intros (j & -> & Hj). exists j. split; [done|split; [done|]].
      intros j' Hj' Hc. pose proof (NoDup_lookup _ _ _ _ Hnd Hj Hc). lia.
Qed.

Lemma parcel_ordinals_witness :
  ∃ plabel2idx : gmap string Z,
    plabel2idx_of examples.one_parcel = Ok plabel2idx ∧
    plabel2idx !! "A" = Some 0.
Proof.
  destruct (parcel_ordinals examples.one_parcel ["A"] eq_refl) as (m & Hm & Hchar & _).
  exists m. split; [exact Hm|].
  apply Hchar. exists 0%nat. split; [reflexivity|]. split; [reflexivity|].
  intros [|j']; [lia|done].
Defined.

(** A repeated name is no error: of two parcels named "A" the walk keeps
    the ordinal 1, nothing has ordinal 0, and the walker returns. *)
Lemma repeated_name_is_accepted :
  parcel_names examples.same_name_twice = Ok ["A"; "A"] ∧
  plabel2idx_of examples.same_name_twice = Ok {["A" := 1]} ∧
  parcel_to_vertex examples.nib_load "twice.pscalar.nii"
  = Ok (<["CortexLeft" := {[1 := VertexList [3; 7; 9]]}]>
          (<["CortexRight" := ∅]> {["Subcortex" := ∅]})).
Proof. repeat split; vm_compute; reflexivity. Qed.

(** * Texts of integers *)

Section IntegerTexts.

Lemma split_on_cons sep t : ∃ w ws, split_on sep t = w :: ws.
Proof.
  destruct t as [|a t]; simpl; [by eauto|].
  destruct (Ascii.eqb a sep); [by eauto|]. destruct (split_on sep t); eauto.
Qed.

Lemma join_cons sep p q ps : join sep (p :: q :: ps) = p +:+ String sep (join sep (q :: ps)).
Proof. reflexivity. Qed.

Lemma split_on_join sep t : join sep (split_on sep t) = t.
Proof.
  induction t as [|a t IH]; [done|]. simpl.
  destruct (split_on_cons sep t) as (w & ws & Hsp). rewrite Hsp in *.
  destruct (Ascii.eqb_spec a sep) as [->|Hne].
  - rewrite join_cons, append_empty_l. by rewrite IH.
  - destruct ws as [|w' ws].
    + simpl in *. by rewrite IH.
    + rewrite join_cons in *. rewrite append_String. by rewrite IH.
Qed.

Lemma split_ws_all_space l s : all_space l = true → split_ws (l +:+ s) = split_ws s.
Proof.
  induction l as [|a l IH]; [done|]. intros [Ha Hl]%andb_prop.
  rewrite append_String. simpl. rewrite Ha. by apply IH.
Qed.

Lemma split_ws_only_space l : all_space l = true → split_ws l = [].
Proof.
  intros Hl. rewrite <- (append_empty_r l). by rewrite split_ws_all_space.
Qed.

Lemma split_ws_token tok s :
  token tok → ends_token s → split_ws (tok +:+ s) = tok :: split_ws s.
Proof.
  intros [Hne Hns]. revert Hne Hns.
  induction tok as [|a tok IH]; [done|]. intros _ Hns Hs.
  simpl in Hns. apply andb_prop in Hns as [Ha Hns]. apply negb_true_iff in Ha.
  rewrite append_String. simpl. rewrite Ha.
  destruct tok as [|b tok].
  - rewrite append_empty_l. destruct s as [|c s]; [done|].
    simpl in Hs. by rewrite Hs.
  - rewrite append_String. simpl in Hns. apply andb_prop in Hns as [Hb Hns].
    apply negb_true_iff in Hb. rewrite Hb.
    rewrite <- append_String. rewrite IH; [done|done| |done].
    simpl. by rewrite Hb.
Qed.

(** Stripping: a text is whitespace, what [strip] keeps, whitespace. *)
Lemma lstrip_spec s : ∃ l, s = l +:+ lstrip s ∧ all_space l = true.
Proof.
  induction s as [|a s (l & Hl & Hsp)]; [by exists ""|]. simpl.
  destruct (is_space a) eqn:Ha.
  - exists (String a l). rewrite append_String. split; [by rewrite <- Hl|].
    simpl. by rewrite Ha.
  - by exists "".
Qed.

Lemma rstrip_spec s : ∃ r, s = rstrip s +:+ r ∧ all_space r = true.
Proof.
  induction s as [|a s (r & Hr & Hsp)]; [by exists ""|]. simpl.
  destruct (rstrip s) as [|b t] eqn:Hrs.
  - rewrite append_empty_l in Hr. subst r. destruct (is_space a) eqn:Ha.
    + exists (String a s). split; [done|]. simpl. by rewrite Ha.
    + exists s. by rewrite append_String.
  - exists r. rewrite append_String. by rewrite <- Hr.
Qed.

Lemma strip_spec s :
  ∃ l r, s = l +:+ strip s +:+ r ∧ all_space l = true ∧ all_space r = true.
Proof.
  destruct (rstrip_spec s) as (r & Hr & Hrs).
  destruct (lstrip_spec (rstrip s)) as (l & Hl & Hls).
  exists l, r. split; [|done]. unfold strip.
  rewrite <- append_assoc_str, <- Hl. done.
Qed.

Lemma no_space_rstrip s : no_space s = true → rstrip s = s.
Proof.
  induction s as [|a s IH]; [done|]. simpl. intros [Ha Hs]%andb_prop.
  apply negb_true_iff in Ha. rewrite (IH Hs), Ha. by destruct s.
Qed.

Lemma no_space_lstrip s : no_space s = true → lstrip s = s.
Proof.
  destruct s as [|a s]; [done|]. simpl. intros [Ha _]%andb_prop.
  apply negb_true_iff in Ha. by rewrite Ha.
Qed.

Lemma no_space_strip s : no_space s = true → strip s = s.
Proof. intros Hs. unfold strip. by rewrite (no_space_rstrip s Hs), no_space_lstrip. Qed.

(** Digits, underscores and signs are no whitespace. *)
Lemma digit_no_space a d : digit_value a = Some d → is_space a = false.
Proof.
  unfold digit_value, is_space. intros H.
  destruct ((48 <=? nat_of_ascii a)%nat && (nat_of_ascii a <=? 57)%nat) eqn:Hd; [|done].
  apply andb_prop in Hd as [H1 H2]. apply Nat.leb_le in H1, H2.
  apply orb_false_iff. split; apply andb_false_iff.
  - right. apply Nat.leb_gt. lia.
  - right. apply Nat.leb_gt. lia.
Qed.

Lemma digits_value_no_space acc b s z :
  digits_value acc b s = Some z → no_space s = true.
Proof.
  revert acc b. induction s as [|a s IH]; intros acc b; simpl; [done|].
  destruct (digit_value a) as [d|] eqn:Hd.
  - intros H. rewrite (digit_no_space _ _ Hd). simpl. by eapply IH.
  - destruct (Ascii.eqb_spec a "_") as [->|]; [|done]. simpl.
    destruct b; [|done]. intros H. by eapply IH.
Qed.

Lemma digits_value_nonempty acc s z : digits_value acc false s = Some z → s ≠ "".
Proof. by destruct s. Qed.

Lemma int_strip_token p z : int p = Ok z → token (strip p) ∧ int (strip p) = Ok z.
Proof.
  unfold int at 1. destruct (split_sign (strip p)) as [neg digits] eqn:Hsign.
  destruct (digits_value 0 false digits) as [z'|] eqn:Hdig; [|done].
  intros [= <-].
  pose proof (digits_value_no_space _ _ _ _ Hdig) as Hns.
  pose proof (digits_value_nonempty _ _ _ Hdig) as Hne.
  assert (token (strip p)) as Htok.
  { unfold split_sign in Hsign. destruct (strip p) as [|a t]; [by injection Hsign as _ <-|].
    split; [done|].
    destruct (Ascii.eqb_spec a "-") as [->|]; [by injection Hsign as _ <-|].
    destruct (Ascii.eqb_spec a "+") as [->|]; [by injection Hsign as _ <-|].
    by injection Hsign as _ <-. }
  split; [done|]. unfold int. rewrite (no_space_strip _ (proj2 Htok)).
  by rewrite Hsign, Hdig.
Qed.

(** The pieces between single spaces, when each is an integer, are the
    pieces between runs of whitespace. *)
Lemma split_ws_join pieces v :
  comprehension int pieces = Ok v →
  split_ws (join " " pieces) = map strip pieces.
Proof.
  revert v. induction pieces as [|p pieces IH]; intros v; [done|].
  simpl. intros H.
  destruct (int p) as [z|] eqn:Hp; [|done]. simpl in H.
  destruct (comprehension int pieces) as [zs|] eqn:Hps; [|done].
  specialize (IH zs eq_refl).
  apply int_strip_token in Hp as [Htok _].
  destruct (strip_spec p) as (l & r & Hlr & Hl & Hr).
  destruct pieces as [|q pieces].
  - rewrite Hlr at 1. rewrite (split_ws_all_space l _ Hl).
    rewrite split_ws_token; [|done|].
    + by rewrite (split_ws_only_space r Hr).
    + destruct r as [|c r]; [done|]. simpl in Hr. by apply andb_prop in Hr as [? _].
  - rewrite Hlr at 1. rewrite !append_assoc_str. rewrite (split_ws_all_space l _ Hl).
    rewrite split_ws_token; [|done|].
    + rewrite (split_ws_all_space r _ Hr). f_equal.
      change (split_ws (String " " (join " " (q :: pieces))))
        with (split_ws (join " " (q :: pieces))). exact IH.
    + destruct r as [|c r]; [done|]. simpl in Hr. by apply andb_prop in Hr as [? _].
Qed.

Lemma comprehension_int_strip pieces v :
  comprehension int pieces = Ok v → comprehension int (map strip pieces) = Ok v.
Proof.
  revert v. induction pieces as [|p pieces IH]; intros v; [done|].
  simpl. destruct (int p) as [z|] eqn:Hp; [|done]. simpl.
  destruct (comprehension int pieces) as [zs|] eqn:Hps; [|done]. simpl.
  intros [= <-]. apply int_strip_token in Hp as [_ ->]. simpl.
  by rewrite (IH zs eq_refl).
Qed.

Lemma int_pieces_whitespace t v :
  comprehension int (split_on " " t) = Ok v → whitespace_integers t = Ok v.
Proof.
  intros H. unfold whitespace_integers.
  rewrite <- (split_on_join " " t) at 1.
  rewrite (split_ws_join _ _ H). by apply comprehension_int_strip.
Qed.

End IntegerTexts.

(** * The walker *)

Section WalkerFacts.

Lemma bind_Ok_inv {A B} (r : result A) (k : A → result B) b :
  r ≫= k = Ok b → ∃ a, r = Ok a ∧ k a = Ok b.
Proof. destruct r as [a|e]; simpl; [eauto|done]. Qed.

Lemma getitem_Ok {V} (d : gmap string V) k v : getitem d k = Ok v → d !! k = Some v.
Proof. unfold getitem. destruct (d !! k); congruence. Qed.

Lemma dom_insert_present {V} (m : gmap string V) k v v' :
  m !! k = Some v → dom (<[k := v']> m) = dom m.
Proof.
  intros Hk. rewrite dom_insert_L. apply elem_of_dom_2 in Hk.
  apply subseteq_union_1_L. by apply singleton_subseteq_l.
Qed.

Lemma setitem2_Ok key k g (m m' : gmap string (gmap Z geometry)) :
  setitem2 key k g m = Ok m' →
  ∃ inner, m !! key = Some inner ∧ m' = <[key := <[k := g]> inner]> m.
Proof.
  unfold setitem2. intros H. apply bind_Ok_inv in H as (inner & Hi & [= <-]).
  apply getitem_Ok in Hi. eauto.
Qed.

Lemma vertices_body_Ok P m pn m' :
  vertices_body P m pn = Ok m' →
  ∃ e, entered P pn e ∧ setitem2 e.1.1 e.1.2 (VertexList e.2) m = Ok m'.
Proof.
  unfold vertices_body. intros H.
  apply bind_Ok_inv in H as (parent & Hp & H).
  apply bind_Ok_inv in H as (name & Hn & H).
  apply bind_Ok_inv in H as (k & Hk & H).
  apply bind_Ok_inv in H as (structure & Hs & H).
  apply bind_Ok_inv in H as (pieces & Ht & H).
  apply bind_Ok_inv in H as (v & Hv & H).
  unfold parent_of in Hp. destruct pn.1 as [p|] eqn:Hp1; [|done].
  injection Hp as ->.
  unfold text_split in Ht. destruct (text pn.2) as [t|] eqn:Htext; [|done].
  injection Ht as <-.
  apply getitem_Ok in Hn, Hk, Hs.
  destruct (String.eqb structure "CIFTI_STRUCTURE_CORTEX_LEFT") eqn:HL.
  - exists ("CortexLeft", k, v). split; [|done].
    exists parent, name, structure, t. repeat split; try done.
    + unfold structure_key. by rewrite HL.
    + by apply int_pieces_whitespace.
  - destruct (String.eqb structure "CIFTI_STRUCTURE_CORTEX_RIGHT") eqn:HR; [|done].
    exists ("CortexRight", k, v). split; [|done].
    exists parent, name, structure, t. repeat split; try done.
    + unfold structure_key. by rewrite HL, HR.
    + by apply int_pieces_whitespace.
Qed.

Lemma vertices_loop P l m0 m :
  for_each (vertices_body P) l m0 = Ok m →
  ∃ entries,
    Forall2 (entered P) l entries ∧
    dom m = dom m0 ∧
    ∀ key inner0, m0 !! key = Some inner0 →
                  m !! key = Some (foldl (enter key) inner0 entries).
Proof.
  revert m0. induction l as [|pn l IH]; intros m0; simpl.
  - intros [= <-]. exists []. split; [constructor|]. split; [done|]. by intros.
  - intros H. apply bind_Ok_inv in H as (m1 & H1 & H).
    apply vertices_body_Ok in H1 as (e & He & H1).
    apply setitem2_Ok in H1 as (inner & Hinner & ->).
    apply IH in H as (entries & Hall & Hdom & Hlook).
    exists (e :: entries). split; [by constructor|]. split.
    + rewrite Hdom. by eapply dom_insert_present.
    + intros key inner0 H0. simpl. apply Hlook. unfold enter.
      destruct (decide (e.1.1 = key)) as [<-|Hne].
      * rewrite lookup_insert_eq. congruence.
      * by rewrite lookup_insert_ne.
Qed.



Lemma foldl_enter_absent key entries inner :
  Forall (λ e : string * Z * list Z, e.1.1 ≠ key) entries →
  foldl (enter key) inner entries = inner.
Proof.
  induction 1 as [|e entries He _ IH]; simpl; [done|].
  unfold enter at 2. by rewrite decide_False.
Qed.

End WalkerFacts.

Section WalkerResult.
Variable nib_load : string → result nib_image.

(** The metadata that [parcel_to_vertex] worked on, when it returns. *)
Lemma parcel_to_vertex_Ok image m :
  parcel_to_vertex nib_load image = Ok m →
  ∃ cls sh exts root,
    check_pscalar image = Ok () ∧
    nib_load image = Ok (NiftiImage cls sh (Ok root :: exts)) ∧
    parcel_to_vertex_of root = Ok m.
Proof.
  unfold parcel_to_vertex. intros H.
  apply bind_Ok_inv in H as ([] & Hc & H).
  apply bind_Ok_inv in H as (img & Himg & H).
  apply bind_Ok_inv in H as (ext & Hext & H).
  apply bind_Ok_inv in H as (parsed & Hp & H).
  apply bind_Ok_inv in H as (root & Hroot & H).
  destruct img as [ds|sh|cls sh exts]; [done|done|]. injection Hext as <-.
  destruct exts as [|r exts]; [done|]. injection Hp as <-. subst r.
  by exists cls, sh, exts, root.
Qed.


End WalkerResult.

(** * The exporter *)

Section ExporterFacts.
Variable wb_command : string → string → Z * option string.
Variable read_table : list string → string → result DataFrame.

Abbreviation export_body := (export_body wb_command read_table).
Abbreviation export_cifti_mapping := (export_cifti_mapping wb_command read_table).

Lemma io_bind_eq {A B} (m : io A) (k : A → io B) s :
  (m ≫= k) s = match m s with
               | (Ok a, s') => k a s'
               | (Raise e, s') => (Raise e, s')
               end.
Proof. reflexivity. Qed.

Lemma io_lift_bind {A B} (r : result A) (k : A → io B) s :
  (lift r ≫= k) s = match r with Ok a => k a s | Raise e => (Raise e, s) end.
Proof. by destruct r. Qed.

Lemma dom_write_file d name content (s : fs) : dom (write_file d name content s) = dom s.
Proof.
  unfold write_file. destruct (s !! d) as [files|] eqn:Hd; [|done].
  rewrite dom_insert_L. apply elem_of_dom_2 in Hd.
  apply subseteq_union_1_L. by apply singleton_subseteq_l.
Qed.

Lemma lookup_write_file d name content (s : fs) files :
  s !! d = Some files →
  write_file d name content s !! d = Some (<[name := content]> files).
Proof. intros Hd. unfold write_file. rewrite Hd. apply lookup_insert_eq. Qed.

Lemma lookup_write_file_ne d d' name content (s : fs) :
  d ≠ d' → write_file d name content s !! d' = s !! d'.
Proof.
  intros Hne. unfold write_file. destruct (s !! d); [|done]. by rewrite lookup_insert_ne.
Qed.

(** One turn of the loop changes the scratch directory as the tool does,
    and nothing else. *)
Lemma export_body_writes image d acc st cmd (s : fs) :
  (export_body image d acc (st, cmd) s).2 =
  match (wb_command image st).2 with
  | Some content => write_file d (st +:+ ".txt") content s
  | None => s
  end.
Proof.
  unfold export_body. rewrite io_bind_eq. unfold run_wb.
  destruct (wb_command image st) as [rc out]. simpl.
  set (s1 := match out with Some c => write_file d (st +:+ ".txt") c s | None => s end).
  destruct (decide (rc ≠ 0)); [done|].
  rewrite io_bind_eq. unfold getsize. rewrite io_bind_eq. unfold read_file at 1.
  destruct (s1 !! d ≫= (.!! (st +:+ ".txt"))) as [content|]; [|done]. simpl.
  destruct (decide (String.length content = 0%nat)); [done|].
  rewrite io_bind_eq. unfold read_file.
  destruct (s1 !! d ≫= (.!! (st +:+ ".txt"))) as [content'|]; [|done].
  rewrite io_lift_bind. by destruct (read_table _ _).
Qed.

Lemma export_body_state image d acc sc (s : fs) files :
  s !! d = Some files →
  let s' := (export_body image d acc sc s).2 in
  s' !! d = Some (tool_writes wb_command image files sc) ∧
  dom s' = dom s ∧ ∀ d', d ≠ d' → s' !! d' = s !! d'.
Proof.
  intros Hd. destruct sc as [st cmd]. intros s'. subst s'.
  rewrite export_body_writes. unfold tool_writes. simpl. destruct (wb_command image st).2 as [c|]; [|done].
  split; [by apply lookup_write_file|].
  split; [apply dom_write_file|]. intros. by apply lookup_write_file_ne.
Qed.

(** A nonzero exit status: the turn goes on with [data] and
    [structs_present] as they were. *)
Lemma export_body_absent image d acc st cmd (s : fs) :
  (wb_command image st).1 ≠ 0 →
  (export_body image d acc (st, cmd) s).1 = Ok acc.
Proof.
  intros Hrc. unfold export_body. rewrite io_bind_eq. unfold run_wb.
  destruct (wb_command image st) as [rc out]. simpl in *.
  by rewrite decide_True.
Qed.

(** Exit status zero and an empty output file: the turn raises. *)
Lemma export_body_empty image d acc st cmd (s : fs) :
  wb_command image st = (0, Some "") → d ∈ dom s →
  (export_body image d acc (st, cmd) s).1 = Raise (empty_file_error image cmd).
Proof.
  intros Hwb [files Hd]%elem_of_dom. unfold export_body. rewrite io_bind_eq.
  unfold run_wb. rewrite Hwb. simpl.
  rewrite io_bind_eq. unfold getsize. rewrite io_bind_eq. unfold read_file.
  rewrite (lookup_write_file _ _ _ _ _ Hd). simpl. by rewrite lookup_insert_eq.
Qed.

(** A turn that goes on either skipped the structure, on a nonzero exit
    status, or entered its table, on a zero one. *)
Lemma export_body_Ok image d acc st cmd (s : fs) acc' :
  (export_body image d acc (st, cmd) s).1 = Ok acc' →
  ((wb_command image st).1 ≠ 0 ∧ acc' = acc) ∨
  ((wb_command image st).1 = 0 ∧
   ∃ df, acc' = (<[st := df]> acc.1, (acc.2 ++ [st])%list)).
Proof.
  unfold export_body. rewrite io_bind_eq. unfold run_wb.
  destruct (wb_command image st) as [rc out]. simpl.
  destruct (decide (rc ≠ 0)) as [Hrc|Hrc]; simpl.
  { intros [= <-]. by left. }
  assert (rc = 0) as -> by lia.
  rewrite io_bind_eq. unfold getsize. rewrite io_bind_eq. unfold read_file at 1.
  match goal with |- context [?x !! d ≫= _] => destruct (x !! d ≫= (.!! (st +:+ ".txt"))) end;
    [|done]. simpl.
  destruct (decide _); [done|].
  rewrite io_bind_eq. unfold read_file.
  match goal with |- context [?x !! d ≫= _] => destruct (x !! d ≫= (.!! (st +:+ ".txt"))) end;
    [|done].
  rewrite io_lift_bind. destruct (read_table _ _) as [df|]; [|done]. simpl.
  intros [= <-]. right. eauto.
Qed.

Lemma for_each_io_cons {A S} (body : S → A → io S) x l acc s :
  for_each_io body (x :: l) acc s =
  match body acc x s with
  | (Ok acc', s') => for_each_io body l acc' s'
  | (Raise e, s') => (Raise e, s')
  end.
Proof. reflexivity. Qed.

(** The loop changes the scratch directory only, by what the tool writes;
    when it goes through, the tool has run for every structure. *)
Lemma export_loop_state image d l acc (s : fs) files :
  s !! d = Some files →
  let rs := for_each_io (export_body image d) l acc s in
  dom rs.2 = dom s ∧ (∀ d', d ≠ d' → rs.2 !! d' = s !! d') ∧
  is_Some (rs.2 !! d) ∧
  (∀ acc', rs.1 = Ok acc' → rs.2 !! d = Some (foldl (tool_writes wb_command image) files l)).
Proof.
  revert acc s files. induction l as [|sc l IH]; intros acc s files Hd rs; subst rs.
  { simpl. split; [done|]. split; [done|]. split; [by eauto|]. by intros. }
  rewrite for_each_io_cons.
  destruct (export_body_state image d acc sc s files Hd) as (Hd1 & Hdom1 & Hother1).
  destruct (export_body image d acc sc s) as [[acc1|e] s1]; simpl in *.
  - destruct (IH acc1 s1 _ Hd1) as (Hdom & Hother & Hsome & Hok).
    split; [congruence|]. split; [|done].
    intros d' Hd'. rewrite Hother by done. by apply Hother1.
  - split; [done|]. split; [done|]. split; [by eauto|]. by intros.
Qed.

(** A structure on which the tool exits with a nonzero status gets no
    table. *)
Lemma export_loop_absent image d l acc (s : fs) acc' st :
  (for_each_io (export_body image d) l acc s).1 = Ok acc' →
  (wb_command image st).1 ≠ 0 →
  acc'.1 !! st = acc.1 !! st.
Proof.
  revert acc s. induction l as [|[st0 cmd0] l IH]; intros acc s.
  { simpl. by intros [= <-]. }
  rewrite for_each_io_cons. intros H Hrc.
  pose proof (export_body_Ok image d acc st0 cmd0 s) as Hbody.
  destruct (export_body image d acc (st0, cmd0) s) as [[acc1|e] s1]; [|done].
  rewrite (IH _ _ H Hrc).
  destruct (Hbody acc1 eq_refl) as [[_ ->]|[Hz (df & ->)]]; [done|].
  simpl. apply lookup_insert_ne. intros ->. done.
Qed.

(** With every structure absent the loop ends as it began. *)
Lemma export_loop_nothing image d l acc (s : fs) :
  Forall (λ sc : string * string, (wb_command image sc.1).1 ≠ 0) l →
  (for_each_io (export_body image d) l acc s).1 = Ok acc.
Proof.
  intros Hl. revert s. induction Hl as [|[st cmd] l Hsc _ IH]; intros s; [done|].
  rewrite for_each_io_cons.
  pose proof (export_body_absent image d acc st cmd s Hsc) as Hbody.
  destruct (export_body image d acc (st, cmd) s) as [[acc1|e] s1]; [|done].
  simpl in Hbody. injection Hbody as ->. apply IH.
Qed.

(** Exit status zero and a table that is read: the turn enters it. *)
Lemma export_body_present image d acc st cmd (s : fs) content df :
  wb_command image st = (0, Some content) → content ≠ "" →
  read_table (columns st) content = Ok df → d ∈ dom s →
  (export_body image d acc (st, cmd) s).1
  = Ok (<[st := df]> acc.1, (acc.2 ++ [st])%list).
Proof.
  intros Hwb Hne Hread [files Hd]%elem_of_dom. unfold io.export_body.
  rewrite io_bind_eq. unfold run_wb. rewrite Hwb. simpl.
  rewrite io_bind_eq. unfold getsize. rewrite io_bind_eq. unfold read_file at 1.
  rewrite (lookup_write_file _ _ _ _ _ Hd). simpl. rewrite lookup_insert_eq. simpl.
  destruct (decide (String.length content = 0%nat)) as [Hz|_].
  { by destruct content. }
  rewrite io_bind_eq. unfold read_file.
  rewrite (lookup_write_file _ _ _ _ _ Hd). simpl. rewrite lookup_insert_eq.
  rewrite io_lift_bind. by rewrite Hread.
Qed.

Lemma export_body_goes_through image d acc sc (s : fs) :
  goes_through wb_command read_table image sc → d ∈ dom s →
  ∃ acc', (export_body image d acc sc s).1 = Ok acc'.
Proof.
  destruct sc as [st cmd]. intros [Habs|(content & df & Hwb & Hne & Hread)] Hd.
  - exists acc. by apply export_body_absent.
  - eexists. by eapply export_body_present.
Qed.

(** The first structure on which the tool exits with status zero and
    leaves an empty file, the turns before it going through, ends the loop
    with the error of its turn. *)
Lemma export_loop_empty image d l1 st cmd l2 acc (s : fs) :
  d ∈ dom s →
  Forall (goes_through wb_command read_table image) l1 →
  wb_command image st = (0, Some "") →
  (for_each_io (export_body image d) (l1 ++ (st, cmd) :: l2) acc s).1
  = Raise (empty_file_error image cmd).
Proof.
  intros Hd Hl1 Hwb. revert acc s Hd.
  induction Hl1 as [|sc1 l1 Hsc _ IH]; intros acc s Hd.
  - simpl app. rewrite for_each_io_cons.
    pose proof (export_body_empty image d acc st cmd s Hwb Hd) as Hbody.
    by destruct (export_body image d acc (st, cmd) s) as [[acc1|e] s1]; simplify_eq/=.
  - simpl app. rewrite for_each_io_cons.
    destruct (export_body_goes_through image d acc sc1 s Hsc Hd) as [acc' Hbody].
    apply elem_of_dom in Hd as [files Hfiles].
    destruct (export_body_state image d acc sc1 s files Hfiles) as (_ & Hdom & _).
    destruct (export_body image d acc sc1 s) as [[acc1|e] s1]; [|done].
    simpl in *. apply IH. rewrite Hdom.
    by apply elem_of_dom_2 in Hfiles.
Qed.

(** Wherever it stands, such a structure keeps the loop from going
    through. *)
Lemma export_loop_empty_raises image d l acc (s : fs) st cmd :
  d ∈ dom s → (st, cmd) ∈ l → wb_command image st = (0, Some "") →
  ∃ e, (for_each_io (export_body image d) l acc s).1 = Raise e.
Proof.
  intros Hd Hin Hwb. revert acc s Hd.
  induction l as [|sc l IH]; intros acc s Hd; [by apply elem_of_nil in Hin|].
  rewrite for_each_io_cons.
  apply elem_of_dom in Hd as [files Hfiles].
  destruct (export_body_state image d acc sc s files Hfiles) as (_ & Hdom & _).
  apply elem_of_dom_2 in Hfiles.
  apply elem_of_cons in Hin as [<-|Hin].
  - pose proof (export_body_empty image d acc st cmd s Hwb Hfiles) as Hbody.
    destruct (export_body image d acc (st, cmd) s) as [[acc1|e] s1]; [done|].
    by eauto.
  - destruct (export_body image d acc sc s) as [[acc1|e] s1]; [|by eauto].
    simpl in *. apply IH; [done|]. by rewrite Hdom.
Qed.

(** The function after the check of the extension. *)
Lemma export_cifti_mapping_eq image (s : fs) :
  check_dense image = Ok () →
  export_cifti_mapping image s =
  let d := fresh (dom s) in
  match for_each_io (export_body image d) structure_cmds (∅, []) (<[d := ∅]> s) with
  | (Ok acc, s') =>
      if decide (length acc.2 = 0%nat) then (Raise (no_files_error image), s')
      else (Ok acc.1, s')
  | (Raise e, s') => (Raise e, s')
  end.
Proof.
  intros Hc. unfold export_cifti_mapping. rewrite io_lift_bind, Hc.
  rewrite io_bind_eq. unfold mkdtemp. rewrite io_bind_eq.
  destruct (for_each_io _ _ _ _) as [[acc|e] s']; [|done].
  by destruct (decide _).
Qed.

Lemma export_cifti_mapping_rejected image (s : fs) e :
  check_dense image = Raise e → export_cifti_mapping image s = (Raise e, s).
Proof.
  intros Hc. unfold export_cifti_mapping. by rewrite io_lift_bind, Hc.
Qed.

End ExporterFacts.

(** C6. For an image that passes the check of the extension: a structure
    on which the tool exits with a nonzero status raises nothing and gets
    no table; a structure on which it exits with status zero and leaves an
    empty file makes the call raise: the [RuntimeError] "File created by
    Connectome Workbench is empty" of its turn when the turns before it
    raised nothing, and in any case some error; when the tool exits with a
    nonzero status on all three, the call raises the [RuntimeError] "No
    files were created by Connectome Workbench", whose message names the
    image. *)
Theorem export_outcomes (wb_command : string → string → Z * option string)
    (read_table : list string → string → result DataFrame)
    (image : string) (s : fs) :
  check_dense image = Ok () →
  let r := (export_cifti_mapping wb_command read_table image s).1 in
  (∀ d acc st cmd s0,
     (wb_command image st).1 ≠ 0 →
     (export_body wb_command read_table image d acc (st, cmd) s0).1 = Ok acc) ∧
  (∀ st data, (wb_command image st).1 ≠ 0 → r = Ok data → data !! st = None) ∧
  (∀ l1 st cmd l2,
     structure_cmds = (l1 ++ (st, cmd) :: l2)%list →
     Forall (goes_through wb_command read_table image) l1 →
     wb_command image st = (0, Some "") →
     r = Raise (empty_file_error image cmd)) ∧
  (∀ st cmd, (st, cmd) ∈ structure_cmds → wb_command image st = (0, Some "") →
             ∃ e, r = Raise e) ∧
  (Forall (λ sc : string * string, (wb_command image sc.1).1 ≠ 0) structure_cmds →
   r = Raise (no_files_error image)) ∧
  (∃ before after, no_files_error image = RuntimeError (before +:+ image +:+ after)).
Proof.
  intros Hc r. subst r. rewrite (export_cifti_mapping_eq _ _ _ _ Hc). cbv zeta.
  set (d := fresh (dom s)).
  assert (d ∈ dom (<[d := ∅]> s)) as Hd by (rewrite dom_insert_L; set_solver).
  repeat split.
  - intros. by apply export_body_absent.
  - intros st data Hrc.
    pose proof (export_loop_absent wb_command read_table image d structure_cmds
                  (∅, []) (<[d := ∅]> s)) as Habs.
    destruct (for_each_io _ _ _ _) as [[acc|e] s']; [|done]. simpl in *.
    destruct (decide _); [done|]. simpl. intros [= <-].
    rewrite (Habs acc st eq_refl Hrc). apply lookup_empty.
  - intros l1 st cmd l2 -> Hl1 Hwb.
    pose proof (export_loop_empty wb_command read_table image d l1 st cmd l2
                  (∅, []) _ Hd Hl1 Hwb) as Hloop.
    destruct (for_each_io _ _ _ _) as [[acc|e] s']; [done|].
    simpl in *. congruence.
  - intros st cmd Hin Hwb.
    destruct (export_loop_empty_raises wb_command read_table image d structure_cmds
                (∅, []) _ st cmd Hd Hin Hwb) as [e He].
    destruct (for_each_io _ _ _ _) as [[acc|e'] s']; [done|]. by eauto.
  - intros Hall.
    pose proof (export_loop_nothing wb_command read_table image d structure_cmds
                  (∅, []) (<[d := ∅]> s) Hall) as Hloop.
    destruct (for_each_io _ _ _ _) as [[acc|e] s']; [|done].
    simpl in Hloop. by injection Hloop as ->.
  - exists (nl +:+ "No files were created by Connectome Workbench." +:+ nl +:+
            "Image file: "), nl.
    reflexivity.
Qed.

Lemma export_outcomes_witness :
  (export_cifti_mapping examples.wb_empty_left examples.read_table "img.dscalar.nii" ∅).1
  = Raise (empty_file_error "img.dscalar.nii" "-surface CORTEX_LEFT '{}' ").
Proof.
  refine (proj1 (proj2 (proj2 (export_outcomes examples.wb_empty_left examples.read_table
            "img.dscalar.nii" ∅ eq_refl)))
          [("Subcortex", " -volume-all '{}' -structure ")] "CortexLeft" _
          [("CortexRight", "-surface CORTEX_RIGHT '{}' ")] eq_refl _ eq_refl).
  constructor; [|constructor]. left. done.
Defined.

(** C3 (as amended). The exporter removes nothing.  When the check of the
    extension passes, the scratch directory it makes is new, and it is
    still there when the call returns or raises, beside the directories
    there were, which are as they were; when the call returns, every file
    the tool wrote is in it.  An image that fails the check has no scratch
    directory made for it. *)
Theorem scratch_directory_stays (wb_command : string → string → Z * option string)
    (read_table : list string → string → result DataFrame)
    (image : string) (s : fs) :
  check_dense image = Ok () →
  let rs := export_cifti_mapping wb_command read_table image s in
  let d := fresh (dom s) in
  (d ∉ dom s) ∧ d ∈ dom rs.2 ∧ dom rs.2 = {[d]} ∪ dom s ∧
  (∀ d', d' ∈ dom s → rs.2 !! d' = s !! d') ∧
  (∀ data st cmd content,
     rs.1 = Ok data → (st, cmd) ∈ structure_cmds →
     (wb_command image st).2 = Some content →
     (rs.2 !! d ≫= (.!! (st +:+ ".txt"))) = Some content) ∧
  (∀ image' e, check_dense image' = Raise e →
     export_cifti_mapping wb_command read_table image' s = (Raise e, s)).
Proof.
  intros Hc rs d. subst rs.
  cut ((d ∉ dom s) ∧
       d ∈ dom (export_cifti_mapping wb_command read_table image s).2 ∧
       dom (export_cifti_mapping wb_command read_table image s).2 = {[d]} ∪ dom s ∧
       (∀ d', d' ∈ dom s →
          (export_cifti_mapping wb_command read_table image s).2 !! d' = s !! d') ∧
       (∀ data st cmd content,
          (export_cifti_mapping wb_command read_table image s).1 = Ok data →
          (st, cmd) ∈ structure_cmds →
          (wb_command image st).2 = Some content →
          ((export_cifti_mapping wb_command read_table image s).2 !! d
             ≫= (.!! (st +:+ ".txt"))) = Some content)).
  { intros (H1 & H2 & H3 & H4 & H5). repeat (split; [done|]).
    intros image' e He. by apply export_cifti_mapping_rejected. }
  rewrite (export_cifti_mapping_eq _ _ _ _ Hc). cbv zeta. fold d.
  assert (d ∉ dom s) as Hfresh by apply is_fresh.
  assert ((<[d := ∅]> s : fs) !! d = Some ∅) as Hd by apply lookup_insert_eq.
  destruct (export_loop_state wb_command read_table image d structure_cmds (∅, [])
              _ _ Hd) as (Hdom & Hother & Hsome & Hok).
  destruct (for_each_io _ _ _ _) as [[acc|e] s'] eqn:Hloop; simpl in *.
  - assert (dom s' = {[d]} ∪ dom s) as Hdom' by (by rewrite Hdom, dom_insert_L).
    assert (∀ d', d' ∈ dom s → s' !! d' = s !! d') as Hother'.
    { intros d' Hd'. assert (d ≠ d') by (by intros ->).
      rewrite Hother by done. by apply lookup_insert_ne. }
    assert (d ∈ dom s') as Hin by (by apply elem_of_dom).
    specialize (Hok acc eq_refl).
    destruct (decide _); simpl; (split; [done|split; [done|split; [done|split; [done|]]]]);
      [done|].
    intros data st cmd content _ Hst Hwb. rewrite Hok.
    unfold structure_cmds in *. simpl. unfold tool_writes. simpl.
    rewrite !elem_of_cons in Hst. rewrite elem_of_nil in Hst.
    destruct Hst as [[= -> ->]|[[= -> ->]|[[= -> ->]|[]]]];
      rewrite ?Hwb;
      repeat (match goal with |- context [(wb_command ?i ?x).2] =>
                destruct (wb_command i x).2 end);
      by simplify_map_eq.
  - assert (dom s' = {[d]} ∪ dom s) as Hdom' by (by rewrite Hdom, dom_insert_L).
    assert (d ∈ dom s') as Hin by (by apply elem_of_dom).
    split; [done|split; [done|split; [done|split; [|done]]]].
    intros d' Hd'. assert (d ≠ d') by (by intros ->).
    rewrite Hother by done. by apply lookup_insert_ne.
Qed.

Lemma scratch_directory_stays_witness :
  let rs := export_cifti_mapping examples.wb_command examples.read_table
              "img.dscalar.nii" ∅ in
  fresh (dom (∅ : fs)) ∈ dom rs.2.
Proof.
  exact (proj1 (proj2 (scratch_directory_stays examples.wb_command
           examples.read_table "img.dscalar.nii" ∅ eq_refl))).
Defined.

(** After a call that returns, and after one that raises on an empty file,
    the scratch directory is there with the file the tool wrote. *)
Lemma scratch_directory_left_behind :
  export_cifti_mapping examples.wb_command examples.read_table "img.dscalar.nii" ∅
  = (Ok {["CortexLeft" := {| df_index := [0; 1; 2]; df_columns := ["vertex"];
                             df_values := [[CInt 0]; [CInt 1]; [CInt 2]] |}]},
     {["0" := {["CortexLeft.txt" := examples.left_table]}]}) ∧
  export_cifti_mapping examples.wb_empty_left examples.read_table "img.dscalar.nii" ∅
  = (Raise (empty_file_error "img.dscalar.nii" "-surface CORTEX_LEFT '{}' "),
     {["0" := {["CortexLeft.txt" := ""]}]}).
Proof. split; vm_compute; reflexivity. Qed.

(** * The mask *)

Section MaskFacts.
Variable nib_load : string → result nib_image.
Variable wb_command : string → string → Z * option string.
Variable read_table : list string → string → result DataFrame.
Variable package_root : string.

Abbreviation export_body := (export_body wb_command read_table).
Abbreviation export_cifti_mapping := (export_cifti_mapping wb_command read_table).
Abbreviation mask_medial_wall :=
  (mask_medial_wall nib_load wb_command read_table package_root).

(** What a turn of the loop returns depends on the scratch directory by
    its content only. *)
Lemma export_body_similar image d1 d2 acc sc (s1 s2 : fs) files acc' :
  s1 !! d1 = Some files → s2 !! d2 = Some files →
  (export_body image d1 acc sc s1).1 = Ok acc' →
  (export_body image d2 acc sc s2).1 = Ok acc'.
Proof.
  intros H1 H2. destruct sc as [st cmd]. unfold io.export_body.
  rewrite !io_bind_eq. unfold run_wb.
  destruct (wb_command image st) as [rc out]. simpl.
  destruct (decide (rc ≠ 0)); [done|].
  set (t1 := match out with Some c => write_file d1 (st +:+ ".txt") c s1 | None => s1 end).
  set (t2 := match out with Some c => write_file d2 (st +:+ ".txt") c s2 | None => s2 end).
  assert (t1 !! d1 = t2 !! d2) as Ht.
  { subst t1 t2. destruct out as [c|]; [|congruence].
    by rewrite (lookup_write_file _ _ _ _ _ H1), (lookup_write_file _ _ _ _ _ H2). }
  rewrite !io_bind_eq. unfold getsize. rewrite !io_bind_eq. unfold read_file at 1 3.
  rewrite <- Ht.
  destruct (t1 !! d1 ≫= (.!! (st +:+ ".txt"))) as [content|] eqn:Hc; [|done]. simpl.
  destruct (decide _); [done|].
  rewrite !io_bind_eq. unfold read_file. rewrite <- Ht, Hc.
  rewrite !io_lift_bind. by destruct (read_table _ _).
Qed.

Lemma export_loop_similar image d1 d2 l acc (s1 s2 : fs) files acc' :
  s1 !! d1 = Some files → s2 !! d2 = Some files →
  (for_each_io (export_body image d1) l acc s1).1 = Ok acc' →
  (for_each_io (export_body image d2) l acc s2).1 = Ok acc'.
Proof.
  revert acc s1 s2 files. induction l as [|sc l IH]; intros acc s1 s2 files H1 H2; [done|].
  rewrite !for_each_io_cons.
  pose proof (export_body_similar image d1 d2 acc sc s1 s2 files) as Hsim.
  destruct (export_body_state wb_command read_table image d1 acc sc s1 files H1) as (H1' & _).
  destruct (export_body_state wb_command read_table image d2 acc sc s2 files H2) as (H2' & _).
  destruct (export_body image d1 acc sc s1) as [[acc1|e1] t1]; [|done].
  specialize (Hsim acc1 H1 H2 eq_refl).
  destruct (export_body image d2 acc sc s2) as [[acc2|e2] t2]; [|done].
  simpl in *. injection Hsim as ->. by eapply IH.
Qed.

(** What the exporter returns does not depend on the scratch directories
    there are. *)
Lemma export_independent_of_state image (s1 s2 : fs) data :
  (export_cifti_mapping image s1).1 = Ok data →
  (export_cifti_mapping image s2).1 = Ok data.
Proof.
  destruct (check_dense image) as [[]|e] eqn:Hc.
  - rewrite !(export_cifti_mapping_eq _ _ _ _ Hc). cbv zeta.
    pose proof (export_loop_similar image (fresh (dom s1)) (fresh (dom s2))
                  structure_cmds (∅, []) (<[fresh (dom s1) := ∅]> s1)
                  (<[fresh (dom s2) := ∅]> s2) ∅) as Hsim.
    destruct (for_each_io _ _ _ (<[fresh (dom s1) := ∅]> s1)) as [[acc1|e1] t1]; [|done].
    specialize (Hsim acc1 (lookup_insert_eq _ _ _) (lookup_insert_eq _ _ _) eq_refl).
    destruct (for_each_io _ _ _ (<[fresh (dom s2) := ∅]> s2)) as [[acc2|e2] t2]; [|done].
    simpl in Hsim. injection Hsim as ->. by destruct (decide _).
  - by rewrite !(export_cifti_mapping_rejected _ _ _ _ _ Hc).
Qed.

(** The function, step by step. *)
Lemma mask_medial_wall_eq surface image (s : fs) :
  mask_medial_wall surface image s =
  match check_dscalar image with
  | Raise e => (Raise e, s)
  | Ok _ =>
  match load_data nib_load surface ≫= λ sh, list_index "tuple" sh 0 with
  | Raise e => (Raise e, s)
  | Ok nv =>
  if decide (nv ≠ standard_mesh)
  then (Raise (ValueError "Surface must be a standard 32k mesh."), s)
  else
  match get_hemisphere nib_load surface with
  | Raise e => (Raise e, s)
  | Ok hemisphere =>
  match export_cifti_mapping image s with
  | (Raise e, s1) => (Raise e, s1)
  | (Ok _, s1) =>
  match export_cifti_mapping (dlabel package_root) s1 with
  | (Raise e, s2) => (Raise e, s2)
  | (Ok mappings, s2) => (mask_from nv hemisphere mappings, s2)
  end end end end end.
Proof.
  unfold io.mask_medial_wall. rewrite io_lift_bind.
  destruct (check_dscalar image) as [[]|]; [|done].
  rewrite io_lift_bind. destruct (load_data nib_load surface) as [sh|]; [|done]. simpl.
  rewrite io_lift_bind. destruct (list_index "tuple" sh 0) as [nv|]; [|done].
  destruct (decide (nv ≠ standard_mesh)) as [|Hnv]; [done|].
  rewrite io_lift_bind. destruct (get_hemisphere nib_load surface) as [h|]; [|done].
  rewrite io_bind_eq. destruct (io.export_cifti_mapping _ _ image s) as [[d|] s1]; [|done].
  rewrite io_bind_eq.
  destruct (io.export_cifti_mapping _ _ (dlabel package_root) s1) as [[ms|] s2]; [|done].
  unfold mask_from. rewrite io_lift_bind.
  destruct (getitem ms h) as [df|]; [|done]. simpl.
  rewrite io_lift_bind. destruct (index_array df) as [idx|]; [|done]. simpl.
  unfold lift. done.
Qed.

(** What a returned mask comes from. *)
Lemma mask_medial_wall_Ok surface image (s : fs) mask :
  (mask_medial_wall surface image s).1 = Ok mask →
  ∃ sh hemisphere s1 mappings,
    load_data nib_load surface = Ok (standard_mesh :: sh) ∧
    get_hemisphere nib_load surface = Ok hemisphere ∧
    (export_cifti_mapping (dlabel package_root) s1).1 = Ok mappings ∧
    mask_from standard_mesh hemisphere mappings = Ok mask.
Proof.
  rewrite mask_medial_wall_eq.
  destruct (check_dscalar image) as [[]|]; [|done].
  destruct (load_data nib_load surface) as [sh|]; [|done]. simpl.
  destruct sh as [|nv sh]; [done|]. simpl.
  destruct (decide (nv ≠ standard_mesh)) as [|Hnv]; [done|].
  assert (nv = standard_mesh) as Heq by (by destruct (decide (nv = standard_mesh))).
  destruct (get_hemisphere nib_load surface) as [h|]; [|done].
  destruct (export_cifti_mapping image s) as [[d|] s1]; [|done].
  destruct (export_cifti_mapping (dlabel package_root) s1) as [[ms|] s2] eqn:Hexp; [|done].
  simpl. intros Hm. exists sh, h, s1, ms. rewrite Hexp, <- Heq. done.
Qed.

Lemma mask_independent_of_image surface img1 img2 (s1 s2 : fs) d1 d2 mask :
  check_dscalar img1 = Ok () → check_dscalar img2 = Ok () →
  (export_cifti_mapping img1 s1).1 = Ok d1 →
  (export_cifti_mapping img2 s2).1 = Ok d2 →
  (mask_medial_wall surface img1 s1).1 = Ok mask →
  (mask_medial_wall surface img2 s2).1 = Ok mask.
Proof.
  intros Hc1 Hc2 He1 He2. rewrite !mask_medial_wall_eq, Hc1, Hc2.
  destruct (load_data nib_load surface ≫= _) as [nv|]; [|done].
  destruct (decide _); [done|].
  destruct (get_hemisphere nib_load surface) as [h|]; [|done].
  destruct (export_cifti_mapping img1 s1) as [[x1|] t1]; [|done].
  destruct (export_cifti_mapping img2 s2) as [[x2|] t2]; [|done].
  pose proof (export_independent_of_state (dlabel package_root) t1 t2) as Hind.
  destruct (export_cifti_mapping (dlabel package_root) t1) as [[ms1|] u1]; [|done].
  specialize (Hind ms1 eq_refl).
  destruct (export_cifti_mapping (dlabel package_root) t2) as [[ms2|] u2]; [|done].
  simpl in Hind. by injection Hind as ->.
Qed.

End MaskFacts.

Section MaskContents.

Lemma comprehension_Ok {A B} (f : A → result B) l l' :
  comprehension f l = Ok l' → Forall2 (λ x y, f x = Ok y) l l'.
Proof.
  revert l'. induction l as [|x l IH]; intros l'; simpl.
  - intros [= <-]. constructor.
  - destruct (f x) as [y|] eqn:Hy; [|done]. simpl.
    destruct (comprehension f l) as [ys|]; [|done]. simpl.
    intros [= <-]. constructor; [done|]. by apply IH.
Qed.

Lemma position_Ok n i p :
  position n i = Ok p → (p < Z.to_nat n)%nat ∧ Z.of_nat p = i `mod` n.
Proof.
  unfold position.
  destruct ((0 <=? i) && (i <? n))%Z eqn:H1.
  - apply andb_prop in H1 as [H1 H2].
    apply Z.leb_le in H1. apply Z.ltb_lt in H2. intros [= <-].
    split; [lia|]. rewrite Z.mod_small by lia. lia.
  - destruct ((- n <=? i) && (i <? 0))%Z eqn:H2; [|done].
    apply andb_prop in H2 as [H2 H3].
    apply Z.leb_le in H2. apply Z.ltb_lt in H3. intros [= <-].
    split; [lia|]. rewrite Z2Nat.id by lia.
    rewrite <- (Z.mod_small (i + n) n) by lia.
    rewrite <- (Z_mod_plus_full i 1 n). f_equal. lia.
Qed.

Lemma positions_Ok n idx ps :
  0 < n →
  comprehension (position n) idx = Ok ps →
  Forall (λ p, p < Z.to_nat n)%nat ps ∧ Z.of_nat <$> ps = (λ i, i `mod` n) <$> idx.
Proof.
  intros Hn H. apply comprehension_Ok in H.
  induction H as [|i p idx ps Hp _ [IH1 IH2]]; [by split|].
  apply position_Ok in Hp as [Hlt Hmod]. split; [by constructor|].
  rewrite !fmap_cons. by f_equal.
Qed.

Lemma length_marks mask ps : length (marks mask ps) = length mask.
Proof.
  revert mask. induction ps as [|p ps IH]; intros mask; simpl; [done|].
  unfold marks in *. simpl. by rewrite IH, length_insert.
Qed.

Lemma marks_snoc mask ps p : marks mask (ps ++ [p]) = <[p := false]> (marks mask ps).
Proof. unfold marks. by rewrite foldl_snoc. Qed.

Lemma lookup_marks n ps p :
  (p < n)%nat → marks (replicate n true) ps !! p = Some (bool_decide (p ∉ ps)).
Proof.
  intros Hp. induction ps as [|q ps IH] using rev_ind.
  - change (marks (replicate n true) []) with (replicate n true).
    by rewrite lookup_replicate_2.
  - rewrite marks_snoc. destruct (decide (q = p)) as [->|Hne].
    + rewrite list_lookup_insert_eq by (by rewrite length_marks, length_replicate).
      rewrite bool_decide_false; [done|]. intros Hnot. apply Hnot.
      apply elem_of_app. right. by apply list_elem_of_singleton.
    + rewrite list_lookup_insert_ne by done. rewrite IH. f_equal.
      apply bool_decide_ext. rewrite elem_of_app, list_elem_of_singleton.
      split; [intros Hnot [?|?]; [done|congruence]|intros Hnot ?; apply Hnot; by left].
Qed.

Lemma count_insert_false mask p :
  mask !! p = Some true → count false (<[p := false]> mask) = S (count false mask).
Proof.
  revert p. induction mask as [|x mask IH]; intros p; [done|].
  destruct p as [|p]; simpl.
  - by intros [= ->].
  - intros H. rewrite (IH p H). lia.
Qed.

Lemma count_false_replicate n : count false (replicate n true) = 0%nat.
Proof. induction n as [|n IH]; simpl; [done|]. exact IH. Qed.

Lemma count_both mask : (count true mask + count false mask = length mask)%nat.
Proof. induction mask as [|[] mask IH]; simpl; lia. Qed.

(** As many entries are [false] as there are distinct positions. *)
Lemma count_marks n ps :
  Forall (λ p, p < n)%nat ps →
  count false (marks (replicate n true) ps) = size (list_to_set (Z.of_nat <$> ps) : gset Z).
Proof.
  induction ps as [|p ps IH] using rev_ind; intros Hall.
  - change (marks (replicate n true) []) with (replicate n true).
    rewrite fmap_nil, list_to_set_nil, size_empty. apply count_false_replicate.
  - apply Forall_app in Hall as [Hps Hp]. rewrite Forall_singleton in Hp.
    specialize (IH Hps).
    rewrite marks_snoc, fmap_app, list_to_set_app_L, fmap_cons, fmap_nil,
      list_to_set_singleton_L.
    pose proof (lookup_marks n ps p Hp) as Hlook.
    destruct (decide (p ∈ ps)) as [Hin|Hnin].
    + rewrite bool_decide_false in Hlook by (by intros ?).
      rewrite list_insert_id by done. rewrite IH. f_equal.
      assert (Z.of_nat p ∈ (list_to_set (Z.of_nat <$> ps) : gset Z)) as Hz.
      { apply elem_of_list_to_set, list_elem_of_fmap. by exists p. }
      symmetry. rewrite union_comm_L. apply subseteq_union_1_L.
      by apply singleton_subseteq_l.
    + rewrite bool_decide_true in Hlook by done.
      rewrite (count_insert_false _ _ Hlook), IH.
      assert (Z.of_nat p ∉ (list_to_set (Z.of_nat <$> ps) : gset Z)) as Hz.
      { rewrite elem_of_list_to_set, list_elem_of_fmap. intros (q & Hq & Hin).
        apply Nat2Z.inj in Hq. by subst q. }
      rewrite size_union by (by apply disjoint_singleton_r).
      rewrite size_singleton. lia.
Qed.

Lemma assign_false_Ok n idx mask :
  (0 < n)%nat →
  assign_false (replicate n true) idx = Ok mask →
  length mask = n ∧
  (∀ p, (p < n)%nat →
        mask !! p = Some (bool_decide (Z.of_nat p ∉ (λ i, i `mod` Z.of_nat n) <$> idx))) ∧
  count false mask = size (list_to_set ((λ i, i `mod` Z.of_nat n) <$> idx) : gset Z).
Proof.
  intros Hn. unfold assign_false. rewrite length_replicate. intros H.
  apply bind_Ok_inv in H as (ps & Hps & [= <-]).
  apply positions_Ok in Hps as [Hall Hmod]; [|lia]. rewrite Nat2Z.id in Hall.
  fold (marks (replicate n true) ps). split; [|split].
  - by rewrite length_marks, length_replicate.
  - intros p Hp. rewrite (lookup_marks n ps p Hp). f_equal.
    apply bool_decide_ext. rewrite <- Hmod. rewrite list_elem_of_fmap. split.
    + intros Hnot (q & Hq & Hin). apply Nat2Z.inj in Hq. by subst q.
    + intros Hnot Hin. apply Hnot. by exists p.
  - by rewrite (count_marks n ps Hall), Hmod.
Qed.

End MaskContents.

(** C10. For one surface and two images that pass the check of the
    extension and on which the exporter returns, [mask_medial_wall] returns
    on the one exactly when it returns on the other, and the two masks are
    equal: the tables of the image are computed and dropped, and the mask
    is made from the hemisphere of the surface and the tables of the
    reference atlas. *)
Theorem mask_ignores_image (nib_load : string → result nib_image)
    (wb_command : string → string → Z * option string)
    (read_table : list string → string → result DataFrame)
    (package_root surface img1 img2 : string) (s1 s2 : fs)
    (d1 d2 : gmap string DataFrame) :
  check_dscalar img1 = Ok () → check_dscalar img2 = Ok () →
  (export_cifti_mapping wb_command read_table img1 s1).1 = Ok d1 →
  (export_cifti_mapping wb_command read_table img2 s2).1 = Ok d2 →
  ∀ mask,
    ((mask_medial_wall nib_load wb_command read_table package_root surface img1 s1).1
     = Ok mask ↔
     (mask_medial_wall nib_load wb_command read_table package_root surface img2 s2).1
     = Ok mask) ∧
    ((mask_medial_wall nib_load wb_command read_table package_root surface img1 s1).1
     = Ok mask →
     ∃ hemisphere mappings,
       get_hemisphere nib_load surface = Ok hemisphere ∧
       (∀ s, (export_cifti_mapping wb_command read_table (dlabel package_root) s).1
             = Ok mappings) ∧
       mask_from standard_mesh hemisphere mappings = Ok mask).
Proof.
  intros Hc1 Hc2 He1 He2 mask. split; [split|].
  - by eapply mask_independent_of_image.
  - by eapply mask_independent_of_image.
  - intros Hm. apply mask_medial_wall_Ok in Hm as (sh & h & t & ms & _ & Hh & Hexp & Hm).
    exists h, ms. split; [done|]. split; [|done].
    intros s. by eapply export_independent_of_state.
Qed.

Lemma mask_ignores_image_witness :
  (mask_medial_wall examples.nib_load examples.wb_by_image examples.read_table
     examples.package_root "L.surf.gii" "b.dscalar.nii" ∅).1
  = Ok examples.left_mask.
Proof.
  refine (proj1 (proj1 (mask_ignores_image examples.nib_load examples.wb_by_image
            examples.read_table examples.package_root "L.surf.gii"
            "a.dscalar.nii" "b.dscalar.nii" ∅ ∅ _ _ eq_refl eq_refl _ _
            examples.left_mask)) _).
  - vm_compute. reflexivity.
  - vm_compute. reflexivity.
  - vm_cast_no_check (eq_refl (Ok examples.left_mask)).
Defined.

Section MaskResult.

Lemma index_array_Ok df idx :
  index_array df = Ok idx → concat (df_values df) = CInt <$> idx.
Proof.
  unfold index_array. destruct (concat (df_values df)) as [|c cells]; [done|].
  generalize (c :: cells). clear. intros cells. revert idx.
  induction cells as [|c cells IH]; intros idx; simpl.
  - by intros [= <-].
  - destruct c as [z|s]; [|done]. simpl.
    destruct (comprehension _ cells) as [zs|]; [|done]. simpl.
    intros [= <-]. rewrite fmap_cons. f_equal. by apply IH.
Qed.

Lemma mask_from_Ok hemisphere mappings mask :
  mask_from standard_mesh hemisphere mappings = Ok mask →
  ∃ table idx,
    mappings !! hemisphere = Some table ∧
    concat (df_values table) = CInt <$> idx ∧
    Z.of_nat (length mask) = standard_mesh ∧
    (∀ p : nat, Z.of_nat p < standard_mesh →
       mask !! p = Some (bool_decide (Z.of_nat p ∉ (λ i, i `mod` standard_mesh) <$> idx))) ∧
    Z.of_nat (count false mask)
    = Z.of_nat (size (list_to_set ((λ i, i `mod` standard_mesh) <$> idx) : gset Z)) ∧
    Z.of_nat (count true mask)
    = standard_mesh
      - Z.of_nat (size (list_to_set ((λ i, i `mod` standard_mesh) <$> idx) : gset Z)).
Proof.
  unfold mask_from. intros H.
  apply bind_Ok_inv in H as (table & Ht & H). apply getitem_Ok in Ht.
  apply bind_Ok_inv in H as (idx & Hidx & H). apply index_array_Ok in Hidx.
  assert (0 < standard_mesh) as Hpos by done.
  assert (Z.of_nat (Z.to_nat standard_mesh) = standard_mesh) as Hn by lia.
  generalize dependent standard_mesh. intros nv H Hpos Hn.
  apply assign_false_Ok in H as (Hlen & Hlook & Hcount); [|lia].
  rewrite Hn in *.
  exists table, idx. split; [done|]. split; [done|]. split; [lia|].
  split; [|split].
  - intros p Hp. apply Hlook. lia.
  - by rewrite Hcount.
  - pose proof (count_both mask). lia.
Qed.

End MaskResult.

(** C1 (as amended). A mask that [mask_medial_wall] returns has 32,492
    entries.  An entry is [false] when the table of the detected hemisphere
    in the reference atlas names its vertex (a negative index counting from
    the end), and [true] otherwise: [false] marks a vertex with a parcel,
    [true] a vertex of the medial wall.  So the [false] entries are as many
    as the distinct vertices the table names, and the [true] entries are
    the rest of the 32,492. *)
Theorem mask_contents (nib_load : string → result nib_image)
    (wb_command : string → string → Z * option string)
    (read_table : list string → string → result DataFrame)
    (package_root surface image : string) (s : fs) (mask : list bool) :
  (mask_medial_wall nib_load wb_command read_table package_root surface image s).1
  = Ok mask →
  ∃ hemisphere mappings table idx,
    get_hemisphere nib_load surface = Ok hemisphere ∧
    (∀ s', (export_cifti_mapping wb_command read_table (dlabel package_root) s').1
           = Ok mappings) ∧
    mappings !! hemisphere = Some table ∧
    concat (df_values table) = CInt <$> idx ∧
    Z.of_nat (length mask) = 32492 ∧
    (∀ p : nat, Z.of_nat p < 32492 →
       mask !! p = Some (bool_decide (Z.of_nat p ∉ (λ i, i `mod` 32492) <$> idx))) ∧
    Z.of_nat (count false mask)
    = Z.of_nat (size (list_to_set ((λ i, i `mod` 32492) <$> idx) : gset Z)) ∧
    Z.of_nat (count true mask)
    = 32492 - Z.of_nat (size (list_to_set ((λ i, i `mod` 32492) <$> idx) : gset Z)).
Proof.
  intros H.
  apply mask_medial_wall_Ok in H as (sh & h & t & ms & _ & Hh & Hexp & Hm).
  apply mask_from_Ok in Hm as (table & idx & Ht & Hidx & Hlen & Hlook & Hf & Htrue).
  exists h, ms, table, idx. split; [done|]. split.
  { intros s'. by eapply export_independent_of_state. }
  done.
Qed.

Lemma mask_contents_witness :
  ∃ hemisphere (mappings : gmap string DataFrame) table idx,
    get_hemisphere examples.nib_load "L.surf.gii" = Ok hemisphere ∧
    mappings !! hemisphere = Some table ∧
    concat (df_values table) = CInt <$> idx ∧
    Z.of_nat (count false examples.left_mask)
    = Z.of_nat (size (list_to_set ((λ i, i `mod` 32492) <$> idx) : gset Z)).
Proof.
  assert ((mask_medial_wall examples.nib_load examples.wb_command examples.read_table
             examples.package_root "L.surf.gii" "img.dscalar.nii" ∅).1
          = Ok examples.left_mask) as H
    by vm_cast_no_check (eq_refl (Ok examples.left_mask)).
  destruct (mask_contents _ _ _ _ _ _ _ _ H)
    as (h & ms & table & idx & Hh & _ & Ht & Hidx & _ & _ & Hf & _).
  exists h, ms, table, idx. split; [exact Hh|]. split; [exact Ht|].
  split; [exact Hidx|exact Hf].
Defined.

(** Under an atlas whose left table names the vertices 0, 1 and 2, the mask
    of a left surface is [false] at vertex 0, which has a parcel, and
    [true] at vertex 3, which has none; 32,489 entries are [true], not 3. *)
Lemma mask_marks_parcels_false :
  (export_cifti_mapping examples.wb_command examples.read_table
     (dlabel examples.package_root) ∅).1
  = Ok {["CortexLeft" := {| df_index := [0; 1; 2]; df_columns := ["vertex"];
                            df_values := [[CInt 0]; [CInt 1]; [CInt 2]] |}]} ∧
  (mask_medial_wall examples.nib_load examples.wb_command examples.read_table
     examples.package_root "L.surf.gii" "img.dscalar.nii" ∅).1
  = Ok examples.left_mask ∧
  examples.left_mask !! 0%nat = Some false ∧
  examples.left_mask !! 3%nat = Some true ∧
  Z.of_nat (count true examples.left_mask) = 32489.
Proof.
  split; [vm_compute; reflexivity|].
  split; [vm_cast_no_check (eq_refl (Ok examples.left_mask))|].
  repeat split; vm_compute; reflexivity.
Qed.

(** * More on the kernels *)

Section KernelShapes.
Import kernels.
Variable np_exp : float → float.

Abbreviation row_max := more.row_max.

Lemma zip_with_column (rows : list (list float)) :
  zip_with (λ row mx, map (λ x, x / hd 0 mx)%float row) rows
    (map (λ x, [x]) (map (λ row, foldl np_max2 (hd 0%float row) (tl row)) rows))
  = map (λ row, map (λ x, x / row_max row)%float row) rows.
Proof. induction rows as [|row rows IH]; [done|]. simpl. by rewrite IH. Qed.

(** A kernel that divides by the row maximum, on one row and on a rank-2
    array with columns. *)
Lemma gaussian_row row :
  row ≠ [] →
  gaussian np_exp (NdArray1 row)
  = Ok (NdArray1 (map (λ x, np_exp (-0.5 * np_square (x / row_max row)))%float row)).
Proof.
  intros Hrow. destruct row as [|x a]; [done|].
  unfold gaussian. simpl. by rewrite map_map.
Qed.

Lemma gaussian_rows n rows :
  gaussian np_exp (NdArray2 (S n) rows)
  = Ok (NdArray2 (S n)
          (map (λ row, map (λ x, np_exp (-0.5 * np_square (x / row_max row)))%float row)
             rows)).
Proof.
  unfold gaussian. simpl. rewrite zip_with_column, map_map. do 2 f_equal.
  apply map_ext. intros row. by rewrite map_map.
Qed.

Lemma exp_row row :
  row ≠ [] →
  exp np_exp (NdArray1 row)
  = Ok (NdArray1 (map (λ x, np_exp (- x / row_max row))%float row)).
Proof.
  intros Hrow. destruct row as [|x a]; [done|].
  unfold exp. simpl. by rewrite !map_map.
Qed.

Lemma zip_with_column_opp (rows : list (list float)) :
  zip_with (λ row mx, map (λ x, x / hd 0 mx)%float row) (map (map PrimFloat.opp) rows)
    (map (λ x, [x]) (map (λ row, foldl np_max2 (hd 0%float row) (tl row)) rows))
  = map (λ row, map (λ x, - x / row_max row)%float row) rows.
Proof.
  induction rows as [|row rows IH]; [done|]. simpl. by rewrite IH, map_map.
Qed.

Lemma exp_rows n rows :
  exp np_exp (NdArray2 (S n) rows)
  = Ok (NdArray2 (S n) (map (λ row, map (λ x, np_exp (- x / row_max row))%float row) rows)).
Proof.
  unfold exp. simpl. rewrite zip_with_column_opp, map_map. do 2 f_equal.
  apply map_ext. intros row. by rewrite map_map.
Qed.

End KernelShapes.

(** X1. On a rank-2 array with columns, [gaussian] and [exp] work row by
    row: each row of the result is the kernel of that row alone. *)
Theorem kernels_row_by_row (np_exp : float → float) (n : nat)
    (rows : list (list float)) :
  (0 < n)%nat → Forall (λ row, length row = n) rows →
  ∃ g e,
    kernels.gaussian np_exp (kernels.NdArray2 n rows) = Ok (kernels.NdArray2 n g) ∧
    Forall2 (λ row r, kernels.gaussian np_exp (kernels.NdArray1 row)
                      = Ok (kernels.NdArray1 r)) rows g ∧
    kernels.exp np_exp (kernels.NdArray2 n rows) = Ok (kernels.NdArray2 n e) ∧
    Forall2 (λ row r, kernels.exp np_exp (kernels.NdArray1 row)
                      = Ok (kernels.NdArray1 r)) rows e.
Proof.
  intros Hn Hrows. destruct n as [|n]; [lia|].
  assert (Forall (λ row : list float, row ≠ []) rows) as Hne.
  { eapply Forall_impl; [exact Hrows|]. intros row Hlen ->. simpl in Hlen. lia. }
  eexists _, _. split; [apply gaussian_rows|]. split; [|split; [apply exp_rows|]].
  - apply Forall2_fmap_r, Forall_Forall2_diag.
    eapply Forall_impl; [exact Hne|]. intros row Hrow. by apply gaussian_row.
  - apply Forall2_fmap_r, Forall_Forall2_diag.
    eapply Forall_impl; [exact Hne|]. intros row Hrow. by apply exp_row.
Qed.

Lemma kernels_row_by_row_witness :
  ∃ g e,
    kernels.gaussian (λ x, x) (kernels.NdArray2 2 [[1; 2]; [4; 8]]%float)
    = Ok (kernels.NdArray2 2 g) ∧
    kernels.exp (λ x, x) (kernels.NdArray2 2 [[1; 2]; [4; 8]]%float)
    = Ok (kernels.NdArray2 2 e).
Proof.
  destruct (kernels_row_by_row (λ x, x) 2 [[1; 2]; [4; 8]]%float)
    as (g & e & Hg & _ & He & _); [lia|by repeat constructor|].
  by exists g, e.
Defined.

Section KernelEdges.
Import kernels.
Variable np_exp : float → float.

Lemma gaussian_Ok_shape d v :
  gaussian np_exp d = Ok v → is_ndarray v = true ∧ shape v = shape d.
Proof.
  destruct d as [|z|f|s|l|x|a|n rows]; try done.
  - intros [= <-]. done.
  - destruct a as [|x a]; [done|]. rewrite gaussian_row by done.
    intros [= <-]. simpl. by rewrite length_map.
  - destruct n as [|n]; [done|]. rewrite gaussian_rows.
    intros [= <-]. simpl. by rewrite length_map.
Qed.

Lemma exp_Ok_shape d v :
  exp np_exp d = Ok v → is_ndarray v = true ∧ shape v = shape d.
Proof.
  destruct d as [|z|f|s|l|x|a|n rows]; try done.
  - intros [= <-]. done.
  - destruct a as [|x a]; [done|]. rewrite exp_row by done.
    intros [= <-]. simpl. by rewrite length_map.
  - destruct n as [|n]; [done|]. rewrite exp_rows.
    intros [= <-]. simpl. by rewrite length_map.
Qed.

Lemma invdist_Ok_shape d :
  is_ndarray d = true →
  ∃ v, invdist d = Ok v ∧ is_ndarray v = true ∧ shape v = shape d.
Proof.
  destruct d as [|z|f|s|l|x|a|n rows]; try done; intros _; eexists; (split; [reflexivity|]);
    simpl; by rewrite ?length_map.
Qed.

Lemma uniform_Ok_shape d :
  is_ndarray d = true →
  ∃ v, uniform d = Ok v ∧ is_ndarray v = true ∧
       shape v = match d with NdArray0 _ => Ok [1%nat] | _ => shape d end.
Proof.
  destruct d as [|z|f|s|l|x|a|n rows]; try done; intros _; eexists; (split; [reflexivity|]);
    simpl; by rewrite ?length_replicate.
Qed.

Lemma uniform_by_shape d1 d2 sh :
  shape d1 = Ok sh → shape d2 = Ok sh → uniform d1 = uniform d2.
Proof.
  intros H1 H2.
  destruct d1 as [|z|f|s|l|x|a|n rows]; try done;
    destruct d2 as [|z2|f2|s2|l2|x2|a2|n2 rows2]; try done;
    simpl in *; simplify_eq; try done; unfold uniform; simpl; congruence.
Qed.

(** The handlers of [invdist] change no outcome. *)
Lemma invdist_is_division d : invdist d = float_truediv d.
Proof.
  unfold invdist. destruct (float_truediv d) as [v|e] eqn:Hd; [done|].
  pose proof (invdist_no_attribute_error d e Hd) as Hno.
  destruct e; simpl; try done. by destruct (Hno msg).
Qed.

End KernelEdges.

(** X2. Applied to a numpy value, [gaussian], [exp] and [invdist] return a
    numpy value of the same shape whenever they return, and [invdist]
    always returns.  [uniform] always returns, with the same shape but for
    a numpy scalar, which it turns into a vector of one entry; and what it
    returns depends on the shape of its input only. *)
Theorem kernels_keep_shape (np_exp : float → float) (d : kernels.pyval) :
  (∀ v, kernels.gaussian np_exp d = Ok v →
        kernels.is_ndarray v = true ∧ kernels.shape v = kernels.shape d) ∧
  (∀ v, kernels.exp np_exp d = Ok v →
        kernels.is_ndarray v = true ∧ kernels.shape v = kernels.shape d) ∧
  (kernels.is_ndarray d = true →
   (∃ v, kernels.invdist d = Ok v ∧ kernels.shape v = kernels.shape d) ∧
   (∃ v, kernels.uniform d = Ok v ∧
         kernels.shape v = match d with
                           | kernels.NdArray0 _ => Ok [1%nat]
                           | _ => kernels.shape d
                           end)) ∧
  (∀ d' sh, kernels.shape d = Ok sh → kernels.shape d' = Ok sh →
            kernels.uniform d = kernels.uniform d').
Proof.
  split; [apply gaussian_Ok_shape|]. split; [apply exp_Ok_shape|]. split.
  - intros Hd. split.
    + destruct (invdist_Ok_shape d Hd) as (v & Hv & _ & Hs). eauto.
    + destruct (uniform_Ok_shape d Hd) as (v & Hv & _ & Hs). eauto.
  - intros d' sh. apply uniform_by_shape.
Qed.

Lemma kernels_keep_shape_witness :
  kernels.uniform (kernels.NdArray1 [1; 2; 4; 5]%float)
  = kernels.uniform (kernels.NdArray1 [9; 9; 9; 9]%float).
Proof.
  exact (proj2 (proj2 (proj2 (kernels_keep_shape (λ x, x)
           (kernels.NdArray1 [1; 2; 4; 5]%float))))
         (kernels.NdArray1 [9; 9; 9; 9]%float) [4%nat] eq_refl eq_refl).
Defined.

(** X3. On a numpy value [gaussian] and [exp] raise the [ValueError] of
    the maximum exactly when the last axis is empty (the empty vector, and
    a rank-2 array without columns); on every other numpy value they
    return, also on a rank-2 array without rows. *)
Theorem kernels_on_empty_axis (np_exp : float → float) (d : kernels.pyval)
    (sh : list nat) :
  kernels.shape d = Ok sh →
  (last sh = Some 0%nat →
   kernels.gaussian np_exp d = Raise more.no_identity ∧
   kernels.exp np_exp d = Raise more.no_identity) ∧
  (last sh ≠ Some 0%nat →
   (∃ v, kernels.gaussian np_exp d = Ok v) ∧ (∃ v, kernels.exp np_exp d = Ok v)).
Proof.
  destruct d as [|z|f|s|l|x|a|n rows]; try done; intros [= <-].
  - split; [done|]. intros _. split; by eexists.
  - destruct a as [|x a]; (split; [try done|]).
    + by intros [].
    + intros _. split; by eexists.
  - destruct n as [|n].
    + split; [by destruct rows|]. intros []. by destruct rows.
    + split; [by destruct rows|]. intros _. split; by eexists.
Qed.

Lemma kernels_on_empty_axis_witness :
  kernels.gaussian (λ x, x) (kernels.NdArray2 0 [[]; []]) = Raise more.no_identity ∧
  kernels.exp (λ x, x) (kernels.NdArray2 0 [[]; []]) = Raise more.no_identity.
Proof.
  exact (proj1 (kernels_on_empty_axis (λ x, x) (kernels.NdArray2 0 [[]; []])
                  [2%nat; 0%nat] eq_refl) eq_refl).
Defined.

(** X4. The [try] of [invdist] changes no outcome: [invdist(d)] is what
    [1. / d] is, value or exception; its handler for [AttributeError]
    never runs, so it never raises "expected array_like". *)
Theorem invdist_is_the_division (d : kernels.pyval) :
  kernels.invdist d = kernels.float_truediv d ∧
  kernels.invdist d ≠ Raise (kernels.expected_array_like d).
Proof.
  split; [apply invdist_is_division|].
  rewrite invdist_is_division.
  destruct d as [|z|f|s|l|x|a|n rows]; simpl; try done.
  - unfold kernels.float_of_int. destruct (PrimFloat.is_infinity _); [done|]. simpl.
    by destruct (PrimFloat.eqb _ _).
  - by destruct (PrimFloat.eqb _ _).
Qed.

(** * More on the exporter *)

Section ExporterReturns.
Variable wb_command : string → string → Z * option string.
Variable read_table : list string → string → result DataFrame.

Abbreviation export_body := (export_body wb_command read_table).
Abbreviation export_cifti_mapping := (export_cifti_mapping wb_command read_table).
Abbreviation goes_through := (goes_through wb_command read_table).
Abbreviation table_of := (more.table_of wb_command read_table).

Lemma length_append_str s1 s2 :
  String.length (s1 +:+ s2) = (String.length s1 + String.length s2)%nat.
Proof. induction s1 as [|a s1 IH]; [done|]. rewrite append_String. simpl. by rewrite IH. Qed.

Lemma append_suffix_inj s1 s2 t : s1 +:+ t = s2 +:+ t → s1 = s2.
Proof.
  revert s2. induction s1 as [|a s1 IH]; intros [|b s2] H; [done| | |].
  - exfalso. apply (f_equal String.length) in H.
    rewrite append_empty_l, append_String in H. simpl in H.
    rewrite length_append_str in H. lia.
  - exfalso. apply (f_equal String.length) in H.
    rewrite append_empty_l, append_String in H. simpl in H.
    rewrite length_append_str in H. lia.
  - rewrite !append_String in H. injection H as -> H. f_equal. by apply IH.
Qed.

(** A turn whose output file is not there before the tool runs. *)
Lemma export_body_fresh image d acc st cmd (s : fs) files :
  s !! d = Some files → files !! (st +:+ ".txt") = None →
  (export_body image d acc (st, cmd) s).1 =
  match wb_command image st with
  | (0, Some content) =>
      if decide (content = "") then Raise (empty_file_error image cmd)
      else match read_table (columns st) content with
           | Ok df => Ok (<[st := df]> acc.1, (acc.2 ++ [st])%list)
           | Raise e => Raise e
           end
  | (0, None) => Raise (FileNotFoundError (path_join d (st +:+ ".txt")))
  | _ => Ok acc
  end.
Proof.
  intros Hd Hfile. unfold io.export_body. rewrite io_bind_eq. unfold run_wb.
  destruct (wb_command image st) as [rc out]. simpl.
  destruct (decide (rc ≠ 0)) as [Hrc|Hrc]; [by destruct rc|].
  assert (rc = 0) as -> by lia.
  rewrite io_bind_eq. unfold getsize. rewrite io_bind_eq. unfold read_file at 1.
  destruct out as [content|].
  - rewrite (lookup_write_file _ _ _ _ _ Hd). simpl. rewrite lookup_insert_eq. simpl.
    destruct (decide (String.length content = 0%nat)) as [Hz|Hz];
      destruct (decide (content = "")) as [->|Hne]; try done.
    { by destruct content. }
    rewrite io_bind_eq. unfold read_file.
    rewrite (lookup_write_file _ _ _ _ _ Hd). simpl. rewrite lookup_insert_eq.
    rewrite io_lift_bind. by destruct (read_table _ _).
  - rewrite Hd. simpl. by rewrite Hfile.
Qed.

Lemma goes_through_table sc image :
  goes_through image sc →
  (wb_command image sc.1).1 ≠ 0 ∧ table_of image sc.1 = None ∨
  (wb_command image sc.1).1 = 0 ∧ is_Some (table_of image sc.1).
Proof.
  unfold io.goes_through, more.table_of.
  intros [Hrc|(content & df & Hwb & Hne & Hread)].
  - left. split; [done|]. destruct (wb_command image sc.1) as [rc out]. simpl in *.
    destruct rc; [done|by destruct out..].
  - right. rewrite Hwb, Hread. eauto.
Qed.

(** The loop over structures of distinct names in a directory that has
    none of their files: when it goes through, every turn did, and the
    dict holds exactly the tables of the structures on which the tool
    exited with status zero. *)
Lemma export_loop_returns image d l acc (s : fs) files acc' :
  NoDup l.*1 → s !! d = Some files →
  (∀ sc, sc ∈ l → files !! (sc.1 +:+ ".txt") = None) →
  (∀ sc, sc ∈ l → acc.1 !! sc.1 = None) →
  (for_each_io (export_body image d) l acc s).1 = Ok acc' →
  Forall (goes_through image) l ∧
  (∀ st, st ∉ l.*1 → acc'.1 !! st = acc.1 !! st) ∧
  (∀ st, st ∈ l.*1 → acc'.1 !! st = table_of image st) ∧
  acc'.2 = (acc.2 ++ filter (λ st, (wb_command image st).1 = 0) l.*1)%list.
Proof.
  revert acc s files. induction l as [|[st cmd] l IH]; intros acc s files Hnd Hd Hfiles Hacc.
  { simpl. intros [= <-]. split; [constructor|]. split; [done|]. split.
    - intros st Hst. by apply elem_of_nil in Hst.
    - by rewrite app_nil_r. }
  rewrite for_each_io_cons. rewrite fmap_cons in *. simpl in Hnd.
  apply NoDup_cons in Hnd as [Hst Hnd].
  pose proof (export_body_fresh image d acc st cmd s files Hd
                (Hfiles (st, cmd) (list_elem_of_here _ _))) as Hbody.
  destruct (export_body_state wb_command read_table image d acc (st, cmd) s files Hd)
    as (Hd1 & _ & _).
  destruct (export_body image d acc (st, cmd) s) as [[acc1|e] s1]; [|done].
  simpl in Hbody, Hd1. intros Hloop.
  assert (∀ sc, sc ∈ l →
            tool_writes wb_command image files (st, cmd) !! (sc.1 +:+ ".txt") = None)
    as Hfiles1.
  { intros sc Hsc. unfold tool_writes. simpl.
    destruct (wb_command image st).2; [|by apply Hfiles, list_elem_of_further].
    rewrite lookup_insert_ne; [by apply Hfiles, list_elem_of_further|].
    intros Heq. apply append_suffix_inj in Heq. apply Hst. rewrite Heq.
    by apply list_elem_of_fmap_2. }
  assert (goes_through image (st, cmd) ∧
          acc1.1 !! st = table_of image st ∧
          (∀ st', st' ≠ st → acc1.1 !! st' = acc.1 !! st') ∧
          acc1.2 = (acc.2 ++ filter (λ st, (wb_command image st).1 = 0) [st])%list)
    as (Hgo & Hst1 & Hother1 & Hsnd1).
  { unfold io.goes_through, more.table_of. simpl.
    pose proof (Hacc (st, cmd) (list_elem_of_here _ _)) as Hnone. simpl in Hnone.
    destruct (wb_command image st) as [rc out] eqn:Hwb. simpl in *.
    destruct rc as [|p|p].
    - destruct out as [content|]; [|done].
      destruct (decide (content = "")) as [->|Hne]; [done|].
      destruct (read_table (columns st) content) as [df|] eqn:Hread; [|done].
      injection Hbody as Hb; subst acc1. simpl. split; [right; by eauto|].
      rewrite lookup_insert_eq. split; [done|]. split.
      + intros st' Hne'. by rewrite lookup_insert_ne.
      + rewrite filter_cons_True by (by rewrite Hwb). done.
    - injection Hbody as Hb; subst acc1. split; [by left|]. split; [by destruct out|].
      split; [done|]. rewrite filter_cons_False by (by rewrite Hwb). by rewrite app_nil_r.
    - injection Hbody as Hb; subst acc1. split; [by left|]. split; [by destruct out|].
      split; [done|]. rewrite filter_cons_False by (by rewrite Hwb). by rewrite app_nil_r. }
  assert (∀ sc, sc ∈ l → acc1.1 !! sc.1 = None) as Hacc1.
  { intros sc Hsc. rewrite Hother1; [by apply Hacc, list_elem_of_further|].
    intros Heq. apply Hst. rewrite <- Heq. by apply list_elem_of_fmap_2. }
  destruct (IH acc1 s1 _ Hnd Hd1 Hfiles1 Hacc1 Hloop) as (Hall & Hout & Hin & Hsnd).
  split; [by constructor|]. split; [|split].
  - intros st' Hst'. apply not_elem_of_cons in Hst' as [Hne' Hst'].
    rewrite Hout by done. by apply Hother1.
  - intros st' [->|Hst']%elem_of_cons; [by rewrite Hout|by apply Hin].
  - rewrite Hsnd, Hsnd1, <- app_assoc. f_equal.
    destruct (decide ((wb_command image st).1 = 0)).
    + by rewrite !filter_cons_True.
    + by rewrite !filter_cons_False.
Qed.

Lemma tool_writes_other image files st cmd st' :
  st' ≠ st →
  tool_writes wb_command image files (st, cmd) !! (st' +:+ ".txt") = files !! (st' +:+ ".txt").
Proof.
  intros Hne. unfold tool_writes. simpl. destruct (wb_command image st).2; [|done].
  apply lookup_insert_ne. intros Heq. by apply append_suffix_inj in Heq.
Qed.

(** Turns that go through, then one that raises whatever [data] holds: the
    loop raises what that turn raises. *)
Lemma export_loop_first_failure image d l1 st cmd l2 acc (s : fs) files e :
  NoDup ((l1 ++ (st, cmd) :: l2)%list).*1 → s !! d = Some files →
  (∀ sc, sc ∈ (l1 ++ (st, cmd) :: l2)%list → files !! (sc.1 +:+ ".txt") = None) →
  Forall (goes_through image) l1 →
  (∀ acc0 (s0 : fs) files0,
     s0 !! d = Some files0 → files0 !! (st +:+ ".txt") = None →
     (export_body image d acc0 (st, cmd) s0).1 = Raise e) →
  (for_each_io (export_body image d) (l1 ++ (st, cmd) :: l2)%list acc s).1 = Raise e.
Proof.
  intros Hnd Hd Hfiles Hl1 Hraise. revert acc s files Hnd Hd Hfiles.
  induction Hl1 as [|[st1 cmd1] l1 Hsc _ IH]; intros acc s files Hnd Hd Hfiles.
  - simpl app. rewrite for_each_io_cons.
    pose proof (Hraise acc s files Hd (Hfiles (st, cmd) (list_elem_of_here _ _))) as Hb.
    by destruct (export_body image d acc (st, cmd) s) as [[acc1|e1] s1]; simplify_eq/=.
  - simpl app in *. rewrite for_each_io_cons. rewrite fmap_cons in Hnd. simpl in Hnd.
    apply NoDup_cons in Hnd as [Hst1 Hnd].
    destruct (export_body_goes_through wb_command read_table image d acc (st1, cmd1) s Hsc)
      as [acc1 Hbody]; [by apply elem_of_dom|].
    destruct (export_body_state wb_command read_table image d acc (st1, cmd1) s files Hd)
      as (Hd1 & _ & _).
    destruct (export_body image d acc (st1, cmd1) s) as [[acc1'|e1] s1]; [|done].
    simpl in Hd1. eapply IH; [done|exact Hd1|].
    intros sc Hsc'. rewrite tool_writes_other; [by apply Hfiles, list_elem_of_further|].
    intros Heq. apply Hst1. rewrite <- Heq. by apply list_elem_of_fmap_2.
Qed.

Lemma export_loop_goes_through image d l acc (s : fs) :
  d ∈ dom s → Forall (goes_through image) l →
  ∃ acc', (for_each_io (export_body image d) l acc s).1 = Ok acc'.
Proof.
  intros Hd Hl. revert acc s Hd. induction Hl as [|sc l Hsc _ IH]; intros acc s Hd.
  { by exists acc. }
  rewrite for_each_io_cons.
  destruct (export_body_goes_through wb_command read_table image d acc sc s Hsc Hd)
    as [acc1 Hbody].
  apply elem_of_dom in Hd as [files Hfiles].
  destruct (export_body_state wb_command read_table image d acc sc s files Hfiles)
    as (_ & Hdom & _).
  destruct (export_body image d acc sc s) as [[acc1'|e1] s1]; [|done].
  simpl in *. apply IH. rewrite Hdom. by apply elem_of_dom_2 in Hfiles.
Qed.

Lemma structure_names_NoDup : NoDup structure_cmds.*1.
Proof. apply (bool_decide_unpack _). by vm_compute. Qed.

End ExporterReturns.

(** X5. An image that passes the check of the extension: the exporter
    returns exactly when every structure goes through (a nonzero exit
    status, or a table that is not empty and is read) and the tool exits
    with status zero on one at least.  What it returns is never empty: it
    holds the table read for each structure with exit status zero, and no
    other key. *)
Theorem export_returns (wb_command : string → string → Z * option string)
    (read_table : list string → string → result DataFrame)
    (image : string) (s : fs) :
  check_dense image = Ok () →
  let r := (export_cifti_mapping wb_command read_table image s).1 in
  (∀ data, r = Ok data →
     Forall (goes_through wb_command read_table image) structure_cmds ∧
     (∀ st, data !! st = if decide (st ∈ structures)
                         then more.table_of wb_command read_table image st
                         else None) ∧
     (∀ st, is_Some (data !! st) ↔ st ∈ structures ∧ (wb_command image st).1 = 0) ∧
     data ≠ ∅) ∧
  (Forall (goes_through wb_command read_table image) structure_cmds →
   (∃ st, st ∈ structures ∧ (wb_command image st).1 = 0) →
   ∃ data, r = Ok data).
Proof.
  intros Hc r. subst r. rewrite (export_cifti_mapping_eq _ _ _ _ Hc). cbv zeta.
  set (d := fresh (dom s)).
  assert ((<[d := ∅]> s : fs) !! d = Some ∅) as Hd by apply lookup_insert_eq.
  pose proof (export_loop_returns wb_command read_table image d structure_cmds (∅, [])
                (<[d := ∅]> s) ∅) as Hret.
  split.
  - intros data Hdata.
    destruct (for_each_io _ _ _ _) as [[acc|e] s'] eqn:Hloop; [|done]. cbn [fst snd] in *.
    destruct (decide (length acc.2 = 0%nat)) as [|Hlen]; [done|].
    simpl in Hdata. injection Hdata as <-.
    destruct (Hret acc (structure_names_NoDup) Hd) as (Hall & Hout & Hin & Hsnd);
      [done|done|done|].
    assert (∀ st, acc.1 !! st = if decide (st ∈ structures)
                                then more.table_of wb_command read_table image st
                                else None) as Hlook.
    { intros st. destruct (decide (st ∈ structures)) as [Hst|Hst].
      - by apply Hin.
      - by rewrite Hout. }
    assert (∀ st, is_Some (acc.1 !! st) ↔ st ∈ structures ∧ (wb_command image st).1 = 0)
      as Hsome.
    { intros st. rewrite Hlook. destruct (decide (st ∈ structures)) as [Hst|Hst].
      - change (st ∈ structure_cmds.*1) in Hst.
        apply list_elem_of_fmap in Hst as ([st' cmd] & -> & Hsc).
        rewrite Forall_forall in Hall.
        destruct (goes_through_table wb_command read_table _ image (Hall _ Hsc))
          as [[Hrc Hnone]|[Hrc Hsome]]; cbn [fst snd] in *.
        + rewrite Hnone. split; [by intros [? ?]|by intros [_ ?]].
        + split; [intros _; split; [by apply (list_elem_of_fmap_2 fst) in Hsc|done]|done].
      - split; [by intros [? ?]|by intros [? _]]. }
    split; [done|]. split; [done|]. split; [done|].
    rewrite Hsnd in Hlen. cbn [snd app] in Hlen.
    destruct (filter (λ st, (wb_command image st).1 = 0) structure_cmds.*1)
      as [|st sts] eqn:Hf; [done|].
    assert (st ∈ filter (λ st, (wb_command image st).1 = 0) structure_cmds.*1) as Hst
      by (rewrite Hf; apply list_elem_of_here).
    apply list_elem_of_filter in Hst as [Hrc Hst].
    intros Hempty. assert (is_Some (acc.1 !! st)) as [df Hdf] by (by apply Hsome).
    rewrite Hempty in Hdf. by rewrite lookup_empty in Hdf.
  - intros Hall (st & Hst & Hrc).
    destruct (export_loop_goes_through wb_command read_table image d structure_cmds
                (∅, []) (<[d := ∅]> s)) as [acc Hacc]; [by apply elem_of_dom|done|].
    destruct (for_each_io _ _ _ _) as [[acc0|e] s'] eqn:Hloop; [|done]. cbn [fst snd] in *.
    injection Hacc as ->.
    destruct (Hret acc (structure_names_NoDup) Hd) as (_ & _ & _ & Hsnd);
      [done|done|done|].
    destruct (decide (length acc.2 = 0%nat)) as [Hlen|Hlen]; [|by eauto].
    exfalso. rewrite Hsnd in Hlen. cbn [snd app] in Hlen.
    assert (st ∈ filter (λ st, (wb_command image st).1 = 0) structure_cmds.*1) as Hin
      by (by apply list_elem_of_filter).
    destruct (filter (λ st, (wb_command image st).1 = 0) structure_cmds.*1);
      [by apply elem_of_nil in Hin|done].
Qed.

Lemma export_returns_witness :
  ∃ data,
    (export_cifti_mapping examples.wb_command examples.read_table "img.dscalar.nii" ∅).1
    = Ok data.
Proof.
  refine (proj2 (export_returns examples.wb_command examples.read_table
                   "img.dscalar.nii" ∅ eq_refl) _ _).
  - apply Forall_cons. split; [by left|].
    apply Forall_cons. split.
    { right. eexists _, _. split; [reflexivity|]. split; [done|]. vm_compute. reflexivity. }
    apply Forall_cons. split; [by left|]. apply Forall_nil_2.
  - exists "CortexLeft". split; [|reflexivity]. apply (bool_decide_unpack _). by vm_compute.
Defined.

(** X6. After turns that go through, a structure on which the tool exits
    with status zero without writing its file makes the exporter raise the
    [FileNotFoundError] of [getsize], and one whose table [read_table]
    cannot read makes it raise the error of [read_table]: neither is
    turned into the [RuntimeError] of the exporter. *)
Theorem export_unclassified_errors (wb_command : string → string → Z * option string)
    (read_table : list string → string → result DataFrame)
    (image : string) (s : fs)
    (l1 l2 : list (string * string)) (st cmd : string) :
  check_dense image = Ok () →
  structure_cmds = (l1 ++ (st, cmd) :: l2)%list →
  Forall (goes_through wb_command read_table image) l1 →
  let r := (export_cifti_mapping wb_command read_table image s).1 in
  (wb_command image st = (0, None) →
   r = Raise (FileNotFoundError (path_join (fresh (dom s)) (st +:+ ".txt")))) ∧
  (∀ content e,
     wb_command image st = (0, Some content) → content ≠ "" →
     read_table (columns st) content = Raise e →
     r = Raise e).
Proof.
  intros Hc Hl Hl1 r. subst r. rewrite (export_cifti_mapping_eq _ _ _ _ Hc). cbv zeta.
  set (d := fresh (dom s)).
  assert ((<[d := ∅]> s : fs) !! d = Some ∅) as Hd by apply lookup_insert_eq.
  pose proof (structure_names_NoDup) as Hnd. rewrite Hl in Hnd |- *.
  assert (∀ sc, sc ∈ (l1 ++ (st, cmd) :: l2)%list →
            (∅ : gmap string string) !! (sc.1 +:+ ".txt") = None) as Hfiles by done.
  assert (∀ e,
            (∀ acc0 (s0 : fs) files0,
               s0 !! d = Some files0 → files0 !! (st +:+ ".txt") = None →
               (export_body wb_command read_table image d acc0 (st, cmd) s0).1 = Raise e) →
            (match for_each_io (export_body wb_command read_table image d)
                     (l1 ++ (st, cmd) :: l2)%list (∅, []) (<[d := ∅]> s) with
             | (Ok acc, s') =>
                 if decide (length acc.2 = 0%nat)
                 then (Raise (no_files_error image), s')
                 else (Ok acc.1, s')
             | (Raise e, s') => (Raise e, s')
             end).1 = Raise e) as Hraise.
  { intros e Hbody.
    pose proof (export_loop_first_failure wb_command read_table image d l1 st cmd l2
                  (∅, []) (<[d := ∅]> s) ∅ e Hnd Hd Hfiles Hl1 Hbody) as Hloop.
    destruct (for_each_io _ _ _ _) as [[acc|e'] s']; cbn [fst] in Hloop |- *; [done|].
    by injection Hloop as ->. }
  split.
  - intros Hwb. apply Hraise. intros acc0 s0 files0 H0 Hf.
    by rewrite (export_body_fresh _ _ _ _ _ _ _ _ _ H0 Hf), Hwb.
  - intros content e Hwb Hne Hread. apply Hraise. intros acc0 s0 files0 H0 Hf.
    rewrite (export_body_fresh _ _ _ _ _ _ _ _ _ H0 Hf), Hwb.
    rewrite decide_False by done. by rewrite Hread.
Qed.

Lemma export_unclassified_errors_witness :
  (export_cifti_mapping more.wb_no_file examples.read_table "img.dscalar.nii" ∅).1
  = Raise (FileNotFoundError "0/CortexLeft.txt").
Proof.
  refine (proj1 (export_unclassified_errors more.wb_no_file examples.read_table
            "img.dscalar.nii" ∅ [("Subcortex", " -volume-all '{}' -structure ")]
            [("CortexRight", "-surface CORTEX_RIGHT '{}' ")]
            "CortexLeft" "-surface CORTEX_LEFT '{}' " eq_refl eq_refl _) eq_refl).
  apply Forall_cons. split; [by left|]. apply Forall_nil_2.
Defined.

(** * More on the checks of the extension *)

Section DenseCheck.

Lemma rfind_none_app c s1 s2 :
  rfind c s1 = None → rfind c s2 = None → rfind c (s1 +:+ s2) = None.
Proof. intros H1 H2. by rewrite rfind_app, H2. Qed.

(** A path without a dot has no extension. *)
Lemma splitext_no_dot p : rfind "." p = None → splitext p = (p, "").
Proof.
  intros Hp. unfold splitext, rfind_Z at 2. rewrite Hp.
  pose proof (rfind_Z_bounds "/" p).
  by destruct (Z.ltb_spec (rfind_Z "/" p) (-1)); [lia|].
Qed.

(** The check of the dense path on [stem.e2.nii]. *)
Lemma check_dense_second stem e2 :
  has_stem stem → rfind "." e2 = None → rfind "/" e2 = None →
  check_dense (stem +:+ String "." e2 +:+ ".nii") =
  match e2 with
  | String c _ => if Ascii.eqb c "d" then Ok () else Raise dense_error
  | EmptyString => Raise (IndexError "string index out of range")
  end.
Proof.
  intros Hs Hd Hsep. unfold check_dense.
  destruct (splitext_twice stem e2 "nii" Hs) as [H1 H2]; try done.
  change ".nii" with (String "." "nii"). rewrite H1, H2.
  destruct e2 as [|c e2]; [done|]. simpl. by destruct (Ascii.eqb c "d").
Qed.

Lemma check_dense_single stem :
  has_stem stem → rfind "." stem = None →
  check_dense (stem +:+ ".nii") = Raise (IndexError "string index out of range").
Proof.
  intros Hs Hd. unfold check_dense.
  change ".nii" with (String "." "nii").
  rewrite (splitext_ext stem "nii" Hs) by done.
  by rewrite (splitext_no_dot _ Hd).
Qed.

(** What passes the check of [mask_medial_wall] passes the check of the
    exporter. *)
Lemma check_dscalar_dense image : check_dscalar image = Ok () → check_dense image = Ok ().
Proof.
  unfold check_dscalar, check_dense.
  destruct (splitext image) as [f ext1]. destruct (splitext f) as [f' ext2].
  destruct (String.eqb ext1 ".nii"); [|done]. simpl.
  destruct (String.eqb_spec ext2 ".dscalar") as [->|]; [done|done].
Qed.

Lemma get_last_app x a s :
  String.get (String.length (x +:+ String a s) - 1) (x +:+ String a s)
  = String.get (String.length (String a s) - 1) (String a s).
Proof.
  induction x as [|b x IH]; [done|].
  rewrite append_String.
  replace (String.length (String b (x +:+ String a s)) - 1)%nat
    with (S (String.length (x +:+ String a s) - 1)).
  - simpl String.get at 1. exact IH.
  - simpl. destruct x; simpl; lia.
Qed.

Lemma path_join_relative a b :
  a ≠ "" → ends_with_slash a = false →
  match b with String "/" _ => False | _ => True end →
  path_join a b = a +:+ "/" +:+ b.
Proof.
  intros Ha Hs Hb. unfold path_join. rewrite Hs, bool_decide_false by done. simpl.
  destruct b as [|c b]; [done|].
  destruct (Ascii.eqb_spec c "/") as [->|Hne]; [done|].
  destruct c as [[] [] [] [] [] [] [] []]; try done.
Qed.

Lemma path_join_data root : ∃ x, path_join root "data" = x +:+ "data".
Proof.
  unfold path_join.
  destruct (bool_decide (root = "") || ends_with_slash root).
  - by exists root.
  - exists (root +:+ "/"). by rewrite append_assoc_str.
Qed.

Lemma str_drop_past x c s :
  str_drop (S (String.length x)) (x +:+ String c s) = s.
Proof. induction x as [|b x IH]; [done|]. rewrite append_String. exact IH. Qed.

Lemma has_stem_component x name :
  rfind "/" name = None → all_dots name = false →
  has_stem (x +:+ String "/" name).
Proof.
  intros Hsep Hdots. unfold has_stem, rfind_Z. rewrite rfind_app. simpl.
  rewrite Hsep. simpl.
  replace (Z.to_nat (Z.of_nat (String.length x + 0) + 1)) with (S (String.length x)) by lia.
  by rewrite str_drop_past.
Qed.

(** The path of the reference atlas passes the check of the exporter,
    wherever the package is installed. *)
Lemma check_dense_atlas root : check_dense (dlabel root) = Ok ().
Proof.
  unfold dlabel. destruct (path_join_data root) as [x ->].
  rewrite path_join_relative; [| |by unfold ends_with_slash; rewrite get_last_app|done].
  2: { by destruct x. }
  set (name := "Q1-Q6_RelatedValidation210.CorticalAreas_dil_Final_Final_Areas_Group_Colors.32k_fs_LR").
  change ("Q1-Q6_RelatedValidation210.CorticalAreas_dil_Final_Final_" +:+
          "Areas_Group_Colors.32k_fs_LR.dlabel.nii") with (name +:+ ".dlabel.nii").
  change ((x +:+ "data") +:+ "/" +:+ name +:+ ".dlabel.nii")
    with ((x +:+ "data") +:+ String "/" (name +:+ ".dlabel.nii")).
  replace ((x +:+ "data") +:+ String "/" (name +:+ ".dlabel.nii"))
    with (((x +:+ "data") +:+ String "/" name) +:+ ".dlabel.nii").
  - apply check_dense_dlabel. by apply has_stem_component.
  - by rewrite append_assoc_str.
Qed.

End DenseCheck.

(** X7. The check of the dense path looks at one letter.  On
    [stem.e2.nii] it passes exactly when [e2] begins with [d], whatever
    follows; with an empty [e2], and on [stem.nii] with no other dot, the
    lookup [ext2[1]] raises [IndexError] where a [TypeError] was meant.
    What passes the check of [mask_medial_wall] passes it, and so does
    the path of the reference atlas, wherever the package is installed. *)
Theorem dense_check_by_letter (stem e2 : string) :
  has_stem stem → rfind "." e2 = None → rfind "/" e2 = None →
  (check_dense (stem +:+ String "." e2 +:+ ".nii") = Ok () ↔
   ∃ rest, e2 = String "d" rest) ∧
  (e2 = "" →
   check_dense (stem +:+ String "." e2 +:+ ".nii")
   = Raise (IndexError "string index out of range")) ∧
  (rfind "." stem = None →
   check_dense (stem +:+ ".nii") = Raise (IndexError "string index out of range")) ∧
  (∀ image, check_dscalar image = Ok () → check_dense image = Ok ()) ∧
  (∀ root, check_dense (dlabel root) = Ok ()).
Proof.
  intros Hs Hd Hsep. rewrite (check_dense_second stem e2 Hs Hd Hsep).
  split; [|split; [|split; [|split]]].
  - destruct e2 as [|c e2]; [split; [done|by intros [? ?]]|].
    destruct (Ascii.eqb_spec c "d") as [->|Hne].
    + split; [by eauto|done].
    + split; [done|]. by intros [rest [= -> _]].
  - by intros ->.
  - by apply check_dense_single.
  - apply check_dscalar_dense.
  - apply check_dense_atlas.
Qed.

Lemma dense_check_by_letter_witness :
  check_dense "foo.dconn.nii" = Ok () ∧
  check_dense "foo.nii" = Raise (IndexError "string index out of range").
Proof.
  pose proof (dense_check_by_letter "foo" "dconn" eq_refl eq_refl eq_refl)
    as (Hiff & _ & Hsingle & _).
  split; [apply Hiff; by eexists|by apply Hsingle].
Defined.

(** * More on the mask *)

Section ExporterState.
Variable wb_command : string → string → Z * option string.
Variable read_table : list string → string → result DataFrame.

Abbreviation export_cifti_mapping := (export_cifti_mapping wb_command read_table).

(** The exporter leaves the directories there were as they were, and one
    new directory when the image passes the check of the extension. *)
Lemma export_state image (s : fs) :
  (∀ d, d ∈ dom s → (export_cifti_mapping image s).2 !! d = s !! d) ∧
  (check_dense image = Ok () →
   dom (export_cifti_mapping image s).2 = {[fresh (dom s)]} ∪ dom s) ∧
  (∀ e, check_dense image = Raise e → export_cifti_mapping image s = (Raise e, s)).
Proof.
  destruct (check_dense image) as [[]|e] eqn:Hc.
  - rewrite (export_cifti_mapping_eq _ _ _ _ Hc). cbv zeta.
    set (d := fresh (dom s)).
    assert (d ∉ dom s) as Hfresh by apply is_fresh.
    assert ((<[d := ∅]> s : fs) !! d = Some ∅) as Hd by apply lookup_insert_eq.
    destruct (export_loop_state wb_command read_table image d structure_cmds (∅, [])
                _ _ Hd) as (Hdom & Hother & _ & _).
    assert (∀ T (r : result T) (s' : fs),
              dom s' = dom (<[d := ∅]> s) →
              (∀ d', d ≠ d' → s' !! d' = (<[d := ∅]> s : fs) !! d') →
              (∀ d', d' ∈ dom s → (r, s').2 !! d' = s !! d') ∧
              (Ok () = Ok () → dom (r, s').2 = {[d]} ∪ dom s) ∧
              (∀ e, Ok () = Raise e → (r, s') = (Raise e, s))) as Hgoal.
    { intros T r s' Hdom' Hother'. simpl. split; [|split; [|done]].
      - intros d' Hd'. assert (d ≠ d') by (by intros ->).
        rewrite Hother' by done. by apply lookup_insert_ne.
      - intros _. by rewrite Hdom', dom_insert_L. }
    destruct (for_each_io _ _ _ _) as [[acc|e] s']; simpl in Hdom, Hother.
    + destruct (decide _); by apply Hgoal.
    + by apply Hgoal.
  - rewrite (export_cifti_mapping_rejected _ _ _ _ _ Hc). simpl.
    split; [done|]. split; [done|]. by intros e' [= ->].
Qed.

(** What the exporter returns holds, for each of its structures, the
    table that [read_table] reads from what the tool wrote. *)
Lemma export_Ok_tables image (s : fs) data st :
  check_dense image = Ok () →
  (export_cifti_mapping image s).1 = Ok data →
  st ∈ structures → data !! st = more.table_of wb_command read_table image st.
Proof.
  intros Hc. rewrite (export_cifti_mapping_eq _ _ _ _ Hc). cbv zeta.
  set (d := fresh (dom s)).
  assert ((<[d := ∅]> s : fs) !! d = Some ∅) as Hd by apply lookup_insert_eq.
  pose proof (export_loop_returns wb_command read_table image d structure_cmds (∅, [])
                (<[d := ∅]> s) ∅) as Hret.
  destruct (for_each_io _ _ _ _) as [[acc|e] s'] eqn:Hloop; [|done]. cbn [fst snd] in *.
  destruct (decide (length acc.2 = 0%nat)) as [|Hlen]; [done|].
  simpl. intros [= <-] Hst.
  destruct (Hret acc (structure_names_NoDup) Hd) as (_ & _ & Hin & _); [done|done|done|].
  by apply Hin.
Qed.

(** The exporter returns only when the tool exits with status zero on a
    structure. *)
Lemma export_Ok_present image (s : fs) data :
  check_dense image = Ok () →
  (export_cifti_mapping image s).1 = Ok data →
  ∃ st, st ∈ structures ∧ (wb_command image st).1 = 0.
Proof.
  intros Hc. rewrite (export_cifti_mapping_eq _ _ _ _ Hc). cbv zeta.
  set (d := fresh (dom s)).
  assert ((<[d := ∅]> s : fs) !! d = Some ∅) as Hd by apply lookup_insert_eq.
  pose proof (export_loop_returns wb_command read_table image d structure_cmds (∅, [])
                (<[d := ∅]> s) ∅) as Hret.
  destruct (for_each_io _ _ _ _) as [[acc|e] s'] eqn:Hloop; [|done]. cbn [fst snd] in *.
  destruct (decide (length acc.2 = 0%nat)) as [|Hlen]; [done|].
  intros _.
  destruct (Hret acc (structure_names_NoDup) Hd) as (_ & _ & _ & Hsnd); [done|done|done|].
  rewrite Hsnd in Hlen. cbn [snd app] in Hlen.
  destruct (filter (λ st, (wb_command image st).1 = 0) structure_cmds.*1)
    as [|st sts] eqn:Hf; [done|].
  assert (st ∈ filter (λ st, (wb_command image st).1 = 0) structure_cmds.*1) as Hst
    by (rewrite Hf; apply list_elem_of_here).
  apply list_elem_of_filter in Hst as [Hrc Hst]. by exists st.
Qed.

End ExporterState.

Section MaskState.
Variable nib_load : string → result nib_image.
Variable wb_command : string → string → Z * option string.
Variable read_table : list string → string → result DataFrame.
Variable package_root : string.

Abbreviation export_cifti_mapping := (export_cifti_mapping wb_command read_table).
Abbreviation mask_medial_wall :=
  (mask_medial_wall nib_load wb_command read_table package_root).

(** The function from the first call of the exporter on. *)
Lemma mask_medial_wall_exports surface image (s : fs) sh h :
  check_dscalar image = Ok () →
  load_data nib_load surface = Ok (standard_mesh :: sh) →
  get_hemisphere nib_load surface = Ok h →
  mask_medial_wall surface image s =
  match export_cifti_mapping image s with
  | (Raise e, s1) => (Raise e, s1)
  | (Ok _, s1) =>
      match export_cifti_mapping (dlabel package_root) s1 with
      | (Raise e, s2) => (Raise e, s2)
      | (Ok mappings, s2) => (mask_from standard_mesh h mappings, s2)
      end
  end.
Proof.
  intros Hc Hl Hh. rewrite mask_medial_wall_eq, Hc, Hl. cbn [mbind result_bind list_index lookup list_lookup].
  rewrite decide_False by (by intros ?). by rewrite Hh.
Qed.

End MaskState.

(** X8. [mask_medial_wall] removes nothing and runs the exporter twice.
    Once the image, the surface and its hemisphere are accepted, the call
    leaves the directories there were as they were and two new ones
    beside them when the exporter returns on the image, whether or not
    the mask is then made; one new one when the exporter raises on the
    image, and its error is the error of the call. *)
Theorem mask_scratch_state (nib_load : string → result nib_image)
    (wb_command : string → string → Z * option string)
    (read_table : list string → string → result DataFrame)
    (package_root surface image : string) (s : fs) (sh : list Z) (h : string) :
  check_dscalar image = Ok () →
  load_data nib_load surface = Ok (standard_mesh :: sh) →
  get_hemisphere nib_load surface = Ok h →
  let rs := mask_medial_wall nib_load wb_command read_table package_root surface image s in
  let d1 := fresh (dom s) in
  let d2 := fresh ({[d1]} ∪ dom s) in
  (d1 ∉ dom s) ∧ (d2 ∉ dom s) ∧ d1 ≠ d2 ∧
  (∀ d, d ∈ dom s → rs.2 !! d = s !! d) ∧
  (∀ data, (export_cifti_mapping wb_command read_table image s).1 = Ok data →
     dom rs.2 = {[d1; d2]} ∪ dom s) ∧
  (∀ e, (export_cifti_mapping wb_command read_table image s).1 = Raise e →
     rs.1 = Raise e ∧ dom rs.2 = {[d1]} ∪ dom s) ∧
  (∀ mask, rs.1 = Ok mask → dom rs.2 = {[d1; d2]} ∪ dom s).
Proof.
  intros Hc Hl Hh rs d1 d2. subst rs.
  rewrite (mask_medial_wall_exports _ _ _ _ _ _ _ _ _ Hc Hl Hh).
  assert (d1 ∉ dom s) as Hd1 by apply is_fresh.
  assert (d2 ∉ {[d1]} ∪ dom s) as Hd2 by apply is_fresh.
  apply not_elem_of_union in Hd2 as [Hne Hd2]. apply not_elem_of_singleton in Hne.
  destruct (export_state wb_command read_table image s) as (Hold1 & Hdom1 & _).
  specialize (Hdom1 (check_dscalar_dense _ Hc)). fold d1 in Hdom1.
  destruct (export_cifti_mapping wb_command read_table image s) as [[data|e] s1];
    cbn [fst snd] in *.
  - destruct (export_state wb_command read_table (dlabel package_root) s1)
      as (Hold2 & Hdom2 & _).
    specialize (Hdom2 (check_dense_atlas _)). rewrite Hdom1 in Hdom2. fold d2 in Hdom2.
    assert (dom (export_cifti_mapping wb_command read_table (dlabel package_root) s1).2
            = {[d1; d2]} ∪ dom s) as Hdom.
    { rewrite Hdom2. rewrite (union_comm_L {[d1]} {[d2]}). by rewrite union_assoc_L. }
    assert (∀ d, d ∈ dom s →
              (export_cifti_mapping wb_command read_table (dlabel package_root) s1).2 !! d
              = s !! d) as Hold.
    { intros d Hd. rewrite Hold2; [by apply Hold1|].
      rewrite Hdom1. apply elem_of_union. by right. }
    destruct (export_cifti_mapping wb_command read_table (dlabel package_root) s1)
      as [[mappings|e] s2]; cbn [fst snd] in *.
    + cbn [fst snd]. by split_and!.
    + cbn [fst snd]. by split_and!.
  - cbn [fst snd]. split_and!; try done.
    intros e' [= <-]. done.
Qed.

Lemma mask_scratch_state_witness :
  dom (mask_medial_wall examples.nib_load examples.wb_command examples.read_table
         examples.package_root "L.surf.gii" "img.dscalar.nii" ∅).2
  = {[fresh (dom (∅ : fs)); fresh ({[fresh (dom (∅ : fs))]} ∪ dom (∅ : fs))]} ∪ dom (∅ : fs).
Proof.
  refine (proj1 (proj2 (proj2 (proj2 (proj2 (mask_scratch_state examples.nib_load
            examples.wb_command examples.read_table examples.package_root
            "L.surf.gii" "img.dscalar.nii" ∅ [3] "CortexLeft" eq_refl eq_refl eq_refl)))))
          _ _).
  vm_compute. reflexivity.
Defined.

(** X9. The errors of [mask_medial_wall] before the tool runs, in the
    order of the code: the extension of the image, the loading of the
    surface, the first axis of its data, the size of the mesh, the
    hemisphere.  Each leaves the scratch state as it was: no directory is
    made. *)
Theorem mask_early_errors (nib_load : string → result nib_image)
    (wb_command : string → string → Z * option string)
    (read_table : list string → string → result DataFrame)
    (package_root surface image : string) (s : fs) :
  (check_dscalar image = Ok () ∨ check_dscalar image = Raise dscalar_error) ∧
  (check_dscalar image = Raise dscalar_error →
   mask_medial_wall nib_load wb_command read_table package_root surface image s
   = (Raise dscalar_error, s)) ∧
  (∀ e, check_dscalar image = Ok () → load_data nib_load surface = Raise e →
     mask_medial_wall nib_load wb_command read_table package_root surface image s
     = (Raise e, s)) ∧
  (check_dscalar image = Ok () → load_data nib_load surface = Ok [] →
   mask_medial_wall nib_load wb_command read_table package_root surface image s
   = (Raise (IndexError "tuple index out of range"), s)) ∧
  (∀ nv sh, check_dscalar image = Ok () → load_data nib_load surface = Ok (nv :: sh) →
     nv ≠ standard_mesh →
     mask_medial_wall nib_load wb_command read_table package_root surface image s
     = (Raise (ValueError "Surface must be a standard 32k mesh."), s)) ∧
  (∀ sh e, check_dscalar image = Ok () →
     load_data nib_load surface = Ok (standard_mesh :: sh) →
     get_hemisphere nib_load surface = Raise e →
     mask_medial_wall nib_load wb_command read_table package_root surface image s
     = (Raise e, s)).
Proof.
  rewrite mask_medial_wall_eq. split_and!.
  - unfold check_dscalar. destruct (splitext image) as [f ext1].
    destruct (splitext f) as [f' ext2]. destruct (_ || _); by eauto.
  - by intros ->.
  - by intros e -> ->.
  - by intros -> ->.
  - intros nv sh -> -> Hnv. cbn [mbind result_bind list_index lookup list_lookup].
    by rewrite decide_True.
  - intros sh e -> -> ->. cbn [mbind result_bind list_index lookup list_lookup].
    by rewrite decide_False by (by intros ?).
Qed.

Lemma mask_early_errors_witness :
  mask_medial_wall examples.nib_load examples.wb_command examples.read_table
    examples.package_root "bare.surf.gii" "img.dscalar.nii" ∅
  = (Raise (IndexError "child index out of range"), ∅).
Proof.
  exact (proj2 (proj2 (proj2 (proj2 (proj2 (mask_early_errors examples.nib_load
           examples.wb_command examples.read_table examples.package_root
           "bare.surf.gii" "img.dscalar.nii" ∅)))))
         [3] (IndexError "child index out of range") eq_refl eq_refl eq_refl).
Defined.

Section MaskLastStep.

Lemma position_cases n i :
  (- n ≤ i < n ∧ ∃ p, position n i = Ok p) ∨
  (¬ (- n ≤ i < n) ∧ position n i = Raise (IndexError "index is out of bounds for axis 0")).
Proof.
  unfold position.
  destruct (Z.leb_spec 0 i); destruct (Z.ltb_spec i n); simpl;
    destruct (Z.leb_spec (- n) i); destruct (Z.ltb_spec i 0); simpl;
    first [left; split; [lia|by eauto] | right; split; [lia|done]].
Qed.

Lemma positions_cases n idx :
  (Forall (λ i, - n ≤ i < n) idx ∧ ∃ ps, comprehension (position n) idx = Ok ps) ∨
  (¬ Forall (λ i, - n ≤ i < n) idx ∧
   comprehension (position n) idx = Raise (IndexError "index is out of bounds for axis 0")).
Proof.
  induction idx as [|i idx IH]; simpl.
  { left. split; [constructor|by eauto]. }
  destruct (position_cases n i) as [[Hi [p ->]]|[Hi ->]]; simpl.
  - destruct IH as [[Hall [ps ->]]|[Hall ->]]; simpl.
    + left. split; [by constructor|by eauto].
    + right. split; [|done]. intros H. apply Hall. by inversion H.
  - right. split; [|done]. intros H. apply Hi. by inversion H.
Qed.

Lemma assign_false_cases mask idx :
  (Forall (λ i, - Z.of_nat (length mask) ≤ i < Z.of_nat (length mask)) idx ∧
   ∃ m, assign_false mask idx = Ok m) ∨
  (¬ Forall (λ i, - Z.of_nat (length mask) ≤ i < Z.of_nat (length mask)) idx ∧
   assign_false mask idx = Raise (IndexError "index is out of bounds for axis 0")).
Proof.
  unfold assign_false.
  destruct (positions_cases (Z.of_nat (length mask)) idx) as [[Hall [ps ->]]|[Hall ->]].
  - left. split; [done|]. by eexists.
  - by right.
Qed.

Lemma cells_cases (cells : list cell) :
  (∃ idx, cells = CInt <$> idx) ∨ (∃ c, CStr c ∈ cells).
Proof.
  induction cells as [|[z|c] cells IH].
  - left. by exists [].
  - destruct IH as [[idx ->]|[c Hc]].
    + left. by exists (z :: idx).
    + right. exists c. by apply list_elem_of_further.
  - right. exists c. apply list_elem_of_here.
Qed.

Lemma comprehension_cells_int idx :
  comprehension (λ c, match c with
                      | CInt z => Ok z
                      | CStr _ =>
                          Raise (IndexError
                            "arrays used as indices must be of integer (or boolean) type")
                      end) (CInt <$> idx) = Ok idx.
Proof. induction idx as [|z idx IH]; [done|]. rewrite fmap_cons. simpl. by rewrite IH. Qed.

Lemma comprehension_cells_str cells c :
  CStr c ∈ cells →
  comprehension (λ c, match c with
                      | CInt z => Ok z
                      | CStr _ =>
                          Raise (IndexError
                            "arrays used as indices must be of integer (or boolean) type")
                      end) cells
  = Raise (IndexError "arrays used as indices must be of integer (or boolean) type").
Proof.
  induction cells as [|[z|c'] cells IH]; intros Hin.
  - by apply elem_of_nil in Hin.
  - apply elem_of_cons in Hin as [?|Hin]; [done|]. simpl. by rewrite IH.
  - done.
Qed.

Lemma index_array_int df idx :
  concat (df_values df) = CInt <$> idx → idx ≠ [] → index_array df = Ok idx.
Proof.
  intros Hc Hne. unfold index_array. rewrite Hc.
  destruct idx as [|z idx]; [done|]. rewrite fmap_cons.
  change (CInt z :: (CInt <$> idx)) with (CInt <$> (z :: idx)).
  apply comprehension_cells_int.
Qed.

Lemma index_array_bad df :
  concat (df_values df) = [] ∨ (∃ c, CStr c ∈ concat (df_values df)) →
  index_array df
  = Raise (IndexError "arrays used as indices must be of integer (or boolean) type").
Proof.
  unfold index_array. intros [->|[c Hc]]; [done|].
  destruct (concat (df_values df)) as [|x cells] eqn:Hcells.
  - by apply elem_of_nil in Hc.
  - by eapply comprehension_cells_str.
Qed.

(** The outcomes of the end of [mask_medial_wall]. *)
Lemma mask_from_cases (nv : Z) h mappings :
  (0 ≤ nv)%Z →
  (mappings !! h = None → mask_from nv h mappings = Raise (KeyError h)) ∧
  (∀ table, mappings !! h = Some table →
     concat (df_values table) = [] ∨ (∃ c, CStr c ∈ concat (df_values table)) →
     mask_from nv h mappings
     = Raise (IndexError "arrays used as indices must be of integer (or boolean) type")) ∧
  (∀ table idx, mappings !! h = Some table →
     concat (df_values table) = CInt <$> idx → idx ≠ [] →
     ((∃ mask, mask_from nv h mappings = Ok mask) ↔ Forall (λ i, - nv ≤ i < nv) idx) ∧
     (¬ Forall (λ i, - nv ≤ i < nv) idx →
      mask_from nv h mappings = Raise (IndexError "index is out of bounds for axis 0"))).
Proof.
  intros Hnv. unfold mask_from, getitem. split_and!.
  - by intros ->.
  - intros table -> Hbad. simpl. by rewrite index_array_bad.
  - intros table idx -> Hc Hne. simpl. rewrite (index_array_int _ _ Hc Hne). simpl.
    destruct (assign_false_cases (replicate (Z.to_nat nv) true) idx)
      as [[Hall [m Hm]]|[Hall Hm]];
      rewrite length_replicate, Z2Nat.id in Hall by done; rewrite Hm.
    + split; [by split; [|eauto]|done].
    + split; [|done]. split; [by intros [? ?]|done].
Qed.

End MaskLastStep.

(** X10. The end of [mask_medial_wall], once both calls of the exporter
    have returned.  The table looked up is the one read for the hemisphere
    of the surface from the reference atlas; when the tool finds no such
    structure in the atlas the call raises [KeyError] on the name of the
    hemisphere.  A table without cells, or with a cell that is no integer,
    raises the [IndexError] of the index type.  With integer cells the
    call returns exactly when every index is within [-32492, 32492), and
    raises the [IndexError] of the bounds otherwise. *)
Theorem mask_last_step (nib_load : string → result nib_image)
    (wb_command : string → string → Z * option string)
    (read_table : list string → string → result DataFrame)
    (package_root surface image : string) (s s' : fs) (sh : list Z) (h : string)
    (data mappings : gmap string DataFrame) :
  check_dscalar image = Ok () →
  load_data nib_load surface = Ok (standard_mesh :: sh) →
  get_hemisphere nib_load surface = Ok h →
  (export_cifti_mapping wb_command read_table image s).1 = Ok data →
  (export_cifti_mapping wb_command read_table (dlabel package_root) s').1 = Ok mappings →
  let r := (mask_medial_wall nib_load wb_command read_table package_root
              surface image s).1 in
  mappings !! h = more.table_of wb_command read_table (dlabel package_root) h ∧
  ((wb_command (dlabel package_root) h).1 ≠ 0 → r = Raise (KeyError h)) ∧
  (∀ table, mappings !! h = Some table →
     concat (df_values table) = [] ∨ (∃ c, CStr c ∈ concat (df_values table)) →
     r = Raise (IndexError "arrays used as indices must be of integer (or boolean) type")) ∧
  (∀ table idx, mappings !! h = Some table →
     concat (df_values table) = CInt <$> idx → idx ≠ [] →
     ((∃ mask, r = Ok mask) ↔
      Forall (λ i, - standard_mesh ≤ i < standard_mesh) idx) ∧
     (¬ Forall (λ i, - standard_mesh ≤ i < standard_mesh) idx →
      r = Raise (IndexError "index is out of bounds for axis 0"))).
Proof.
  intros Hc Hl Hh Hdata Hmaps r. subst r.
  rewrite (mask_medial_wall_exports _ _ _ _ _ _ _ _ _ Hc Hl Hh).
  destruct (export_cifti_mapping wb_command read_table image s) as [[data'|] s1]; [|done].
  pose proof (export_independent_of_state wb_command read_table _ s' s1 _ Hmaps) as Hmaps1.
  destruct (export_cifti_mapping wb_command read_table (dlabel package_root) s1)
    as [[ms|] s2]; [|done].
  cbn [fst snd] in *. injection Hmaps1 as ->.
  assert (mappings !! h = more.table_of wb_command read_table (dlabel package_root) h)
    as Htable.
  { eapply export_Ok_tables; [apply check_dense_atlas|exact Hmaps|].
    apply get_hemisphere_values in Hh as [-> | ->]; unfold structures;
      [apply list_elem_of_further, list_elem_of_here
      |apply list_elem_of_further, list_elem_of_further, list_elem_of_here]. }
  assert (0 ≤ standard_mesh)%Z as Hpos by done.
  generalize dependent standard_mesh. intros nv Hl Hpos.
  destruct (mask_from_cases nv h mappings Hpos) as (Hnone & Hbad & Hint).
  split; [done|]. split; [|split; [done|done]].
  intros Hrc. apply Hnone. rewrite Htable. unfold more.table_of.
  destruct (wb_command (dlabel package_root) h) as [rc out]. simpl in Hrc.
  destruct rc; [done|by destruct out..].
Qed.

Lemma mask_last_step_witness :
  (mask_medial_wall examples.nib_load more.wb_right_only examples.read_table
     examples.package_root "L.surf.gii" "img.dscalar.nii" ∅).1
  = Raise (KeyError "CortexLeft").
Proof.
  refine (proj1 (proj2 (mask_last_step examples.nib_load more.wb_right_only
            examples.read_table examples.package_root "L.surf.gii" "img.dscalar.nii"
            ∅ ∅ [3] "CortexLeft" _ _ eq_refl eq_refl eq_refl _ _)) _).
  - vm_compute. reflexivity.
  - vm_compute. reflexivity.
  - vm_compute. done.
Defined.

Section MaskInputs.
Variable nib_load : string → result nib_image.

(** What [get_hemisphere] looked at, when it returns. *)
Lemma get_hemisphere_Ok surface st :
  get_hemisphere nib_load surface = Ok st ↔
  ∃ d ds root md mds name value rest,
    nib_load surface = Ok (GiftiImage (d :: ds)) ∧
    da_meta d = Ok root ∧
    children root = md :: mds ∧
    children md = name :: value :: rest ∧
    text value = Some st ∧
    (st = "CortexLeft" ∨ st = "CortexRight").
Proof.
  split.
  - intros H. pose proof (get_hemisphere_values _ _ _ H) as Hst.
    unfold get_hemisphere in H.
    destruct (nib_load surface) as [[ds| |]|]; simpl in H; [|done|done|done].
    destruct ds as [|d ds]; simpl in H; [done|].
    destruct (da_meta d) as [root|] eqn:Hroot; simpl in H; [|done].
    destruct (children root) as [|md mds] eqn:Hmd; simpl in H; [done|].
    destruct (children md) as [|name [|value rest]] eqn:Hv; simpl in H; [done|done|].
    destruct (text value) as [t|] eqn:Ht; simpl in H; [|done].
    destruct (String.eqb t "CortexRight" || String.eqb t "CortexLeft"); simpl in H; [|done].
    injection H as ->. by exists d, ds, root, md, mds, name, value, rest.
  - intros (d & ds & root & md & mds & name & value & rest & Hl & Hm & Hr & Hc & Ht & Hst).
    unfold get_hemisphere. rewrite Hl. simpl. rewrite Hm. simpl. rewrite Hr. simpl.
    rewrite Hc. simpl. rewrite Ht. by destruct Hst as [-> | ->].
Qed.

(** The [TypeError] of the handler is never raised on metadata that
    parse. *)
Lemma get_hemisphere_no_type_error surface d ds root :
  nib_load surface = Ok (GiftiImage (d :: ds)) →
  da_meta d = Ok root →
  get_hemisphere nib_load surface
  ≠ Raise (TypeError "Surface file metadata has unexpected structure.").
Proof.
  intros Hl Hm. unfold get_hemisphere. rewrite Hl. simpl. rewrite Hm. simpl.
  destruct (children root) as [|md mds]; simpl; [done|].
  destruct (children md) as [|name [|value rest]]; simpl; [done|done|].
  destruct (text value) as [t|]; simpl; [|done].
  by destruct (String.eqb t "CortexRight" || String.eqb t "CortexLeft").
Qed.

(** A surface that [load_data] and [get_hemisphere] both accept is a
    GIFTI file by its extension. *)
Lemma load_data_gifti surface ds sh :
  nib_load surface = Ok (GiftiImage ds) →
  load_data nib_load surface = Ok sh →
  (splitext surface).2 = ".gii" ∧ ∃ d ds', ds = d :: ds' ∧ da_shape d = sh.
Proof.
  intros Hl. unfold load_data.
  destruct (String.eqb_spec (splitext surface).2 ".gii") as [Hext|_].
  - unfold load_gifti. rewrite Hl. simpl. destruct ds as [|d ds']; simpl; [done|].
    intros [= <-]. by eauto.
  - destruct (String.eqb (splitext surface).2 ".nii"); [|done].
    unfold load_nifti. by rewrite Hl.
Qed.

End MaskInputs.

(** X11. What [get_hemisphere] returns, it read from the text of the
    second child of the first entry of the metadata of the first data
    array, and it returns exactly when that text is "CortexLeft" or
    "CortexRight": the name of the entry, the other entries and the other
    arrays are not looked at.  On metadata that parse, the [TypeError] of
    its handler is never raised. *)
Theorem get_hemisphere_returns (nib_load : string → result nib_image)
    (surface st : string) :
  (get_hemisphere nib_load surface = Ok st ↔
   ∃ d ds root md mds name value rest,
     nib_load surface = Ok (GiftiImage (d :: ds)) ∧
     da_meta d = Ok root ∧
     children root = md :: mds ∧
     children md = name :: value :: rest ∧
     text value = Some st ∧
     (st = "CortexLeft" ∨ st = "CortexRight")) ∧
  (∀ d ds root,
     nib_load surface = Ok (GiftiImage (d :: ds)) → da_meta d = Ok root →
     get_hemisphere nib_load surface
     ≠ Raise (TypeError "Surface file metadata has unexpected structure.")).
Proof.
  split; [apply get_hemisphere_Ok|]. intros d ds root. apply get_hemisphere_no_type_error.
Qed.

Section MaskSets.

Lemma mask_eq_iff (nv : Z) (m1 m2 : list bool) (idx1 idx2 : list Z) :
  (0 < nv)%Z → Z.of_nat (length m1) = nv → Z.of_nat (length m2) = nv →
  (∀ p : nat, (Z.of_nat p < nv)%Z →
     m1 !! p = Some (bool_decide (Z.of_nat p ∉ (λ i, i `mod` nv) <$> idx1))) →
  (∀ p : nat, (Z.of_nat p < nv)%Z →
     m2 !! p = Some (bool_decide (Z.of_nat p ∉ (λ i, i `mod` nv) <$> idx2))) →
  m1 = m2 ↔
  ∀ z, z ∈ ((λ i, i `mod` nv) <$> idx1) ↔ z ∈ ((λ i, i `mod` nv) <$> idx2).
Proof.
  intros Hnv Hl1 Hl2 H1 H2. split.
  - intros <-.
    assert (∀ (idx : list Z) z, z ∈ ((λ i, i `mod` nv) <$> idx) → (0 ≤ z < nv)%Z)
      as Hrange.
    { intros idx z (i & -> & _)%list_elem_of_fmap. apply Z.mod_pos_bound. lia. }
    assert (∀ z, (0 ≤ z < nv)%Z →
              (z ∈ ((λ i, i `mod` nv) <$> idx1) ↔ z ∈ ((λ i, i `mod` nv) <$> idx2)))
      as Hin.
    { intros z Hz. specialize (H1 (Z.to_nat z)). specialize (H2 (Z.to_nat z)).
      rewrite Z2Nat.id in H1, H2 by lia. rewrite H1 in H2 by lia.
      specialize (H2 ltac:(lia)). injection H2 as H2.
      destruct (decide (z ∈ (λ i, i `mod` nv) <$> idx1)) as [Ha|Ha];
        destruct (decide (z ∈ (λ i, i `mod` nv) <$> idx2)) as [Hb|Hb]; try tauto.
      + rewrite (bool_decide_false (z ∉ _)), (bool_decide_true (z ∉ _)) in H2 by tauto.
        done.
      + rewrite (bool_decide_true (z ∉ _)), (bool_decide_false (z ∉ _)) in H2 by tauto.
        done. }
    intros z. split; intros Hz; apply Hin; eauto.
  - intros Hset. apply list_eq. intros p.
    destruct (decide (Z.of_nat p < nv)%Z) as [Hp|Hp].
    + rewrite H1, H2 by done. f_equal. apply bool_decide_ext. by rewrite Hset.
    + rewrite !lookup_ge_None_2; [done|lia|lia].
Qed.

End MaskSets.

(** X12. The mask depends on the reference atlas through the set of
    vertices that the table of the hemisphere names, and on nothing else
    of the tool or of the reader.  Of two worlds with the same surface
    file, each with its tool, reader, atlas and image, in which
    [mask_medial_wall] returns: the two masks are equal exactly when the
    two tables name the same vertices, whatever the order of the rows,
    their repetitions and their labels. *)
Theorem mask_by_vertex_set (nib_load : string → result nib_image)
    (wb1 wb2 : string → string → Z * option string)
    (rt1 rt2 : list string → string → result DataFrame)
    (root1 root2 surface image1 image2 : string) (s1 s2 : fs) (m1 m2 : list bool) :
  (mask_medial_wall nib_load wb1 rt1 root1 surface image1 s1).1 = Ok m1 →
  (mask_medial_wall nib_load wb2 rt2 root2 surface image2 s2).1 = Ok m2 →
  ∃ h t1 t2 idx1 idx2,
    get_hemisphere nib_load surface = Ok h ∧
    more.table_of wb1 rt1 (dlabel root1) h = Some t1 ∧
    more.table_of wb2 rt2 (dlabel root2) h = Some t2 ∧
    concat (df_values t1) = CInt <$> idx1 ∧
    concat (df_values t2) = CInt <$> idx2 ∧
    (m1 = m2 ↔
     ∀ z, z ∈ ((λ i, i `mod` standard_mesh) <$> idx1)
          ↔ z ∈ ((λ i, i `mod` standard_mesh) <$> idx2)).
Proof.
  intros H1 H2.
  apply mask_medial_wall_Ok in H1 as (sh1 & h & u1 & ms1 & _ & Hh & Hexp1 & Hm1).
  apply mask_medial_wall_Ok in H2 as (sh2 & h' & u2 & ms2 & _ & Hh' & Hexp2 & Hm2).
  rewrite Hh in Hh'. injection Hh' as <-.
  assert (h ∈ structures) as Hst.
  { apply get_hemisphere_values in Hh as [-> | ->]; unfold structures;
      [apply list_elem_of_further, list_elem_of_here
      |apply list_elem_of_further, list_elem_of_further, list_elem_of_here]. }
  pose proof (export_Ok_tables wb1 rt1 _ _ _ h (check_dense_atlas root1) Hexp1 Hst) as Ht1.
  pose proof (export_Ok_tables wb2 rt2 _ _ _ h (check_dense_atlas root2) Hexp2 Hst) as Ht2.
  apply mask_from_Ok in Hm1 as (t1 & idx1 & Hl1 & Hc1 & Hlen1 & Hlook1 & _).
  apply mask_from_Ok in Hm2 as (t2 & idx2 & Hl2 & Hc2 & Hlen2 & Hlook2 & _).
  exists h, t1, t2, idx1, idx2. rewrite <- Ht1, <- Ht2.
  split_and!; try done.
  assert (0 < standard_mesh)%Z as Hpos by done.
  generalize dependent standard_mesh. intros nv. intros.
  by apply mask_eq_iff.
Qed.

Lemma mask_by_vertex_set_witness :
  ∃ h t1 t2,
    get_hemisphere examples.nib_load "L.surf.gii" = Ok h ∧
    more.table_of examples.wb_command examples.read_table
      (dlabel examples.package_root) h = Some t1 ∧
    more.table_of more.wb_shuffled examples.read_table (dlabel "/opt/brainsmash") h
    = Some t2.
Proof.
  assert ((mask_medial_wall examples.nib_load examples.wb_command examples.read_table
             examples.package_root "L.surf.gii" "img.dscalar.nii" ∅).1
          = Ok examples.left_mask) as H1
    by vm_cast_no_check (eq_refl (Ok examples.left_mask)).
  assert ((mask_medial_wall examples.nib_load more.wb_shuffled examples.read_table
             "/opt/brainsmash" "L.surf.gii" "other.dscalar.nii" ∅).1
          = Ok examples.left_mask) as H2
    by vm_cast_no_check (eq_refl (Ok examples.left_mask)).
  destruct (mask_by_vertex_set _ _ _ _ _ _ _ _ _ _ _ _ _ _ H1 H2)
    as (h & t1 & t2 & idx1 & idx2 & Hh & Ht1 & Ht2 & _).
  exists h, t1, t2. split; [exact Hh|]. split; [exact Ht1|exact Ht2].
Defined.

(** X13. A mask is returned only for an image path that passes the check
    of [.dscalar.nii] and a surface path of extension [.gii] that is
    loaded as a GIFTI image whose first data array has 32,492 entries
    along its first axis and metadata naming the hemisphere; and only
    when the tool exits with status zero on that hemisphere of the
    reference atlas and on some structure of the image. *)
Theorem mask_returns_only_for (nib_load : string → result nib_image)
    (wb_command : string → string → Z * option string)
    (read_table : list string → string → result DataFrame)
    (package_root surface image : string) (s : fs) (mask : list bool) :
  (mask_medial_wall nib_load wb_command read_table package_root surface image s).1
  = Ok mask →
  check_dscalar image = Ok () ∧
  (splitext surface).2 = ".gii" ∧
  (∃ d ds sh h,
     nib_load surface = Ok (GiftiImage (d :: ds)) ∧
     da_shape d = standard_mesh :: sh ∧
     get_hemisphere nib_load surface = Ok h ∧
     (wb_command (dlabel package_root) h).1 = 0) ∧
  (∃ st, st ∈ structures ∧ (wb_command image st).1 = 0).
Proof.
  intros H.
  assert (check_dscalar image = Ok () ∧
          ∃ data, (export_cifti_mapping wb_command read_table image s).1 = Ok data)
    as [Hc [data Hdata]].
  { rewrite mask_medial_wall_eq in H.
    destruct (check_dscalar image) as [[]|]; [|done]. split; [done|].
    destruct (load_data nib_load surface ≫= _) as [nv|]; [|done].
    destruct (decide _); [done|].
    destruct (get_hemisphere nib_load surface); [|done].
    destruct (export_cifti_mapping wb_command read_table image s) as [[data|] s1]; [|done].
    by exists data. }
  apply mask_medial_wall_Ok in H as (sh & h & u & ms & Hl & Hh & Hexp & Hm).
  split; [done|].
  pose proof Hh as Hh'.
  apply get_hemisphere_Ok in Hh' as (d & ds & root & md & mds & name & value & rest
                                     & Hload & _ & _ & _ & _ & Hst).
  destruct (load_data_gifti nib_load _ _ _ Hload Hl) as (Hext & d' & ds' & [= <- <-] & Hsh).
  split; [done|]. split.
  - exists d, ds, sh, h. split_and!; try done.
    assert (h ∈ structures) as Hin.
    { destruct Hst as [-> | ->]; unfold structures;
        [apply list_elem_of_further, list_elem_of_here
        |apply list_elem_of_further, list_elem_of_further, list_elem_of_here]. }
    pose proof (export_Ok_tables wb_command read_table _ _ _ h
                  (check_dense_atlas package_root) Hexp Hin) as Ht.
    unfold mask_from in Hm. apply bind_Ok_inv in Hm as (table & Hget & _).
    apply getitem_Ok in Hget. rewrite Hget in Ht. unfold more.table_of in Ht.
    destruct (wb_command (dlabel package_root) h) as [[|?|?] [?|]]; done.
  - by eapply export_Ok_present; [apply check_dscalar_dense|].
Qed.

Lemma mask_returns_only_for_witness :
  (splitext "L.surf.gii").2 = ".gii" ∧
  ∃ st, st ∈ structures ∧ (examples.wb_command "img.dscalar.nii" st).1 = 0.
Proof.
  assert ((mask_medial_wall examples.nib_load examples.wb_command examples.read_table
             examples.package_root "L.surf.gii" "img.dscalar.nii" ∅).1
          = Ok examples.left_mask) as H
    by vm_cast_no_check (eq_refl (Ok examples.left_mask)).
  destruct (mask_returns_only_for _ _ _ _ _ _ _ _ H) as (_ & Hext & _ & Hst).
  split; [exact Hext|exact Hst].
Defined.

(** * More on the loaders *)

(** X14. [load_data] goes by the extension alone.  It returns only on a
    [.gii] path that is loaded as a GIFTI image with a data array, with
    the shape of the first one, and on a [.nii] path that is loaded as a
    CIFTI or NIfTI image, with the shape of its data less the axes of
    length one.  A file of the other kind under either extension raises
    [AttributeError], a GIFTI image without data arrays [IndexError], and
    any other extension [TypeError] whatever the file is. *)
Theorem load_data_outcomes (nib_load : string → result nib_image) (f : string) :
  (∀ sh, load_data nib_load f = Ok sh →
     ((splitext f).2 = ".gii" ∧
      ∃ d ds, nib_load f = Ok (GiftiImage (d :: ds)) ∧ sh = da_shape d) ∨
     ((splitext f).2 = ".nii" ∧
      ∃ sh0, (nib_load f = Ok (Cifti2Image sh0) ∨
              ∃ cls exts, nib_load f = Ok (NiftiImage cls sh0 exts)) ∧
             sh = filter (λ n, n ≠ 1) sh0 ∧ 1 ∉ sh)) ∧
  (∀ sh0, (splitext f).2 = ".gii" → nib_load f = Ok (Cifti2Image sh0) →
     load_data nib_load f
     = Raise (AttributeError "'Cifti2Image' object has no attribute 'darrays'")) ∧
  (∀ cls sh0 exts, (splitext f).2 = ".gii" → nib_load f = Ok (NiftiImage cls sh0 exts) →
     load_data nib_load f
     = Raise (AttributeError ("'" +:+ cls +:+ "' object has no attribute 'darrays'"))) ∧
  ((splitext f).2 = ".gii" → nib_load f = Ok (GiftiImage []) →
   load_data nib_load f = Raise (IndexError "list index out of range")) ∧
  (∀ ds, (splitext f).2 = ".nii" → nib_load f = Ok (GiftiImage ds) →
     load_data nib_load f
     = Raise (AttributeError "'GiftiImage' object has no attribute 'get_data'")) ∧
  ((splitext f).2 ≠ ".gii" → (splitext f).2 ≠ ".nii" →
   load_data nib_load f = Raise (TypeError ("Unrecognized file type: " +:+ f))).
Proof.
  unfold load_data, load_gifti, load_nifti. split_and!.
  - intros sh. destruct (String.eqb_spec (splitext f).2 ".gii") as [Hg|Hg].
    + destruct (nib_load f) as [[[|d ds]| |]|]; simpl; try done.
      intros [= <-]. left. by eauto.
    + destruct (String.eqb_spec (splitext f).2 ".nii") as [Hn|Hn]; [|done].
      destruct (nib_load f) as [[|sh0|cls sh0 exts]|]; simpl; try done.
      * intros [= <-]. right. split; [done|]. exists sh0. split_and!; [by left|done|].
        intros Hin. by apply list_elem_of_filter in Hin as [? _].
      * intros [= <-]. right. split; [done|]. exists sh0.
        split_and!; [right; by eauto|done|].
        intros Hin. by apply list_elem_of_filter in Hin as [? _].
  - intros sh0 -> ->. done.
  - intros cls sh0 exts -> ->. done.
  - intros -> ->. done.
  - intros ds Hext ->. rewrite Hext. done.
  - intros Hg Hn. destruct (String.eqb_spec (splitext f).2 ".gii"); [done|].
    by destruct (String.eqb_spec (splitext f).2 ".nii").
Qed.

Lemma load_data_outcomes_witness :
  ((splitext "L.surf.gii").2 = ".gii" ∧
   ∃ d ds, examples.nib_load "L.surf.gii" = Ok (GiftiImage (d :: ds)) ∧
           [32492; 3] = da_shape d) ∨
  ((splitext "L.surf.gii").2 = ".nii" ∧
   ∃ sh0, (examples.nib_load "L.surf.gii" = Ok (Cifti2Image sh0) ∨
           ∃ cls exts, examples.nib_load "L.surf.gii" = Ok (NiftiImage cls sh0 exts)) ∧
          [32492; 3] = filter (λ n, n ≠ 1) sh0 ∧ 1 ∉ [32492; 3]).
Proof.
  exact (proj1 (load_data_outcomes examples.nib_load "L.surf.gii") [32492; 3] eq_refl).
Defined.

(** * More on the walker *)

Section Trees.

Lemma element_children_ind (P : element → Prop)
    (H : ∀ t a x cs, Forall P cs → P (Element t a x cs)) :
  ∀ e, P e.
Proof.
  fix IH 1. intros [t a x cs]. apply H.
  induction cs as [|c cs IHcs]; [apply Forall_nil_2|].
  apply Forall_cons_2; [apply IH|apply IHcs].
Qed.

Lemma walk_eq q e :
  walk q e = (q, e) :: mjoin (walk (Some e) <$> children e).
Proof.
  destruct e as [t a x cs]. simpl. f_equal.
  generalize (Element t a x cs). intros p.
  induction cs as [|c cs IH]; [done|]. simpl. by rewrite IH.
Qed.

(** The pairs of a walk: the node the walk starts from, with the parent
    it is given, and below it every child with its own parent. *)
Lemma walk_parent e :
  ∀ q p c, (Some p, c) ∈ walk q e →
    (q = Some p ∧ c = e) ∨ ((∃ q', (q', p) ∈ walk q e) ∧ c ∈ children p).
Proof.
  induction e as [t a x cs IH] using element_children_ind. intros q p c.
  rewrite walk_eq. set (e := Element t a x cs) in *.
  intros [Hhd|Hin]%elem_of_cons.
  { injection Hhd as <- ->. by left. }
  right. apply list_elem_of_join in Hin as (l & Hc & Hl).
  apply list_elem_of_fmap in Hl as (c' & -> & Hc').
  rewrite Forall_forall in IH.
  destruct (IH c' Hc' (Some e) p c Hc) as [[[= <-] ->]|[[q' Hq'] Hchild]].
  - split; [|done]. exists q. apply list_elem_of_here.
  - split; [|done]. exists q'. apply list_elem_of_further.
    apply list_elem_of_join. exists (walk (Some e) c'). split; [done|].
    apply list_elem_of_fmap. by exists c'.
Qed.

Lemma walk_no_parent e q c : (None, c) ∈ walk (Some q) e → False.
Proof.
  revert q c. induction e as [t a x cs IH] using element_children_ind. intros q c.
  rewrite walk_eq. set (e := Element t a x cs) in *.
  intros [Hhd|Hin]%elem_of_cons; [done|].
  apply list_elem_of_join in Hin as (l & Hc & Hl).
  apply list_elem_of_fmap in Hl as (c' & -> & Hc').
  rewrite Forall_forall in IH. by eapply IH.
Qed.

Lemma walk_root root c : (None, c) ∈ walk None root → c = root.
Proof.
  rewrite walk_eq. intros [Hhd|Hin]%elem_of_cons; [by injection Hhd|].
  apply list_elem_of_join in Hin as (l & Hc & Hl).
  apply list_elem_of_fmap in Hl as (c' & -> & Hc').
  by apply walk_no_parent in Hc.
Qed.

End Trees.

Section Owners.

Lemma plabel2idx_of_names root names P :
  parcel_names root = Ok names → plabel2idx_of root = Ok P →
  P = (foldl assign (∅, 0) names).1.
Proof.
  unfold parcel_names, plabel2idx_of. intros Hn. rewrite plabel2idx_loop, Hn. simpl.
  by intros [= <-].
Qed.

Lemma iter_walk t root pn : pn ∈ iter t root ↔ pn ∈ walk None root ∧ tag pn.2 = t.
Proof. unfold iter. rewrite list_elem_of_filter. tauto. Qed.

End Owners.

(** X15. The parcel a [Vertices] node is entered under.  The node has a
    parent in the tree, whose child it is, and the ordinal it is entered
    under is the position, among the [Parcel] nodes in document order, of
    the last one that has the name of that parent, whether or not the
    parent is a [Parcel] node.  When the parent is a [Parcel] node and the
    names are pairwise distinct, this is the position of the parent
    itself. *)
Theorem vertices_owner (root : element) (names : list string) (P : gmap string Z)
    (pn : option element * element) (e : string * Z * list Z) :
  parcel_names root = Ok names → plabel2idx_of root = Ok P →
  pn ∈ iter "Vertices" root → entered P pn e →
  ∃ parent name q (j : nat),
    pn.1 = Some parent ∧ (q, parent) ∈ walk None root ∧ pn.2 ∈ children parent ∧
    attrib parent !! "Name" = Some name ∧
    e.1.2 = Z.of_nat j ∧ names !! j = Some name ∧
    (∀ j' : nat, (j < j')%nat → names !! j' ≠ Some name) ∧
    (tag parent = "Parcel" → NoDup names → iter "Parcel" root !! j = Some (q, parent)).
Proof.
  intros Hnames HP Hpn (parent & name & structure & t & Hp & Hname & Hord & _).
  rewrite (plabel2idx_of_names _ _ _ Hnames HP) in Hord.
  apply foldl_assign_lookup in Hord as [(j & Hj & Hi & Hlast)|[_ Habs]];
    [|by rewrite lookup_empty in Habs].
  apply iter_walk in Hpn as [Hwalk _]. destruct pn as [q0 c]. simpl in Hp. subst q0.
  apply walk_parent in Hwalk as [[? _]|[[q Hq] Hchild]]; [done|].
  exists parent, name, q, j. split_and!; [done|done|done|done|lia|done|done|].
  intros Htag Hnd.
  assert ((q, parent) ∈ iter "Parcel" root) as Hin by (by apply iter_walk).
  apply list_elem_of_lookup in Hin as [j0 Hj0].
  unfold parcel_names in Hnames. apply comprehension_Ok in Hnames.
  destruct (Forall2_lookup_l _ _ _ _ _ Hnames Hj0) as (n0 & Hn0 & Hget).
  apply getitem_Ok in Hget. simpl in Hget. rewrite Hname in Hget. injection Hget as <-.
  by rewrite (NoDup_lookup _ _ _ _ Hnd Hj Hn0).
Qed.

Lemma vertices_owner_witness :
  ∃ parent name q (j : nat),
    (q, parent) ∈ walk None examples.one_parcel ∧
    examples.vertices_A ∈ children parent ∧
    attrib parent !! "Name" = Some name ∧
    iter "Parcel" examples.one_parcel !! j = Some (q, parent).
Proof.
  destruct (vertices_owner examples.one_parcel ["A"] {["A" := 0]}
              (Some (Element "Parcel" {["Name" := "A"]} None [examples.vertices_A]),
               examples.vertices_A)
              ("CortexLeft", 0, [3; 7; 9]) eq_refl eq_refl)
    as (parent & name & q & j & Hp & Hq & Hc & Hn & _ & _ & _ & Hpos).
  - apply iter_walk. split; [|reflexivity].
    do 4 apply list_elem_of_further. apply list_elem_of_here.
  - eexists _, "A", "CIFTI_STRUCTURE_CORTEX_LEFT", "3 7 9".
    split; [reflexivity|]. split; [reflexivity|]. split; [reflexivity|].
    split; [reflexivity|]. split; [reflexivity|]. split; reflexivity.
  - exists parent, name, q, j. split; [exact Hq|]. split; [exact Hc|].
    split; [exact Hn|]. apply Hpos.
    + simpl in Hp. by injection Hp as <-.
    + apply NoDup_singleton.
Defined.

Section Voxels.

(** [reshape(-1, 3)] regroups and loses nothing. *)
Lemma reshape3_flatten {A} (l : list A) v : reshape3 l = Ok v → more.flatten3 v = l.
Proof.
  revert l. induction v as [|e v IH]; intros l.
  - destruct l as [|x [|y [|z l']]]; simpl; try done.
    by destruct (reshape3 l').
  - destruct l as [|x [|y [|z l']]]; simpl; try done.
    destruct (reshape3 l') as [r|] eqn:Hr; simpl; [|done].
    intros [= <- <-]. unfold more.flatten3. simpl. f_equal. f_equal. f_equal.
    by apply IH.
Qed.

(** What [np.array] keeps of a list of integers. *)
Lemma np_array_cases l :
  np_array l = IntArray l ∨ np_array l = FloatArray (map float_of_Z l).
Proof.
  destruct l as [|z l]; [by right|]. unfold np_array.
  destruct (forallb fits_int64 _); [by left|].
  destruct (forallb (λ z, negb (fits_int64 z) && fits_uint64 z) _); [by left|].
  destruct (forallb (λ z, fits_int64 z || fits_uint64 z) _); [by right|by left].
Qed.

Lemma np_array_int64 l :
  l ≠ [] → Forall (λ z, - 2 ^ 63 ≤ z < 2 ^ 63)%Z l → np_array l = IntArray l.
Proof.
  intros Hne Hall.
  assert (forallb fits_int64 l = true) as Hfit.
  { clear Hne. induction Hall as [|x l [Hlo Hhi] _ IH]; [done|]. cbn [forallb]. rewrite IH.
    unfold fits_int64. rewrite andb_true_r. apply andb_true_intro.
    split; [by apply Z.leb_le|by apply Z.ltb_lt]. }
  destruct l as [|z l]; [done|]. unfold np_array. by rewrite Hfit.
Qed.

Lemma reshape_voxels_holds flat g : reshape_voxels flat = Ok g → more.holds g flat.
Proof.
  unfold reshape_voxels. intros H.
  destruct (np_array_cases flat) as [Hnp|Hnp]; rewrite Hnp in H.
  - apply bind_Ok_inv in H as (v & Hv & [= <-]). simpl. by apply reshape3_flatten.
  - apply bind_Ok_inv in H as (v & Hv & [= <-]). simpl. by apply reshape3_flatten.
Qed.

Lemma reshape_voxels_int64 flat g :
  flat ≠ [] → Forall (λ z, - 2 ^ 63 ≤ z < 2 ^ 63)%Z flat →
  reshape_voxels flat = Ok g → ∃ v, g = VoxelArray v ∧ more.flatten3 v = flat.
Proof.
  intros Hne Hall. unfold reshape_voxels. rewrite (np_array_int64 _ Hne Hall).
  intros H. apply bind_Ok_inv in H as (v & Hv & [= <-]).
  exists v. split; [done|]. by apply reshape3_flatten.
Qed.

Lemma voxels_body_entered P m pn m' :
  voxels_body P m pn = Ok m' →
  ∃ e inner, more.entered_voxels P pn e ∧ m !! "Subcortex" = Some inner ∧
             m' = <["Subcortex" := more.enter_voxels inner e]> m.
Proof.
  unfold voxels_body. intros H.
  apply bind_Ok_inv in H as (parent & Hp & H).
  apply bind_Ok_inv in H as (name & Hn & H).
  apply bind_Ok_inv in H as (k & Hk & H).
  apply bind_Ok_inv in H as (pieces & Ht & H).
  apply bind_Ok_inv in H as (flat & Hflat & H).
  apply bind_Ok_inv in H as (voxels & Hv & H).
  apply setitem2_Ok in H as (inner & Hinner & ->).
  unfold parent_of in Hp. destruct pn.1 as [p|] eqn:Hp1; [|done]. injection Hp as ->.
  unfold text_split in Ht. destruct (text pn.2) as [t|] eqn:Htext; [|done].
  injection Ht as <-. apply getitem_Ok in Hn, Hk.
  exists (k, voxels), inner. split; [|done].
  by exists parent, name, t, flat.
Qed.

Lemma voxels_loop_entered P l m0 m inner0 :
  for_each (voxels_body P) l m0 = Ok m → m0 !! "Subcortex" = Some inner0 →
  ∃ ventries,
    Forall2 (more.entered_voxels P) l ventries ∧
    m !! "Subcortex" = Some (foldl more.enter_voxels inner0 ventries).
Proof.
  revert m0 inner0. induction l as [|pn l IH]; intros m0 inner0; simpl.
  - intros [= <-] H0. exists []. split; [constructor|done].
  - intros H H0. apply bind_Ok_inv in H as (m1 & H1 & H).
    apply voxels_body_entered in H1 as (e & inner & He & Hinner & ->).
    rewrite H0 in Hinner. injection Hinner as <-.
    destruct (IH _ (more.enter_voxels inner0 e) H) as (ventries & Hall & Hlook).
    { apply lookup_insert_eq. }
    exists (e :: ventries). split; [by constructor|done].
Qed.

Lemma parcel_to_vertex_of_voxels root m :
  parcel_to_vertex_of root = Ok m →
  ∃ P ventries,
    plabel2idx_of root = Ok P ∧
    Forall2 (more.entered_voxels P) (iter "VoxelIndicesIJK" root) ventries ∧
    m !! "Subcortex" = Some (foldl more.enter_voxels ∅ ventries).
Proof.
  unfold parcel_to_vertex_of. intros H.
  apply bind_Ok_inv in H as (P & HP & H).
  apply bind_Ok_inv in H as (m1 & H1 & H).
  apply vertices_loop in H1 as (entries & Hent & _ & Hlook).
  assert (m1 !! "Subcortex" = Some ∅) as Hsub.
  { rewrite (Hlook "Subcortex" ∅ eq_refl). f_equal. apply foldl_enter_absent.
    eapply Forall2_Forall_r; [exact Hent|]. apply Forall_forall.
    intros pn _ e (_ & _ & structure & _ & _ & _ & _ & _ & Hkey & _).
    unfold structure_key in Hkey. intros Heq. rewrite Heq in Hkey.
    by repeat destruct (String.eqb _ _). }
  destruct (voxels_loop_entered _ _ _ _ _ H Hsub) as (ventries & Hall & Hm).
  by exists P, ventries.
Qed.

End Voxels.

(** X16. What the walker returns under "Subcortex" is what the
    [VoxelIndicesIJK] nodes enter in document order and nothing else:
    each node enters, under the ordinal of the name of its parent, the
    array that numpy makes of the integers of its text, separated by any
    whitespace, by threes.  The array holds as many entries as the text
    has integers: the integers themselves when numpy keeps an integer
    dtype, as it does when all fit 64 bits with a sign, and otherwise
    each integer rounded to a float, as for 1, 2 and 2^63 + 1. *)
Theorem walker_voxels (nib_load : string → result nib_image) (image : string)
    (m : gmap string (gmap Z geometry)) :
  parcel_to_vertex nib_load image = Ok m →
  (∃ cls sh exts root plabel2idx ventries,
     nib_load image = Ok (NiftiImage cls sh (Ok root :: exts)) ∧
     plabel2idx_of root = Ok plabel2idx ∧
     Forall2 (more.entered_voxels plabel2idx) (iter "VoxelIndicesIJK" root) ventries ∧
     m !! "Subcortex" = Some (foldl more.enter_voxels ∅ ventries) ∧
     Forall2 (λ pn e, ∃ t flat,
                text pn.2 = Some t ∧ whitespace_integers t = Ok flat ∧
                more.holds e.2 flat ∧
                (flat ≠ [] → Forall (λ z, - 2 ^ 63 ≤ z < 2 ^ 63)%Z flat →
                 ∃ v, e.2 = VoxelArray v ∧ more.flatten3 v = flat))
       (iter "VoxelIndicesIJK" root) ventries) ∧
  reshape_voxels [1; 2; 9223372036854775809]
  = Ok (VoxelFloats [(1, 2, 9223372036854775808)%float]).
Proof.
  intros H. split; [|vm_compute; reflexivity].
  apply parcel_to_vertex_Ok in H as (cls & sh & exts & root & _ & Hload & H).
  apply parcel_to_vertex_of_voxels in H as (P & ventries & HP & Hall & Hm).
  exists cls, sh, exts, root, P, ventries. split_and!; try done.
  eapply Forall2_impl; [exact Hall|].
  intros pn e (parent & name & t & flat & _ & _ & _ & Ht & Hint & Hre).
  exists t, flat. split_and!; try done.
  - by apply reshape_voxels_holds.
  - intros Hne Hfit. by eapply reshape_voxels_int64.
Qed.

Lemma walker_voxels_witness :
  ∃ plabel2idx ventries,
    plabel2idx_of more.one_voxel_parcel = Ok plabel2idx ∧
    Forall2 (more.entered_voxels plabel2idx)
      (iter "VoxelIndicesIJK" more.one_voxel_parcel) ventries.
Proof.
  assert (parcel_to_vertex more.nib_load_voxels "sub.pscalar.nii"
          = Ok (<["CortexLeft" := ∅]>
                  (<["CortexRight" := ∅]>
                     {["Subcortex" := {[0 := VoxelArray [(1, 2, 3); (4, 5, 6)]]}]}))) as H
    by (vm_compute; reflexivity).
  destruct (proj1 (walker_voxels _ _ _ H))
    as (cls & sh & exts & root & P & ventries & Hload & HP & Hall & _).
  injection Hload as _ _ <-.
  exists P, ventries. split; [exact HP|exact Hall].
Defined.

Section SingleSpaces.

Lemma split_on_tail_cons sep a t :
  "" ∈ tail (split_on sep t) → "" ∈ tail (split_on sep (String a t)).
Proof.
  simpl. destruct (Ascii.eqb a sep).
  - simpl. intros H. destruct (split_on sep t); [done|]. by apply list_elem_of_further.
  - by destruct (split_on sep t).
Qed.

Lemma split_on_tail_app sep t1 s :
  "" ∈ tail (split_on sep s) → "" ∈ tail (split_on sep (t1 +:+ s)).
Proof.
  intros Hs. induction t1 as [|a t1 IH]; [done|].
  rewrite append_String. by apply split_on_tail_cons.
Qed.

(** The texts that the split on single spaces leaves an empty piece of. *)
Lemma split_on_empty_piece t :
  (∃ t1 t2, t = t1 +:+ "  " +:+ t2) ∨ (∃ t', t = " " +:+ t') ∨
  (∃ t', t = t' +:+ " ") ∨ t = "" →
  "" ∈ split_on " " t.
Proof.
  assert (∀ l : list string, "" ∈ tail l → "" ∈ l) as Htail.
  { intros [|x l]; [done|]. simpl. by apply list_elem_of_further. }
  intros [(t1 & t2 & ->)|[(t' & ->)|[(t' & ->)| ->]]].
  - apply Htail, split_on_tail_app. simpl. apply list_elem_of_here.
  - simpl. apply list_elem_of_here.
  - apply Htail, split_on_tail_app. simpl. apply list_elem_of_here.
  - simpl. apply list_elem_of_here.
Qed.

Lemma int_raises p e :
  int p = Raise e → e = ValueError ("invalid literal for int() with base 10: '" +:+ p +:+ "'").
Proof.
  unfold int. destruct (split_sign (strip p)) as [negative digits].
  destruct (digits_value 0 false digits); [done|]. by intros [= <-].
Qed.

Lemma comprehension_raises {A B} (f : A → result B) l x e :
  x ∈ l → f x = Raise e → ∃ y e', y ∈ l ∧ f y = Raise e' ∧ comprehension f l = Raise e'.
Proof.
  intros Hin Hx. induction l as [|a l IH]; [by apply elem_of_nil in Hin|].
  simpl. destruct (f a) as [b|e'] eqn:Ha.
  - apply elem_of_cons in Hin as [->|Hin]; [congruence|].
    destruct (IH Hin) as (y & e' & Hy & Hfy & Hc).
    exists y, e'. split; [by apply list_elem_of_further|]. split; [done|].
    simpl. by rewrite Hc.
  - exists a, e'. split; [apply list_elem_of_here|done].
Qed.

Lemma split_ws_doubled t1 t2 :
  split_ws (t1 +:+ "  " +:+ t2) = split_ws (t1 +:+ " " +:+ t2).
Proof.
  induction t1 as [|a t1 IH]; [done|].
  rewrite !append_String. simpl. destruct (is_space a); [exact IH|].
  destruct t1 as [|b t1]; [done|].
  rewrite !append_String in *. destruct (is_space b); by rewrite IH.
Qed.

End SingleSpaces.

(** X17. The two loops of the walker read their texts differently.  The
    text of a [Vertices] node is split on single spaces: with a doubled
    space, a space at either end, or no character at all, a piece is
    empty and the node raises the [ValueError] of [int] on the first
    piece that is no integer, though its parcel and its structure are
    found.  The text of a [VoxelIndicesIJK] node is split on runs of
    whitespace, and a doubled space reads as a single one. *)
Theorem vertices_text_single_spaces (plabel2idx : gmap string Z)
    (mapping : gmap string (gmap Z geometry)) (pn : option element * element)
    (parent : element) (name structure t : string) (k : Z) :
  pn.1 = Some parent → attrib parent !! "Name" = Some name →
  plabel2idx !! name = Some k →
  attrib pn.2 !! "BrainStructure" = Some structure →
  text pn.2 = Some t →
  (∃ t1 t2, t = t1 +:+ "  " +:+ t2) ∨ (∃ t', t = " " +:+ t') ∨
  (∃ t', t = t' +:+ " ") ∨ t = "" →
  (∃ p, p ∈ split_on " " t ∧
        vertices_body plabel2idx mapping pn
        = Raise (ValueError ("invalid literal for int() with base 10: '" +:+ p +:+ "'"))) ∧
  (∀ t1 t2, whitespace_integers (t1 +:+ "  " +:+ t2)
            = whitespace_integers (t1 +:+ " " +:+ t2)).
Proof.
  intros Hp Hn Hk Hs Ht Hshape. split.
  - apply split_on_empty_piece in Hshape.
    destruct (comprehension_raises int (split_on " " t) "" _ Hshape eq_refl)
      as (p & e & Hin & Hint & Hc).
    exists p. split; [done|]. apply int_raises in Hint. subst e.
    unfold vertices_body, parent_of, getitem, text_split.
    rewrite Hp. simpl. rewrite Hn. simpl. rewrite Hk. simpl. rewrite Hs. simpl.
    rewrite Ht. simpl. by rewrite Hc.
  - intros t1 t2. unfold whitespace_integers. by rewrite split_ws_doubled.
Qed.

Lemma vertices_text_single_spaces_witness :
  ∃ p, vertices_body {["A" := 0]} ∅
         (Some (Element "Parcel" {["Name" := "A"]} None []),
          Element "Vertices" {["BrainStructure" := "CIFTI_STRUCTURE_CORTEX_LEFT"]}
            (Some "3  7") [])
       = Raise (ValueError ("invalid literal for int() with base 10: '" +:+ p +:+ "'")).
Proof.
  destruct (vertices_text_single_spaces {["A" := 0]} ∅
              (Some (Element "Parcel" {["Name" := "A"]} None []),
               Element "Vertices" {["BrainStructure" := "CIFTI_STRUCTURE_CORTEX_LEFT"]}
                 (Some "3  7") [])
              (Element "Parcel" {["Name" := "A"]} None []) "A"
              "CIFTI_STRUCTURE_CORTEX_LEFT" "3  7" 0)
    as [[p [_ Hp]] _];
    [reflexivity|reflexivity|reflexivity|reflexivity|reflexivity| |by exists p].
  left. by exists "3", "7".
Defined.

Section WalkerErrors.

Lemma for_each_Raise {A S} (body : S → A → result S) l acc e :
  for_each body l acc = Raise e → ∃ acc' x, x ∈ l ∧ body acc' x = Raise e.
Proof.
  revert acc. induction l as [|x l IH]; intros acc; simpl; [done|].
  destruct (body acc x) as [acc1|e1] eqn:Hb; simpl.
  - intros H. destruct (IH _ H) as (acc' & y & Hy & Hby).
    exists acc', y. split; [by apply list_elem_of_further|done].
  - intros [= <-]. exists acc, x. split; [apply list_elem_of_here|done].
Qed.

Lemma comprehension_Raise {A B} (f : A → result B) l e :
  comprehension f l = Raise e → ∃ x, x ∈ l ∧ f x = Raise e.
Proof.
  induction l as [|x l IH]; simpl; [done|].
  destruct (f x) as [y|e1] eqn:Hx; simpl.
  - destruct (comprehension f l) as [ys|e2]; simpl; [done|].
    intros [= <-]. destruct (IH eq_refl) as (x' & Hin & Hx').
    exists x'. split; [by apply list_elem_of_further|done].
  - intros [= <-]. exists x. split; [apply list_elem_of_here|done].
Qed.

Lemma getitem_Raise {V} (d : gmap string V) k e :
  getitem d k = Raise e → e = KeyError k.
Proof. unfold getitem. destruct (d !! k); [done|]. by intros [= <-]. Qed.

Lemma ints_Raise pieces e : comprehension int pieces = Raise e → more.walker_error e.
Proof.
  intros (p & _ & Hp)%comprehension_Raise. apply int_raises in Hp. right. left. by eauto.
Qed.

Lemma reshape3_Raise {A} (l : list A) e :
  reshape3 l = Raise e → e = ValueError "cannot reshape array into shape (3)".
Proof.
  revert e. induction l as [l IH] using (induction_ltof1 _ length). unfold ltof in IH.
  intros e. destruct l as [|x [|y [|z l']]]; simpl; try done; try by intros [= <-].
  destruct (reshape3 l') as [r|e'] eqn:Hr; simpl; [done|].
  intros [= <-]. apply (IH l'); [simpl; lia|done].
Qed.

Ltac bind_step H x Hx :=
  match type of H with
  | (?r ≫= _) = Raise _ =>
      destruct r as [x|?e0] eqn:Hx; simpl in H; [|injection H as <-]
  end.

Lemma vertices_body_Raise P m pn e : vertices_body P m pn = Raise e → more.walker_error e.
Proof.
  unfold vertices_body, setitem2. intros H.
  bind_step H parent Hp.
  2: { unfold parent_of in Hp. destruct pn.1; [done|]. injection Hp as <-. left. by eauto. }
  bind_step H parcel Hn. 2: { apply getitem_Raise in Hn. left. by eauto. }
  bind_step H k Hk. 2: { apply getitem_Raise in Hk. left. by eauto. }
  bind_step H structure Hs. 2: { apply getitem_Raise in Hs. left. by eauto. }
  bind_step H pieces Ht.
  2: { unfold text_split in Ht. destruct (text pn.2); [done|]. injection Ht as <-.
       by right; right. }
  bind_step H v Hv. 2: { by eapply ints_Raise. }
  destruct (String.eqb structure "CIFTI_STRUCTURE_CORTEX_LEFT").
  { bind_step H inner Hi; [done|]. apply getitem_Raise in Hi. left. by eauto. }
  destruct (String.eqb structure "CIFTI_STRUCTURE_CORTEX_RIGHT").
  { bind_step H inner Hi; [done|]. apply getitem_Raise in Hi. left. by eauto. }
  injection H as <-. right. left. by eauto.
Qed.

Lemma voxels_body_Raise P m pn e : voxels_body P m pn = Raise e → more.walker_error e.
Proof.
  unfold voxels_body, setitem2. intros H.
  bind_step H parent Hp.
  2: { unfold parent_of in Hp. destruct pn.1; [done|]. injection Hp as <-. left. by eauto. }
  bind_step H parcel Hn. 2: { apply getitem_Raise in Hn. left. by eauto. }
  bind_step H k Hk. 2: { apply getitem_Raise in Hk. left. by eauto. }
  bind_step H pieces Ht.
  2: { unfold text_split in Ht. destruct (text pn.2); [done|]. injection Ht as <-.
       by right; right. }
  bind_step H flat Hv. 2: { by eapply ints_Raise. }
  bind_step H voxels Hr.
  2: { unfold reshape_voxels in Hr.
       destruct (np_array flat) as [values|values];
         (destruct (reshape3 values) as [v|e1] eqn:Hre; simpl in Hr; [done|]);
         injection Hr as <-; apply reshape3_Raise in Hre; right; left; by eauto. }
  bind_step H inner Hi; [done|]. apply getitem_Raise in Hi. left. by eauto.
Qed.

Lemma plabel2idx_of_Raise root e :
  plabel2idx_of root = Raise e ↔
  e = KeyError "Name" ∧ ∃ pn, pn ∈ iter "Parcel" root ∧ attrib pn.2 !! "Name" = None.
Proof.
  unfold plabel2idx_of. rewrite plabel2idx_loop. split.
  - destruct (comprehension _ _) as [names|e'] eqn:Hc; simpl; [done|].
    intros [= <-]. apply comprehension_Raise in Hc as (pn & Hin & Hpn).
    pose proof (getitem_Raise _ _ _ Hpn) as ->. split; [done|]. exists pn. split; [done|].
    unfold getitem in Hpn. by destruct (attrib pn.2 !! "Name").
  - intros [-> (pn & Hin & Hpn)].
    destruct (comprehension_raises (λ pn, getitem (attrib pn.2) "Name")
                (iter "Parcel" root) pn (KeyError "Name") Hin)
      as (y & e' & _ & Hy & ->).
    { unfold getitem. by rewrite Hpn. }
    simpl. by rewrite (getitem_Raise _ _ _ Hy).
Qed.

End WalkerErrors.

(** X18. On parsed metadata the walker raises nothing but [KeyError],
    [ValueError] and the [AttributeError] of a node without text.  It
    raises before any vertex or voxel is read, with [KeyError] on "Name",
    exactly when a [Parcel] node has no name. *)
Theorem walker_error_kinds (root : element) (e : exn) :
  (parcel_to_vertex_of root = Raise e →
   (∃ k, e = KeyError k) ∨ (∃ msg, e = ValueError msg) ∨
   e = AttributeError "'NoneType' object has no attribute 'split'") ∧
  (plabel2idx_of root = Raise e ↔
   e = KeyError "Name" ∧
   ∃ pn, pn ∈ iter "Parcel" root ∧ attrib pn.2 !! "Name" = None) ∧
  (plabel2idx_of root = Raise e → parcel_to_vertex_of root = Raise e).
Proof.
  split; [|split; [apply plabel2idx_of_Raise|]].
  - unfold parcel_to_vertex_of. intros H.
    destruct (plabel2idx_of root) as [P|e0] eqn:HP; simpl in H.
    2: { injection H as <-. apply plabel2idx_of_Raise in HP as [-> _]. left. by eauto. }
    destruct (for_each (vertices_body P) _ _) as [m1|e1] eqn:H1; simpl in H.
    2: { injection H as <-. apply for_each_Raise in H1 as (acc & pn & _ & Hb).
         by eapply vertices_body_Raise. }
    apply for_each_Raise in H as (acc & pn & _ & Hb). by eapply voxels_body_Raise.
  - unfold parcel_to_vertex_of. by intros ->.
Qed.

Lemma walker_error_kinds_witness :
  parcel_to_vertex_of more.nameless_parcel = Raise (KeyError "Name").
Proof.
  apply (proj2 (proj2 (walker_error_kinds more.nameless_parcel (KeyError "Name")))).
  apply (proj2 (proj1 (proj2 (walker_error_kinds more.nameless_parcel (KeyError "Name"))))).
  split; [reflexivity|].
  exists (Some (Element "MatrixIndicesMap" ∅ None [Element "Parcel" ∅ None []]),
          Element "Parcel" ∅ None []).
  split; [|reflexivity]. apply iter_walk. split; [|reflexivity].
  do 3 apply list_elem_of_further. apply list_elem_of_here.
Defined.

(** * The result of the walker *)

Section WalkerReading.










End WalkerReading.



